(** * ExpenseTracker: split calculator and settlement engine

    A shallow embedding of [backend/main.py]: the expense-creation
    endpoint [add_expense] and the balance report
    [calculate_group_balances], with the database tables they read and
    write.

    Modelling conventions.
    - Amounts are modelled twice.  In the main development a Python
      [float] is a rational ([Q]) with exact arithmetic and [round(x, 2)]
      is rounding half-to-even of the exact value to two decimals; it
      carries the properties of the tables, of the shares and of the
      report's structure, on which the rounding of a double has no
      bearing.  Module [Double] repeats [add_expense] and
      [calculate_group_balances] on IEEE 754 binary64 numbers (sums left
      to right, infinities and NaN included); it carries the properties
      that the last bit of a sum, the epsilon test of the settlement loop
      or an infinite balance decides.
    - Python [int] identifiers are [Z].
    - A Python [dict] is an association list with unique keys kept in
      insertion order; assigning to an existing key keeps its position.
    - The database is a record of tables (lists of rows), each in the
      order of its primary key, which is the order SQLite scans it in.  A
      SQLAlchemy session commits rows to it; an exception leaves the
      database as of the last commit.
    - Exceptions are values of [exn]; a call returns an [outcome]. *)

From Stdlib Require Import String ZArith QArith Qround Qabs List Bool Lia Lqa.
From Stdlib Require Uint63 Floats.

Set Warnings "-inexact-float".
Import ListNotations.

Local Open Scope Q_scope.

(** ** Numbers *)

(** [x < y] on floats, as a boolean. *)
Definition Qltb (x y : Q) : bool := negb (Qle_bool y x).

(** Python's [min(a, b)]: the first argument unless the second is
    strictly smaller. *)
Definition py_min (a b : Q) : Q := if Qltb b a then b else a.

(** Rounding to the nearest integer, ties to the even one. *)
Definition round_half_even (x : Q) : Z :=
  let f := Qfloor x in
  match Qcompare (x - inject_Z f) (1 # 2) with
  | Lt => f
  | Gt => (f + 1)%Z
  | Eq => if Z.even f then f else (f + 1)%Z
  end.

(** Python's [round(x, 2)]. *)
Definition round2 (x : Q) : Q := round_half_even (x * 100) # 100.

Arguments round2 x : simpl never.

(** ** Exceptions and outcomes *)

Inductive exn : Type :=
| HTTPException (status_code : Z) (detail : string)
| TypeError
| ZeroDivisionError
| KeyError
| IndexError.

Inductive outcome (A : Type) : Type :=
| Return (a : A)
| Raise (e : exn).

Arguments Return {A} a.
Arguments Raise {A} e.

(** ** Dictionaries *)

Section Dict.
Context {V : Type}.

Definition dict : Type := list (Z * V).

Fixpoint dict_get (d : dict) (k : Z) : option V :=
  match d with
  | [] => None
  | (k', v) :: rest => if (k' =? k)%Z then Some v else dict_get rest k
  end.

(** [d[k] = v] *)
Fixpoint dict_set (d : dict) (k : Z) (v : V) : dict :=
  match d with
  | [] => [(k, v)]
  | (k', v') :: rest =>
      if (k' =? k)%Z then (k, v) :: rest else (k', v') :: dict_set rest k v
  end.

Definition keys (d : dict) : list Z := map fst d.
Definition values (d : dict) : list V := map snd d.
End Dict.

Arguments dict V : clear implicits.

(** Reading a [defaultdict(float)]: a missing key reads as [0.0]. *)
Definition dd_get (d : dict Q) (k : Z) : Q :=
  match dict_get d k with
  | Some v => v
  | None => 0
  end.

(** [d[k] += v] on a [defaultdict(float)]. *)
Definition dd_add (d : dict Q) (k : Z) (v : Q) : dict Q :=
  dict_set d k (dd_get d k + v).

(** [sum(...)] of floats, left to right from [0]. *)
Definition Qsum (l : list Q) : Q := fold_left Qplus l 0.

(** ** Database rows *)

Inductive SplitType : Type := EQUAL | PERCENTAGE.

Record User : Type := mkUser {
  User_id : Z;
  User_name : string;
  User_email : string
}.

Record Group : Type := mkGroup {
  Group_id : Z;
  Group_name : string
}.

Record GroupMember : Type := mkGroupMember {
  GroupMember_id : Z;
  GroupMember_group_id : Z;
  GroupMember_user_id : Z
}.

Record Expense : Type := mkExpense {
  Expense_id : Z;
  Expense_description : string;
  Expense_amount : Q;
  Expense_group_id : Z;
  Expense_paid_by : Z;
  Expense_split_type : SplitType
}.

Record ExpenseSplit : Type := mkExpenseSplit {
  ExpenseSplit_id : Z;
  ExpenseSplit_expense_id : Z;
  ExpenseSplit_user_id : Z;
  ExpenseSplit_amount : Q;
  ExpenseSplit_percentage : option Q
}.

Record DB : Type := mkDB {
  users : list User;
  groups : list Group;
  group_members : list GroupMember;
  expenses : list Expense;
  expense_splits : list ExpenseSplit
}.

(** ** Request bodies *)

Record ExpenseSplitCreate : Type := mkExpenseSplitCreate {
  split_user_id : Z;
  split_percentage : option Q
}.

Record ExpenseCreate : Type := mkExpenseCreate {
  description : string;
  amount : Q;
  paid_by : Z;
  split_type : SplitType;
  splits : list ExpenseSplitCreate
}.

(** ** Queries *)

(** [db.query(Group).filter(Group.id == group_id).first()] *)
Definition query_group (db : DB) (group_id : Z) : option Group :=
  find (fun g => (Group_id g =? group_id)%Z) (groups db).

(** Some membership row links [user_id] to [group_id]. *)
Definition in_group (db : DB) (group_id user_id : Z) : bool :=
  existsb (fun m => (GroupMember_group_id m =? group_id)%Z
                    && (GroupMember_user_id m =? user_id)%Z)
          (group_members db).

(** [db.query(User).join(GroupMember).filter(GroupMember.group_id ==
    group_id, User.id == user_id).first()] *)
Definition query_group_user (db : DB) (group_id user_id : Z) : option User :=
  find (fun u => in_group db group_id (User_id u) && (User_id u =? user_id)%Z)
       (users db).

(** [db.query(GroupMember).filter(GroupMember.group_id == group_id).all()] *)
Definition query_group_members (db : DB) (group_id : Z) : list GroupMember :=
  filter (fun m => (GroupMember_group_id m =? group_id)%Z) (group_members db).

(** The ids of [ids], each once, where it first appears. *)
Fixpoint first_occurrences (ids : list Z) : list Z :=
  match ids with
  | [] => []
  | k :: rest =>
      k :: filter (fun k' => negb (k' =? k)%Z) (first_occurrences rest)
  end.

(** The row of the users table under a primary key, if there is one. *)
Definition user_by_id (users : list User) (user_id : Z) : list User :=
  match find (fun u => (User_id u =? user_id)%Z) users with
  | Some u => [u]
  | None => []
  end.

(** [users JOIN group_members] for the membership rows [rows]: the join
    walks the rows in order and fetches each user by primary key, so the
    users come in the order of their membership rows; the ORM returns a
    user that several rows name once, where it comes first. *)
Definition joined_users (users : list User) (rows : list GroupMember)
    : list User :=
  flat_map (user_by_id users)
           (first_occurrences (map GroupMember_user_id rows)).

(** [db.query(User).join(GroupMember).filter(GroupMember.group_id ==
    group_id).all()] *)
Definition query_group_users (db : DB) (group_id : Z) : list User :=
  joined_users (users db) (query_group_members db group_id).

(** [db.query(Expense).filter(Expense.group_id == group_id).all()] *)
Definition query_expenses (db : DB) (group_id : Z) : list Expense :=
  filter (fun e => (Expense_group_id e =? group_id)%Z) (expenses db).

(** Some expense of the group has this id. *)
Definition expense_in_group (db : DB) (group_id expense_id : Z) : bool :=
  existsb (fun e => (Expense_id e =? expense_id)%Z
                    && (Expense_group_id e =? group_id)%Z)
          (expenses db).

(** [db.query(ExpenseSplit).join(Expense).filter(Expense.group_id ==
    group_id).all()] *)
Definition query_splits (db : DB) (group_id : Z) : list ExpenseSplit :=
  filter (fun s => expense_in_group db group_id (ExpenseSplit_expense_id s))
         (expense_splits db).

(** ** Inserting rows *)

(** The key an integer primary key column gives a new row. *)
Definition next_id (ids : list Z) : Z := (1 + fold_right Z.max 0 ids)%Z.

(** [db.add(db_expense); db.commit(); db.refresh(db_expense)] *)
Definition insert_expense (db : DB) (description : string) (amount : Q)
    (group_id paid_by : Z) (split_type : SplitType) : DB * Expense :=
  let db_expense :=
    mkExpense (next_id (map Expense_id (expenses db)))
              description amount group_id paid_by split_type in
  (mkDB (users db) (groups db) (group_members db)
        (expenses db ++ [db_expense]) (expense_splits db),
   db_expense).

(** An [ExpenseSplit] object added to the session and not yet flushed:
    it has no id. *)
Record PendingSplit : Type := mkPendingSplit {
  pending_expense_id : Z;
  pending_user_id : Z;
  pending_amount : Q;
  pending_percentage : option Q
}.

Fixpoint flush_splits (rows : list ExpenseSplit) (pending : list PendingSplit)
    : list ExpenseSplit :=
  match pending with
  | [] => rows
  | p :: rest =>
      flush_splits
        (rows ++ [mkExpenseSplit (next_id (map ExpenseSplit_id rows))
                                 (pending_expense_id p) (pending_user_id p)
                                 (pending_amount p) (pending_percentage p)])
        rest
  end.

(** The final [db.commit()] of the pending splits. *)
Definition commit_splits (db : DB) (pending : list PendingSplit) : DB :=
  mkDB (users db) (groups db) (group_members db) (expenses db)
       (flush_splits (expense_splits db) pending).

(** ** add_expense *)

(** [split.percentage or 0] *)
Definition percentage_or_0 (s : ExpenseSplitCreate) : Q :=
  match split_percentage s with
  | Some p => p
  | None => 0
  end.

(** [sum(split.percentage or 0 for split in expense.splits)] *)
Definition total_percentage (l : list ExpenseSplitCreate) : Q :=
  Qsum (map percentage_or_0 l).

(** The loop over [expense.splits] of the percentage branch;
    [None / 100] raises [TypeError]. *)
Fixpoint percentage_splits (amount : Q) (expense_id : Z)
    (l : list ExpenseSplitCreate) : outcome (list PendingSplit) :=
  match l with
  | [] => Return []
  | split_data :: rest =>
      match split_percentage split_data with
      | None => Raise TypeError
      | Some percentage =>
          let split_amount := amount * (percentage / 100) in
          match percentage_splits amount expense_id rest with
          | Return added =>
              Return (mkPendingSplit expense_id (split_user_id split_data)
                                     split_amount (Some percentage) :: added)
          | Raise e => Raise e
          end
      end
  end.

(** The equal branch: one split of [split_amount] per membership row. *)
Definition equal_splits (split_amount : Q) (expense_id : Z)
    (members : list GroupMember) : list PendingSplit :=
  map (fun member =>
         mkPendingSplit expense_id (GroupMember_user_id member)
                        split_amount None)
      members.

Definition add_expense (group_id : Z) (expense : ExpenseCreate) (db : DB)
    : DB * outcome Expense :=
  match query_group db group_id with
  | None => (db, Raise (HTTPException 404 "Group not found"))
  | Some _ =>
  match query_group_user db group_id (paid_by expense) with
  | None => (db, Raise (HTTPException 400 "Paid by user not in group"))
  | Some _ =>
  if match split_type expense with
     | PERCENTAGE =>
         Qltb 0.01 (Qabs (total_percentage (splits expense) - 100))
     | EQUAL => false
     end
  then (db, Raise (HTTPException 400 "Percentages must sum to 100"))
  else
    let (db1, db_expense) :=
      insert_expense db (description expense) (amount expense) group_id
                     (paid_by expense) (split_type expense) in
    match split_type expense with
    | EQUAL =>
        let members := query_group_members db1 group_id in
        match length members with
        | O => (db1, Raise ZeroDivisionError)
        | S _ =>
            let split_amount :=
              amount expense / inject_Z (Z.of_nat (length members)) in
            (commit_splits db1
               (equal_splits split_amount (Expense_id db_expense) members),
             Return db_expense)
        end
    | PERCENTAGE =>
        match percentage_splits (amount expense) (Expense_id db_expense)
                                (splits expense) with
        | Raise e => (db1, Raise e)
        | Return added => (commit_splits db1 added, Return db_expense)
        end
    end
  end
  end.

(** ** calculate_group_balances *)

(** [user_paid]: how much each user paid, from the expenses. *)
Definition user_paid_of (expenses : list Expense) : dict Q :=
  fold_left (fun user_paid expense =>
               dd_add user_paid (Expense_paid_by expense)
                      (Expense_amount expense))
            expenses [].

(** [user_owes]: how much each user owes, from the splits. *)
Definition user_owes_of (splits : list ExpenseSplit) : dict Q :=
  fold_left (fun user_owes split =>
               dd_add user_owes (ExpenseSplit_user_id split)
                      (ExpenseSplit_amount split))
            splits [].

(** [user_net_balances]: paid minus owed for every user of the group. *)
Definition user_net_balances_of (users : list User)
    (user_paid user_owes : dict Q) : dict Q :=
  fold_left (fun user_net_balances user =>
               let paid := dd_get user_paid (User_id user) in
               let owes := dd_get user_owes (User_id user) in
               let net_balance := paid - owes in
               dict_set user_net_balances (User_id user) net_balance)
            users [].

(** The net balances of a group, as computed from the database. *)
Definition net_balances (db : DB) (group_id : Z) : dict Q :=
  user_net_balances_of (query_group_users db group_id)
                       (user_paid_of (query_expenses db group_id))
                       (user_owes_of (query_splits db group_id)).

(** The lists [creditors] and [debtors], in the order of
    [user_net_balances.items()]. *)
Fixpoint creditors_of (items : list (Z * Q)) : list (Z * Q) :=
  match items with
  | [] => []
  | (user_id, net) :: rest =>
      if Qltb 0 (round2 net)
      then (user_id, round2 net) :: creditors_of rest
      else creditors_of rest
  end.

Fixpoint debtors_of (items : list (Z * Q)) : list (Z * Q) :=
  match items with
  | [] => []
  | (user_id, net) :: rest =>
      if Qltb 0 (round2 net) then debtors_of rest
      else if Qltb (round2 net) 0
           then (user_id, round2 net) :: debtors_of rest
           else debtors_of rest
  end.

(** The entry of one user in [settlements]. *)
Record Settlement : Type := mkSettlement {
  owes : dict Q;
  owed_by : dict Q
}.

(** [{user.id: {"owes": {}, "owed_by": {}} for user in users}] *)
Definition init_settlements (users : list User) : dict Settlement :=
  fold_left (fun d user => dict_set d (User_id user) (mkSettlement [] []))
            users [].

(** [l[n] = x] for [n] in range. *)
Fixpoint list_set {A : Type} (l : list A) (n : nat) (x : A) : list A :=
  match l, n with
  | [], _ => []
  | _ :: rest, O => x :: rest
  | y :: rest, S n' => y :: list_set rest n' x
  end.

(** The variables of the settlement loop; [log] is the sequence of
    settlements the loop announces, one per iteration. *)
Record loop_state : Type := mkLoop {
  debtors : list (Z * Q);
  creditors : list (Z * Q);
  i : nat;
  j : nat;
  settlements : dict Settlement;
  log : list (Z * Z * Q)
}.

(** [i < len(debtors) and j < len(creditors)] *)
Definition loop_cond (st : loop_state) : bool :=
  (i st <? List.length (debtors st))%nat
  && (j st <? List.length (creditors st))%nat.

(** One iteration of the [while] loop. *)
Definition loop_body (st : loop_state) : outcome loop_state :=
  match nth_error (debtors st) (i st), nth_error (creditors st) (j st) with
  | Some (debtor_id, debtor_amt), Some (creditor_id, creditor_amt) =>
      let settle_amt := py_min (- debtor_amt) creditor_amt in
      match dict_get (settlements st) debtor_id with
      | None => Raise KeyError
      | Some sd =>
          let s1 :=
            dict_set (settlements st) debtor_id
                     (mkSettlement (dict_set (owes sd) creditor_id settle_amt)
                                   (owed_by sd)) in
          match dict_get s1 creditor_id with
          | None => Raise KeyError
          | Some sc =>
              let s2 :=
                dict_set s1 creditor_id
                         (mkSettlement (owes sc)
                            (dict_set (owed_by sc) debtor_id settle_amt)) in
              let debtor_amt' := debtor_amt + settle_amt in
              let creditor_amt' := creditor_amt - settle_amt in
              Return
                (mkLoop
                   (list_set (debtors st) (i st) (debtor_id, debtor_amt'))
                   (list_set (creditors st) (j st) (creditor_id, creditor_amt'))
                   (if Qltb (Qabs debtor_amt') 0.01 then S (i st) else i st)
                   (if Qltb (Qabs creditor_amt') 0.01 then S (j st) else j st)
                   s2
                   (log st ++ [(debtor_id, creditor_id, settle_amt)]))
          end
      end
  | _, _ => Raise IndexError
  end.

(** The [while] loop, run for at most [fuel] iterations; [None] when the
    fuel does not suffice. *)
Fixpoint while_loop (fuel : nat) (st : loop_state)
    : option (outcome loop_state) :=
  if loop_cond st then
    match fuel with
    | O => None
    | S fuel' =>
        match loop_body st with
        | Return st' => while_loop fuel' st'
        | Raise e => Some (Raise e)
        end
    end
  else Some (Return st).

(** The state in which the loop starts. *)
Definition loop_init (users : list User) (user_net_balances : dict Q)
    : loop_state :=
  mkLoop (debtors_of user_net_balances) (creditors_of user_net_balances)
         0 0 (init_settlements users) [].

(** Iterations granted to the loop; it never needs more. *)
Definition loop_fuel (st : loop_state) : nat :=
  (List.length (debtors st) + List.length (creditors st))%nat.

(** One entry of the returned balance report. *)
Record Balance : Type := mkBalance {
  Balance_user_id : Z;
  Balance_user_name : string;
  Balance_owes : dict Q;
  Balance_owed_by : dict Q;
  Balance_net_balance : Q
}.

(** The final loop over [users] that builds [balances]. *)
Fixpoint build_balances (users : list User) (user_net_balances : dict Q)
    (settlements : dict Settlement) : outcome (list Balance) :=
  match users with
  | [] => Return []
  | user :: rest =>
      match dict_get user_net_balances (User_id user),
            dict_get settlements (User_id user) with
      | Some net_balance, Some s =>
          match build_balances rest user_net_balances settlements with
          | Return balances =>
              Return (mkBalance (User_id user) (User_name user)
                                (owes s) (owed_by s) (round2 net_balance)
                      :: balances)
          | Raise e => Raise e
          end
      | _, _ => Raise KeyError
      end
  end.

(** The settlement loop on the balances of a group. *)
Definition settle (db : DB) (group_id : Z) : option (outcome loop_state) :=
  let st := loop_init (query_group_users db group_id)
                      (net_balances db group_id) in
  while_loop (loop_fuel st) st.

Definition calculate_group_balances (group_id : Z) (db : DB)
    : option (outcome (list Balance)) :=
  match settle db group_id with
  | None => None
  | Some (Raise e) => Some (Raise e)
  | Some (Return st) =>
      Some (build_balances (query_group_users db group_id)
                           (net_balances db group_id)
                           (settlements st))
  end.

(** ** Sample databases *)

Definition sample_users : list User :=
  [ mkUser 1001 "You" "you@example.com";
    mkUser 1002 "Alice Johnson" "alice@example.com";
    mkUser 1003 "Bob Smith" "bob@example.com" ].

(** Group 1 with the three sample users and no expense. *)
Definition db_trio : DB :=
  mkDB sample_users [mkGroup 1 "trip"]
       [ mkGroupMember 1 1 1001; mkGroupMember 2 1 1002;
         mkGroupMember 3 1 1003 ]
       [] [].

Definition run_add (group_id : Z) (expense : ExpenseCreate) (db : DB) : DB :=
  fst (add_expense group_id expense db).

(** ** Sample requests *)

(** 100 paid by user 1001, split equally. *)
Definition equal_request : ExpenseCreate :=
  mkExpenseCreate "dinner" 100 1001 EQUAL [].

(** A percentage request whose second split carries no percentage, the
    first one carrying all 100. *)
Definition missing_percentage_request : ExpenseCreate :=
  mkExpenseCreate "hotel" 100 1001 PERCENTAGE
    [ mkExpenseSplitCreate 1001 (Some 100); mkExpenseSplitCreate 1002 None ].

(** Percentages 50 and 40 for users 1001 and 1002. *)
Definition short_percentage_request : ExpenseCreate :=
  mkExpenseCreate "hotel" 100 1001 PERCENTAGE
    [ mkExpenseSplitCreate 1001 (Some 50);
      mkExpenseSplitCreate 1002 (Some 40) ].

(** ** Notions used in the statements *)

(** The database once the expense row of a request is committed. *)
Definition db_with_expense (group_id : Z) (expense : ExpenseCreate) (db : DB)
    : DB :=
  fst (insert_expense db (description expense) (amount expense) group_id
                      (paid_by expense) (split_type expense)).

(** The columns of a split other than its id. *)
Definition split_fields (s : ExpenseSplit) : Z * Z * Q * option Q :=
  (ExpenseSplit_expense_id s, ExpenseSplit_user_id s, ExpenseSplit_amount s,
   ExpenseSplit_percentage s).

Definition pending_fields (p : PendingSplit) : Z * Z * Q * option Q :=
  (pending_expense_id p, pending_user_id p, pending_amount p,
   pending_percentage p).

(** Amounts that are whole numbers of hundredths. *)
Definition cents (x : Q) : Prop := exists z : Z, x == z # 100.

(** Entries still ahead of the two cursors. *)
Definition loop_measure (st : loop_state) : nat :=
  ((List.length (debtors st) - i st)
   + (List.length (creditors st) - j st))%nat.

(** Paid minus owed of one user. *)
Definition net_of (user_paid user_owes : dict Q) (user_id : Z) : Q :=
  dd_get user_paid user_id - dd_get user_owes user_id.

(** A dictionary filled with one entry per user, as the loops and the
    comprehension over [users] do. *)
Definition per_user {V : Type} (f : User -> V) (us : list User) (d : dict V)
    : dict V :=
  fold_left (fun d u => dict_set d (User_id u) (f u)) us d.

(** Number of transfers recorded in the ["owes"] dictionaries. *)
Definition settlement_count (s : dict Settlement) : nat :=
  list_sum (map (fun p => List.length (owes (snd p))) s).

(** The bound on the number of transfers for [nd] debtors and [nc]
    creditors: [nd + nc - 1] when there are both, else [0]. *)
Definition settlement_bound (nd nc : nat) : nat :=
  match nd, nc with
  | O, _ => 0
  | _, O => 0
  | _, _ => nd + nc - 1
  end.

(** What is left of a member's rounded net balance once the transfers
    recorded for the member are applied: a debtor's payments raise the
    balance, a creditor's receipts lower it. *)
Definition remaining (b : Balance) : Q :=
  Balance_net_balance b + Qsum (values (Balance_owes b))
  - Qsum (values (Balance_owed_by b)).

(** ** Loop invariants

    [D0] and [C0] are the debtor and creditor lists, [S0] the settlements
    dictionary, with which the loop starts. *)

Section Invariants.

Variables (D0 C0 : list (Z * Q)) (S0 : dict Settlement).

(** Shape: the lists keep their users, the dictionary its keys, the
    cursors stay in range, and the iterations so far are counted by the
    cursors. *)
Record loop_wf (st : loop_state) : Prop := {
  wf_debtor_ids : map fst (debtors st) = map fst D0;
  wf_creditor_ids : map fst (creditors st) = map fst C0;
  wf_keys : keys (settlements st) = keys S0;
  wf_i : (i st <= List.length D0)%nat;
  wf_j : (j st <= List.length C0)%nat;
  wf_log : (List.length (log st) <= i st + j st)%nat;
  wf_log_bound :
    (List.length (log st) <= settlement_bound (List.length D0)
                                              (List.length C0))%nat;
  wf_count : (settlement_count (settlements st) <= List.length (log st))%nat
}.

(** Roles: only debtors have recorded payments, only creditors have
    recorded receipts. *)
Record loop_roles (st : loop_state) : Prop := {
  roles_owes :
    forall u s, dict_get (settlements st) u = Some s ->
                owes s <> [] -> In u (map fst D0);
  roles_owed_by :
    forall u s, dict_get (settlements st) u = Some s ->
                owed_by s <> [] -> In u (map fst C0)
}.

(** Amounts: every outstanding amount is a number of hundredths of the
    right sign, entries behind a cursor are settled, the total is
    conserved, and each outstanding amount is the initial one corrected by
    the transfers recorded for its user. *)
Record loop_ledger (st : loop_state) : Prop := {
  ledger_debtors :
    Forall (fun p => cents (snd p) /\ snd p <= 0) (debtors st);
  ledger_creditors :
    Forall (fun p => cents (snd p) /\ 0 <= snd p) (creditors st);
  ledger_done_d :
    forall k u a, (k < i st)%nat ->
                  nth_error (debtors st) k = Some (u, a) -> a == 0;
  ledger_done_c :
    forall k u a, (k < j st)%nat ->
                  nth_error (creditors st) k = Some (u, a) -> a == 0;
  ledger_total :
    Qsum (map snd (debtors st)) + Qsum (map snd (creditors st))
    == Qsum (map snd D0) + Qsum (map snd C0);
  ledger_owes :
    forall k u a0 a s,
      nth_error D0 k = Some (u, a0) ->
      nth_error (debtors st) k = Some (u, a) ->
      dict_get (settlements st) u = Some s ->
      a == a0 + Qsum (values (owes s));
  ledger_owed_by :
    forall k u a0 a s,
      nth_error C0 k = Some (u, a0) ->
      nth_error (creditors st) k = Some (u, a) ->
      dict_get (settlements st) u = Some s ->
      a == a0 - Qsum (values (owed_by s));
  ledger_fresh_owes :
    forall a b d c x y s,
      nth_error D0 a = Some (d, x) -> nth_error C0 b = Some (c, y) ->
      dict_get (settlements st) d = Some s -> In c (keys (owes s)) ->
      (a < i st \/ b < j st)%nat;
  ledger_fresh_owed_by :
    forall a b d c x y s,
      nth_error D0 a = Some (d, x) -> nth_error C0 b = Some (c, y) ->
      dict_get (settlements st) c = Some s -> In d (keys (owed_by s)) ->
      (a < i st \/ b < j st)%nat
}.

End Invariants.

(** The shares of an expense, and by how much they exceed its amount. *)
Definition shares_of (db : DB) (e : Expense) : list ExpenseSplit :=
  filter (fun s => (ExpenseSplit_expense_id s =? Expense_id e)%Z)
         (expense_splits db).

Definition share_error (db : DB) (e : Expense) : Q :=
  Qsum (map ExpenseSplit_amount (shares_of db e)) - Expense_amount e.

(** Each expense of the group has shares summing to its amount within
    0.01. *)
Definition shares_match (db : DB) (group_id : Z) : Prop :=
  Forall (fun e => Qabs (share_error db e) <= 0.01)
         (query_expenses db group_id).

(** Every payer and every share owner of the group's expenses is a user
    of the group. *)
Definition members_only (db : DB) (group_id : Z) : Prop :=
  Forall (fun e => In (Expense_paid_by e)
                      (map User_id (query_group_users db group_id)))
         (query_expenses db group_id)
  /\ Forall (fun s => In (ExpenseSplit_user_id s)
                         (map User_id (query_group_users db group_id)))
            (query_splits db group_id).

(** The sum over the keys [K] of what a [defaultdict] holds for them. *)
Definition total_on (K : list Z) (d : dict Q) : Q := Qsum (map (dd_get d) K).

(** ** Sample databases with expenses *)

(** The trio after 90 paid by user 1001 and 30 paid by user 1002, both
    split equally. *)
Definition db_example : DB :=
  run_add 1 (mkExpenseCreate "taxi" 30 1002 EQUAL [])
    (run_add 1 (mkExpenseCreate "dinner" 90 1001 EQUAL []) db_trio).

(** 100 paid by user 1001, split 50 % / 50.008 %: the percentages pass
    the check and the shares sum to 100.008. *)
Definition drift_request : ExpenseCreate :=
  mkExpenseCreate "hotel" 100 1001 PERCENTAGE
    [ mkExpenseSplitCreate 1001 (Some 50);
      mkExpenseSplitCreate 1002 (Some 50.008) ].

(** The trio after two such expenses. *)
Definition db_drift : DB :=
  run_add 1 drift_request (run_add 1 drift_request db_trio).

(** Group 1 with user 1001 as its only member. *)
Definition db_solo : DB :=
  mkDB sample_users [mkGroup 1 "solo"] [mkGroupMember 1 1 1001] [] [].

(** 100 paid by user 1001, all of it the share of user 1002. *)
Definition outsider_request : ExpenseCreate :=
  mkExpenseCreate "gift" 100 1001 PERCENTAGE
    [ mkExpenseSplitCreate 1002 (Some 100) ].

(** The solo group after that expense: user 1002 holds the only share
    and is no member. *)
Definition db_outsider : DB := run_add 1 outsider_request db_solo.

(** ** Users and groups *)

Record UserCreate : Type := mkUserCreate {
  UserCreate_name : string;
  UserCreate_email : string
}.

(** [create_user]: refuses an email already registered, else commits the
    user under a new id. *)
Definition create_user (user : UserCreate) (db : DB) : DB * outcome User :=
  match find (fun u => String.eqb (User_email u) (UserCreate_email user))
             (users db) with
  | Some _ => (db, Raise (HTTPException 400 "Email already registered"))
  | None =>
      let db_user := mkUser (next_id (map User_id (users db)))
                            (UserCreate_name user) (UserCreate_email user) in
      (mkDB (users db ++ [db_user]) (groups db) (group_members db)
            (expenses db) (expense_splits db),
       Return db_user)
  end.

Definition get_users (db : DB) : list User := users db.

Record GroupCreate : Type := mkGroupCreate {
  GroupCreate_name : string;
  user_ids : list Z
}.

Record GroupResponse : Type := mkGroupResponse {
  GroupResponse_id : Z;
  GroupResponse_name : string;
  GroupResponse_users : list User;
  total_expenses : Q
}.

(** [func.sum(...)] over the selected rows: [NULL] when there is none. *)
Definition sql_sum (l : list Q) : option Q :=
  match l with
  | [] => None
  | _ :: _ => Some (Qsum l)
  end.

(** [x or 0] for [x] a float or [None]. *)
Definition or_0 (x : option Q) : Q :=
  match x with
  | Some v => if Qeq_bool v 0 then 0 else v
  | None => 0
  end.

Definition get_group_details (group_id : Z) (db : DB) : outcome GroupResponse :=
  match query_group db group_id with
  | None => Raise (HTTPException 404 "Group not found")
  | Some group =>
      let users := query_group_users db group_id in
      let total_expenses :=
        or_0 (sql_sum (map Expense_amount (query_expenses db group_id))) in
      Return (mkGroupResponse (Group_id group) (Group_name group) users
                              total_expenses)
  end.

(** [db.query(User).filter(User.id.in_(user_ids)).all()] *)
Definition query_users_in (db : DB) (ids : list Z) : list User :=
  filter (fun u => existsb (Z.eqb (User_id u)) ids) (users db).

(** [db.add(db_group); db.commit(); db.refresh(db_group)] *)
Definition insert_group (db : DB) (name : string) : DB * Group :=
  let db_group := mkGroup (next_id (map Group_id (groups db))) name in
  (mkDB (users db) (groups db ++ [db_group]) (group_members db)
        (expenses db) (expense_splits db),
   db_group).

(** The membership rows added for [user_ids], flushed in order. *)
Fixpoint flush_members (rows : list GroupMember) (group_id : Z)
    (ids : list Z) : list GroupMember :=
  match ids with
  | [] => rows
  | user_id :: rest =>
      flush_members
        (rows ++ [mkGroupMember (next_id (map GroupMember_id rows))
                                group_id user_id])
        group_id rest
  end.

Definition commit_members (db : DB) (group_id : Z) (ids : list Z) : DB :=
  mkDB (users db) (groups db) (flush_members (group_members db) group_id ids)
       (expenses db) (expense_splits db).

Definition create_group (group : GroupCreate) (db : DB)
    : DB * outcome GroupResponse :=
  let found := query_users_in db (user_ids group) in
  if negb (List.length found =? List.length (user_ids group))%nat
  then (db, Raise (HTTPException 404 "One or more users not found"))
  else
    let (db1, db_group) := insert_group db (GroupCreate_name group) in
    let db2 := commit_members db1 (Group_id db_group) (user_ids group) in
    (db2, get_group_details (Group_id db_group) db2).

Definition get_group (group_id : Z) (db : DB) : outcome GroupResponse :=
  get_group_details group_id db.

(** [[get_group_details(group.id, db) for group in groups]] *)
Fixpoint details_of_groups (gs : list Group) (db : DB)
    : outcome (list GroupResponse) :=
  match gs with
  | [] => Return []
  | group :: rest =>
      match get_group_details (Group_id group) db with
      | Raise e => Raise e
      | Return r =>
          match details_of_groups rest db with
          | Raise e => Raise e
          | Return rs => Return (r :: rs)
          end
      end
  end.

Definition get_groups (db : DB) : outcome (list GroupResponse) :=
  details_of_groups (groups db) db.

(** ** Reading expenses and balances *)

Definition get_group_expenses (group_id : Z) (db : DB)
    : outcome (list Expense) :=
  match query_group db group_id with
  | None => Raise (HTTPException 404 "Group not found")
  | Some _ => Return (query_expenses db group_id)
  end.

Definition get_group_balances (group_id : Z) (db : DB)
    : option (outcome (list Balance)) :=
  match query_group db group_id with
  | None => Some (Raise (HTTPException 404 "Group not found"))
  | Some _ => calculate_group_balances group_id db
  end.





(** ** Notions used in the further statements *)

(** Every stored expense was paid by a user of its group. *)
Definition payers_are_members (db : DB) : Prop :=
  Forall (fun e => In (Expense_paid_by e)
                      (map User_id
                           (query_group_users db (Expense_group_id e))))
         (expenses db).

(** A further invariant of the settlement loop, for the debtor and
    creditor lists [D0] and [C0] with which it starts: the entries at and
    ahead of the cursors are still open, recorded amounts are positive,
    recorded counterparties are of the other list, and the two views of a
    transfer agree. *)

Section Audit.

Variables (D0 C0 : list (Z * Q)).

Record loop_audit (st : loop_state) : Prop := {
  audit_ahead_d :
    forall k u a, (i st <= k)%nat ->
                  nth_error (debtors st) k = Some (u, a) -> a < 0;
  audit_ahead_c :
    forall k u a, (j st <= k)%nat ->
                  nth_error (creditors st) k = Some (u, a) -> 0 < a;
  audit_positive :
    forall u s, dict_get (settlements st) u = Some s ->
                Forall (fun p => 0 < snd p) (owes s)
                /\ Forall (fun p => 0 < snd p) (owed_by s);
  audit_keys :
    forall u s, dict_get (settlements st) u = Some s ->
                (forall c, In c (keys (owes s)) -> In c (map fst C0))
                /\ (forall d, In d (keys (owed_by s)) -> In d (map fst D0));
  audit_mirror :
    forall d c sd sc,
      dict_get (settlements st) d = Some sd ->
      dict_get (settlements st) c = Some sc ->
      dict_get (owes sd) c = dict_get (owed_by sc) d
}.

End Audit.

(** Membership rows and expenses refer to stored groups. *)
Definition refs_ok (db : DB) : Prop :=
  Forall (fun m => In (GroupMember_group_id m) (map Group_id (groups db)))
         (group_members db)
  /\ Forall (fun e => In (Expense_group_id e) (map Group_id (groups db)))
            (expenses db).

(** The database without any row. *)
Definition db_empty : DB := mkDB [] [] [] [] [].

(** The integrity of a database: unique keys and emails, references to
    stored rows, no membership twice, payers in their groups. *)
Record integrity (db : DB) : Prop := {
  int_user_ids : NoDup (map User_id (users db));
  int_emails : NoDup (map User_email (users db));
  int_group_ids : NoDup (map Group_id (groups db));
  int_member_ids : NoDup (map GroupMember_id (group_members db));
  int_expense_ids : NoDup (map Expense_id (expenses db));
  int_split_ids : NoDup (map ExpenseSplit_id (expense_splits db));
  int_refs : refs_ok db;
  int_member_users :
    Forall (fun m => In (GroupMember_user_id m) (map User_id (users db)))
           (group_members db);
  int_memberships :
    NoDup (map (fun m => (GroupMember_group_id m, GroupMember_user_id m))
               (group_members db));
  int_payers : payers_are_members db;
  int_split_refs :
    Forall (fun s => In (ExpenseSplit_expense_id s)
                        (map Expense_id (expenses db)))
           (expense_splits db)
}.

(** The databases the three writing endpoints build from a database that
    holds users only, with unique ids and emails. *)
Inductive reachable : DB -> Prop :=
| reach_start db :
    groups db = [] -> group_members db = [] -> expenses db = [] ->
    expense_splits db = [] ->
    NoDup (map User_id (users db)) -> NoDup (map User_email (users db)) ->
    reachable db
| reach_create_user user db :
    reachable db -> reachable (fst (create_user user db))
| reach_create_group group db :
    reachable db -> reachable (fst (create_group group db))
| reach_add_expense group_id expense db :
    reachable db -> reachable (fst (add_expense group_id expense db)).

(** The shares of every stored expense sum to its amount. *)
Definition shares_exact (db : DB) : Prop :=
  Forall (fun e => share_error db e == 0) (expenses db).

(** Every share is held by a user of the group of its expense. *)
Definition owners_are_members (db : DB) : Prop :=
  Forall (fun s =>
            forall e, In e (expenses db) ->
                      Expense_id e = ExpenseSplit_expense_id s ->
                      In (ExpenseSplit_user_id s)
                         (map User_id
                              (query_group_users db (Expense_group_id e))))
         (expense_splits db).

(** The databases built as [reachable] ones with equal-split requests
    only. *)
Inductive equal_history : DB -> Prop :=
| equal_start db :
    groups db = [] -> group_members db = [] -> expenses db = [] ->
    expense_splits db = [] ->
    NoDup (map User_id (users db)) -> NoDup (map User_email (users db)) ->
    equal_history db
| equal_create_user user db :
    equal_history db -> equal_history (fst (create_user user db))
| equal_create_group group db :
    equal_history db -> equal_history (fst (create_group group db))
| equal_add_expense group_id expense db :
    split_type expense = EQUAL ->
    equal_history db ->
    equal_history (fst (add_expense group_id expense db)).

(** ** Default users *)

Definition default_users : list User :=
  [ mkUser 1001 "You" "you@example.com";
    mkUser 1002 "Alice Johnson" "alice@example.com";
    mkUser 1003 "Bob Smith" "bob@example.com";
    mkUser 1004 "Charlie Brown" "charlie@example.com";
    mkUser 1005 "David Wilson" "david@example.com";
    mkUser 1006 "Eve Davis" "eve@example.com";
    mkUser 1007 "Frank Miller" "frank@example.com";
    mkUser 1008 "Grace Lee" "grace@example.com" ].

(** A row inserted under a given id takes its place in id order, the
    order in which the table is read. *)
Fixpoint insert_by_id (u : User) (l : list User) : list User :=
  match l with
  | [] => [u]
  | v :: rest =>
      if (User_id u <? User_id v)%Z then u :: v :: rest
      else v :: insert_by_id u rest
  end.

(** The default users of which no stored user has the id: those the loop
    adds to the session. *)
Definition missing_defaults (db : DB) : list User :=
  filter (fun d => negb (existsb (fun u => (User_id u =? User_id d)%Z)
                                 (users db)))
         default_users.

(** The commit violates the unique index on [email] when a stored user
    has the email of an added one. *)
Definition email_taken (db : DB) (d : User) : bool :=
  existsb (fun u => String.eqb (User_email u) (User_email d)) (users db).

(** [ensure_default_users]: the commit stores every added user or, on a
    violation, the exception is caught and the session rolled back. *)
Definition ensure_default_users (db : DB) : DB :=
  let added := missing_defaults db in
  if existsb (email_taken db) added then db
  else mkDB (fold_left (fun l d => insert_by_id d l) added (users db))
            (groups db) (group_members db) (expenses db) (expense_splits db).


(** ** A group of seven *)

(** Group 1 with the first seven default users as its members, in order,
    and no expense. *)
Definition db_seven : DB :=
  mkDB default_users [mkGroup 1 "trip"]
       (flush_members [] 1 (map User_id (firstn 7 default_users))) [] [].

(** The seven after 100 paid by user 1001 and split equally. *)
Definition db_sevenths : DB :=
  run_add 1 (mkExpenseCreate "dinner" 100 1001 EQUAL []) db_seven.

(** ** The same code on IEEE 754 doubles

    [Double] embeds [add_expense] and [calculate_group_balances] once
    more, with every Python [float] a binary64 number (a primitive float
    of Rocq): sums and differences round, and infinities and NaN exist.
    It carries the properties in which the rounding of a sum or a
    special value decides what the code does.

    - [sum(...)] accumulates from left to right in double precision, as
      CPython does up to version 3.11.
    - A [Float] column stores a double as it is, except NaN, which SQLite
      stores as NULL and which reads back as [None].
    - The loop is run with the number of iterations it is granted as a
      parameter; [None] means that it has not ended within them.
    - The tables without amounts and their rows are those of the exact
      model. *)
Module Double.

Import PrimFloat SpecFloat FloatOps.
Local Open Scope float_scope.

(** *** Numbers *)

(** Python's [min(a, b)]: the first argument unless the second is
    strictly smaller; a comparison with NaN is false. *)
Definition py_min (a b : float) : float := if b <? a then b else a.

(** The value [m * 2^e] of a finite double. *)
Definition exact (m : positive) (e : Z) : Q :=
  match e with
  | Zneg p => Zpos m # (2 ^ p)
  | _ => inject_Z (Zpos m * 2 ^ e)
  end.

(** The double nearest to [n / 100], with the sign [s]. *)
Definition nearest_hundredths (s : bool) (n : Z) : float :=
  match n with
  | Zpos p =>
      SF2Prim (SFdiv prec emax (S754_finite s p 0) (S754_finite false 100 0))
  | _ => if s then neg_zero else zero
  end.

(** Python's [round(x, 2)] on a double: the value of [x] is rounded
    half-to-even to a whole number of hundredths, and the result is the
    double nearest to that decimal; zeros, infinities and NaN round to
    themselves. *)
Definition round2 (x : float) : float :=
  match Prim2SF x with
  | S754_finite s m e =>
      nearest_hundredths s (round_half_even (exact m e * 100))
  | _ => x
  end.

(** [float(n)] for the length of a list. *)
Definition of_nat (n : nat) : float := of_uint63 (Uint63.of_Z (Z.of_nat n)).

(** Reading a [defaultdict(float)]: a missing key reads as [0.0]. *)
Definition dd_get (d : dict float) (k : Z) : float :=
  match dict_get d k with
  | Some v => v
  | None => 0
  end.

(** [d[k] += v] on a [defaultdict(float)]. *)
Definition dd_add (d : dict float) (k : Z) (v : float) : dict float :=
  dict_set d k (dd_get d k + v).

(** [sum(...)] of floats, left to right from [0]. *)
Definition py_sum (l : list float) : float := fold_left add l 0.

(** What a [Float] column holds once [x] is written to it. *)
Definition sql_real (x : float) : option float :=
  if is_nan x then None else Some x.

(** *** Database rows *)

Record Expense : Type := mkExpense {
  Expense_id : Z;
  Expense_description : string;
  Expense_amount : option float;
  Expense_group_id : Z;
  Expense_paid_by : Z;
  Expense_split_type : SplitType
}.

Record ExpenseSplit : Type := mkExpenseSplit {
  ExpenseSplit_id : Z;
  ExpenseSplit_expense_id : Z;
  ExpenseSplit_user_id : Z;
  ExpenseSplit_amount : option float;
  ExpenseSplit_percentage : option float
}.

Record DB : Type := mkDB {
  users : list User;
  groups : list Group;
  group_members : list GroupMember;
  expenses : list Expense;
  expense_splits : list ExpenseSplit
}.

(** *** Request bodies *)

Record ExpenseSplitCreate : Type := mkExpenseSplitCreate {
  split_user_id : Z;
  split_percentage : option float
}.

Record ExpenseCreate : Type := mkExpenseCreate {
  description : string;
  amount : float;
  paid_by : Z;
  split_type : SplitType;
  splits : list ExpenseSplitCreate
}.

(** *** Queries *)

Definition query_group (db : DB) (group_id : Z) : option Group :=
  find (fun g => (Group_id g =? group_id)%Z) (groups db).

Definition in_group (db : DB) (group_id user_id : Z) : bool :=
  existsb (fun m => (GroupMember_group_id m =? group_id)%Z
                    && (GroupMember_user_id m =? user_id)%Z)
          (group_members db).

Definition query_group_user (db : DB) (group_id user_id : Z) : option User :=
  find (fun u => in_group db group_id (User_id u) && (User_id u =? user_id)%Z)
       (users db).

Definition query_group_members (db : DB) (group_id : Z) : list GroupMember :=
  filter (fun m => (GroupMember_group_id m =? group_id)%Z) (group_members db).

Definition query_group_users (db : DB) (group_id : Z) : list User :=
  joined_users (users db) (query_group_members db group_id).

Definition query_expenses (db : DB) (group_id : Z) : list Expense :=
  filter (fun e => (Expense_group_id e =? group_id)%Z) (expenses db).

Definition expense_in_group (db : DB) (group_id expense_id : Z) : bool :=
  existsb (fun e => (Expense_id e =? expense_id)%Z
                    && (Expense_group_id e =? group_id)%Z)
          (expenses db).

Definition query_splits (db : DB) (group_id : Z) : list ExpenseSplit :=
  filter (fun s => expense_in_group db group_id (ExpenseSplit_expense_id s))
         (expense_splits db).

(** *** Inserting rows *)

Definition insert_expense (db : DB) (description : string) (amount : float)
    (group_id paid_by : Z) (split_type : SplitType) : DB * Expense :=
  let db_expense :=
    mkExpense (next_id (map Expense_id (expenses db)))
              description (sql_real amount) group_id paid_by split_type in
  (mkDB (users db) (groups db) (group_members db)
        (expenses db ++ [db_expense]) (expense_splits db),
   db_expense).

Record PendingSplit : Type := mkPendingSplit {
  pending_expense_id : Z;
  pending_user_id : Z;
  pending_amount : float;
  pending_percentage : option float
}.

Fixpoint flush_splits (rows : list ExpenseSplit) (pending : list PendingSplit)
    : list ExpenseSplit :=
  match pending with
  | [] => rows
  | p :: rest =>
      flush_splits
        (rows ++ [mkExpenseSplit (next_id (map ExpenseSplit_id rows))
                    (pending_expense_id p) (pending_user_id p)
                    (sql_real (pending_amount p))
                    (match pending_percentage p with
                     | Some percentage => sql_real percentage
                     | None => None
                     end)])
        rest
  end.

Definition commit_splits (db : DB) (pending : list PendingSplit) : DB :=
  mkDB (users db) (groups db) (group_members db) (expenses db)
       (flush_splits (expense_splits db) pending).

(** *** add_expense *)

(** [split.percentage or 0]: [None] and a zero are false, NaN is not. *)
Definition percentage_or_0 (s : ExpenseSplitCreate) : float :=
  match split_percentage s with
  | Some p => if p =? 0 then 0 else p
  | None => 0
  end.

(** [sum(split.percentage or 0 for split in expense.splits)] *)
Definition total_percentage (l : list ExpenseSplitCreate) : float :=
  py_sum (map percentage_or_0 l).

Fixpoint percentage_splits (amount : float) (expense_id : Z)
    (l : list ExpenseSplitCreate) : outcome (list PendingSplit) :=
  match l with
  | [] => Return []
  | split_data :: rest =>
      match split_percentage split_data with
      | None => Raise TypeError
      | Some percentage =>
          let split_amount := amount * (percentage / 100) in
          match percentage_splits amount expense_id rest with
          | Return added =>
              Return (mkPendingSplit expense_id (split_user_id split_data)
                                     split_amount (Some percentage) :: added)
          | Raise e => Raise e
          end
      end
  end.

Definition equal_splits (split_amount : float) (expense_id : Z)
    (members : list GroupMember) : list PendingSplit :=
  map (fun member =>
         mkPendingSplit expense_id (GroupMember_user_id member)
                        split_amount None)
      members.

Definition add_expense (group_id : Z) (expense : ExpenseCreate) (db : DB)
    : DB * outcome Expense :=
  match query_group db group_id with
  | None => (db, Raise (HTTPException 404 "Group not found"))
  | Some _ =>
  match query_group_user db group_id (paid_by expense) with
  | None => (db, Raise (HTTPException 400 "Paid by user not in group"))
  | Some _ =>
  if match split_type expense with
     | PERCENTAGE => 0.01 <? abs (total_percentage (splits expense) - 100)
     | EQUAL => false
     end
  then (db, Raise (HTTPException 400 "Percentages must sum to 100"))
  else
    let (db1, db_expense) :=
      insert_expense db (description expense) (amount expense) group_id
                     (paid_by expense) (split_type expense) in
    match split_type expense with
    | EQUAL =>
        let members := query_group_members db1 group_id in
        match length members with
        | O => (db1, Raise ZeroDivisionError)
        | S _ =>
            let split_amount := amount expense / of_nat (length members) in
            (commit_splits db1
               (equal_splits split_amount (Expense_id db_expense) members),
             Return db_expense)
        end
    | PERCENTAGE =>
        match percentage_splits (amount expense) (Expense_id db_expense)
                                (splits expense) with
        | Raise e => (db1, Raise e)
        | Return added => (commit_splits db1 added, Return db_expense)
        end
    end
  end
  end.

(** *** calculate_group_balances *)

(** [user_paid[expense.paid_by] += expense.amount] for every expense;
    adding [None] raises [TypeError]. *)
Fixpoint user_paid_of (expenses : list Expense) (user_paid : dict float)
    : outcome (dict float) :=
  match expenses with
  | [] => Return user_paid
  | expense :: rest =>
      match Expense_amount expense with
      | None => Raise TypeError
      | Some amount =>
          user_paid_of rest (dd_add user_paid (Expense_paid_by expense) amount)
      end
  end.

(** [user_owes[split.user_id] += split.amount] for every split. *)
Fixpoint user_owes_of (splits : list ExpenseSplit) (user_owes : dict float)
    : outcome (dict float) :=
  match splits with
  | [] => Return user_owes
  | split :: rest =>
      match ExpenseSplit_amount split with
      | None => Raise TypeError
      | Some amount =>
          user_owes_of rest
                       (dd_add user_owes (ExpenseSplit_user_id split) amount)
      end
  end.

Definition user_net_balances_of (users : list User)
    (user_paid user_owes : dict float) : dict float :=
  fold_left (fun user_net_balances user =>
               let paid := dd_get user_paid (User_id user) in
               let owes := dd_get user_owes (User_id user) in
               let net_balance := paid - owes in
               dict_set user_net_balances (User_id user) net_balance)
            users [].

Fixpoint creditors_of (items : list (Z * float)) : list (Z * float) :=
  match items with
  | [] => []
  | (user_id, net) :: rest =>
      if 0 <? round2 net
      then (user_id, round2 net) :: creditors_of rest
      else creditors_of rest
  end.

Fixpoint debtors_of (items : list (Z * float)) : list (Z * float) :=
  match items with
  | [] => []
  | (user_id, net) :: rest =>
      if 0 <? round2 net then debtors_of rest
      else if round2 net <? 0
           then (user_id, round2 net) :: debtors_of rest
           else debtors_of rest
  end.

Record Settlement : Type := mkSettlement {
  owes : dict float;
  owed_by : dict float
}.

Definition init_settlements (users : list User) : dict Settlement :=
  fold_left (fun d user => dict_set d (User_id user) (mkSettlement [] []))
            users [].

Record loop_state : Type := mkLoop {
  debtors : list (Z * float);
  creditors : list (Z * float);
  i : nat;
  j : nat;
  settlements : dict Settlement;
  log : list (Z * Z * float)
}.

Definition loop_cond (st : loop_state) : bool :=
  (i st <? List.length (debtors st))%nat
  && (j st <? List.length (creditors st))%nat.

Definition loop_body (st : loop_state) : outcome loop_state :=
  match nth_error (debtors st) (i st), nth_error (creditors st) (j st) with
  | Some (debtor_id, debtor_amt), Some (creditor_id, creditor_amt) =>
      let settle_amt := py_min (- debtor_amt) creditor_amt in
      match dict_get (settlements st) debtor_id with
      | None => Raise KeyError
      | Some sd =>
          let s1 :=
            dict_set (settlements st) debtor_id
                     (mkSettlement (dict_set (owes sd) creditor_id settle_amt)
                                   (owed_by sd)) in
          match dict_get s1 creditor_id with
          | None => Raise KeyError
          | Some sc =>
              let s2 :=
                dict_set s1 creditor_id
                         (mkSettlement (owes sc)
                            (dict_set (owed_by sc) debtor_id settle_amt)) in
              let debtor_amt' := debtor_amt + settle_amt in
              let creditor_amt' := creditor_amt - settle_amt in
              Return
                (mkLoop
                   (list_set (debtors st) (i st) (debtor_id, debtor_amt'))
                   (list_set (creditors st) (j st) (creditor_id, creditor_amt'))
                   (if abs debtor_amt' <? 0.01 then S (i st) else i st)
                   (if abs creditor_amt' <? 0.01 then S (j st) else j st)
                   s2
                   (log st ++ [(debtor_id, creditor_id, settle_amt)]))
          end
      end
  | _, _ => Raise IndexError
  end.

(** The [while] loop, run for at most [fuel] iterations; [None] when it
    has not ended by then. *)
Fixpoint while_loop (fuel : nat) (st : loop_state)
    : option (outcome loop_state) :=
  if loop_cond st then
    match fuel with
    | O => None
    | S fuel' =>
        match loop_body st with
        | Return st' => while_loop fuel' st'
        | Raise e => Some (Raise e)
        end
    end
  else Some (Return st).

Definition loop_init (users : list User) (user_net_balances : dict float)
    : loop_state :=
  mkLoop (debtors_of user_net_balances) (creditors_of user_net_balances)
         0 0 (init_settlements users) [].

Record Balance : Type := mkBalance {
  Balance_user_id : Z;
  Balance_user_name : string;
  Balance_owes : dict float;
  Balance_owed_by : dict float;
  Balance_net_balance : float
}.

Fixpoint build_balances (users : list User) (user_net_balances : dict float)
    (settlements : dict Settlement) : outcome (list Balance) :=
  match users with
  | [] => Return []
  | user :: rest =>
      match dict_get user_net_balances (User_id user),
            dict_get settlements (User_id user) with
      | Some net_balance, Some s =>
          match build_balances rest user_net_balances settlements with
          | Return balances =>
              Return (mkBalance (User_id user) (User_name user)
                                (owes s) (owed_by s) (round2 net_balance)
                      :: balances)
          | Raise e => Raise e
          end
      | _, _ => Raise KeyError
      end
  end.

(** The net balances of the group; reading a NULL amount raises
    [TypeError]. *)
Definition net_balances (db : DB) (group_id : Z) : outcome (dict float) :=
  match user_paid_of (query_expenses db group_id) [] with
  | Raise e => Raise e
  | Return user_paid =>
      match user_owes_of (query_splits db group_id) [] with
      | Raise e => Raise e
      | Return user_owes =>
          Return (user_net_balances_of (query_group_users db group_id)
                                       user_paid user_owes)
      end
  end.

(** [calculate_group_balances] with [fuel] iterations granted to its
    loop. *)
Definition calculate_group_balances (fuel : nat) (group_id : Z) (db : DB)
    : option (outcome (list Balance)) :=
  match net_balances db group_id with
  | Raise e => Some (Raise e)
  | Return user_net_balances =>
      let users := query_group_users db group_id in
      match while_loop fuel (loop_init users user_net_balances) with
      | None => None
      | Some (Raise e) => Some (Raise e)
      | Some (Return st) =>
          Some (build_balances users user_net_balances (settlements st))
      end
  end.

(** *** Notions used in the statements *)

(** Neither an infinity nor NaN. *)
Definition finite (x : float) : bool :=
  match Prim2SF x with
  | S754_zero _ | S754_finite _ _ _ => true
  | _ => false
  end.



(** A zero, a finite number or an infinity of sign [s]: what rounding
    a mantissa of that sign gives. *)
Definition signed (s : bool) (x : spec_float) : Prop :=
  match x with
  | S754_zero s' | S754_infinity s' | S754_finite s' _ _ => s' = s
  | S754_nan => False
  end.

(** A finite amount below zero, and one that may also be minus
    infinity. *)
Definition debt (x : float) : bool :=
  match Prim2SF x with
  | S754_finite true _ _ => true
  | _ => false
  end.

Definition open_debt (x : float) : bool :=
  match Prim2SF x with
  | S754_finite true _ _ | S754_infinity true => true
  | _ => false
  end.

(** A finite amount above zero, and one that may also be infinity. *)
Definition credit (x : float) : bool :=
  match Prim2SF x with
  | S754_finite false _ _ => true
  | _ => false
  end.

Definition open_credit (x : float) : bool :=
  match Prim2SF x with
  | S754_finite false _ _ | S754_infinity false => true
  | _ => false
  end.

(** Iterations the loop needs at most from a state in which every
    iteration moves a cursor. *)
Definition loop_measure (st : loop_state) : nat :=
  if loop_cond st
  then ((List.length (debtors st) - i st)
        + (List.length (creditors st) - j st) - 1)%nat
  else 0%nat.

(** The state after [n] iterations of the loop, or the state in which
    it ended before. *)
Fixpoint iterate (n : nat) (st : loop_state) : outcome loop_state :=
  match n with
  | O => Return st
  | S n' =>
      if loop_cond st then
        match loop_body st with
        | Return st' => iterate n' st'
        | Raise e => Raise e
        end
      else Return st
  end.

(** Number of transfers recorded in the ["owes"] dictionaries. *)
Definition settlement_count (s : dict Settlement) : nat :=
  list_sum (map (fun p => List.length (owes (snd p))) s).

(** What is left of a member's balance once the transfers recorded for
    the member are applied. *)
Definition remaining (b : Balance) : float :=
  Balance_net_balance b + py_sum (values (Balance_owes b))
  - py_sum (values (Balance_owed_by b)).

Definition run_add (group_id : Z) (expense : ExpenseCreate) (db : DB) : DB :=
  fst (add_expense group_id expense db).

(** A request that one user pays and that is split by percentages. *)
Definition percentage_request (amount : float) (paid_by : Z)
    (shares : list (Z * float)) : ExpenseCreate :=
  mkExpenseCreate "expense" amount paid_by PERCENTAGE
    (map (fun p => mkExpenseSplitCreate (fst p) (Some (snd p))) shares).

(** *** Loop invariants

    [D0] and [C0] are the debtor and creditor lists, [S0] the settlements
    dictionary, with which the loop starts. *)

Section Invariants.

Variables (D0 C0 : list (Z * float)) (S0 : dict Settlement).

(** The debtor at the cursor has a recorded payment to the creditor at
    the cursor. *)
Definition recorded (st : loop_state) : Prop :=
  exists debtor_id debtor_amt creditor_id creditor_amt sd,
    nth_error (debtors st) (i st) = Some (debtor_id, debtor_amt)
    /\ nth_error (creditors st) (j st) = Some (creditor_id, creditor_amt)
    /\ dict_get (settlements st) debtor_id = Some sd
    /\ In creditor_id (keys (owes sd)).

(** Shape: the lists keep their users, the dictionary its keys, the
    cursors stay in range, and the recorded transfers are counted by the
    positions the cursors have been at. *)
Record loop_wf (st : loop_state) : Prop := {
  wf_debtor_ids : map fst (debtors st) = map fst D0;
  wf_creditor_ids : map fst (creditors st) = map fst C0;
  wf_keys : keys (settlements st) = keys S0;
  wf_i : (i st <= List.length D0)%nat;
  wf_j : (j st <= List.length C0)%nat;
  wf_count_bound :
    (settlement_count (settlements st)
     <= settlement_bound (List.length D0) (List.length C0))%nat;
  wf_count :
    (settlement_count (settlements st) <= i st + j st)%nat
    \/ ((settlement_count (settlements st) <= S (i st + j st))%nat
        /\ recorded st)
}.

(** Amounts: the entries ahead of the cursors are finite and of the
    right sign, and the two at the cursors are of the right sign and not
    both infinite. *)
Record loop_finite (st : loop_state) : Prop := {
  fin_debtors :
    forall k p, (i st < k)%nat -> nth_error (debtors st) k = Some p ->
                debt (snd p) = true;
  fin_creditors :
    forall k p, (j st < k)%nat -> nth_error (creditors st) k = Some p ->
                credit (snd p) = true;
  fin_debtor :
    forall p, nth_error (debtors st) (i st) = Some p ->
              open_debt (snd p) = true;
  fin_creditor :
    forall p, nth_error (creditors st) (j st) = Some p ->
              open_credit (snd p) = true;
  fin_one :
    forall p q, nth_error (debtors st) (i st) = Some p ->
                nth_error (creditors st) (j st) = Some q ->
                debt (snd p) = true \/ credit (snd q) = true
}.

End Invariants.

(** *** Sample databases *)

(** Group 1 with the first [n] default users as its members, in order,
    and no expense. *)
Definition db_group (n : nat) : DB :=
  mkDB default_users [mkGroup 1 "trip"]
       (flush_members [] 1 (map User_id (firstn n default_users))) [] [].

(** Five members; 1003 and 1004 each pay 0.02 for 1001 and for 1002, and
    1005 pays 0.02 of which 1001 and 1002 owe half each: the balances
    are -0.03, -0.03, 0.02, 0.02 and 0.02. *)
Definition db_cents : DB :=
  run_add 1 (percentage_request 0.02 1005 [(1001%Z, 50); (1002%Z, 50)])
    (run_add 1 (percentage_request 0.02 1004 [(1002%Z, 100)])
       (run_add 1 (percentage_request 0.02 1003 [(1001%Z, 100)])
          (db_group 5))).

(** Seven members; 1001 pays 100, split equally. *)
Definition db_sevenths : DB :=
  run_add 1 (mkExpenseCreate "dinner" 100 1001 EQUAL []) (db_group 7).

(** Two members; 1001 pays 1e308 twice, each time all of it the share of
    1002: what 1001 paid and what 1002 owes both overflow. *)
Definition db_huge : DB :=
  run_add 1 (percentage_request 1e308 1001 [(1002%Z, 100)])
    (run_add 1 (percentage_request 1e308 1001 [(1002%Z, 100)]) (db_group 2)).

(** 100 paid by 1001, the only member, all of it the share of 1002, who
    is no member. *)
Definition db_outsider : DB :=
  run_add 1 (percentage_request 100 1001 [(1002%Z, 100)]) (db_group 1).




End Double.
(** * The users of a group *)

Lemma In_first_occurrences (ids : list Z) (k : Z) :
  In k (first_occurrences ids) <-> In k ids.
Proof.
  induction ids as [|a rest IH]; simpl; [tauto|].
  rewrite filter_In, IH, negb_true_iff, Z.eqb_neq.
  destruct (Z.eq_dec a k) as [->|Hne]; [tauto|].
  split; [tauto|]. intros [H|H]; [tauto|]. right. split; [exact H|].
  congruence.
Qed.


Lemma first_occurrences_distinct (ids : list Z) :
  NoDup ids -> first_occurrences ids = ids.
Proof.
  induction 1 as [|a rest Hnot Hnd IH]; simpl; [reflexivity|].
  rewrite IH. f_equal.
  apply forallb_filter_id, forallb_forall. intros k Hk.
  apply negb_true_iff, Z.eqb_neq. congruence.
Qed.

Lemma In_user_by_id (db : DB) (k : Z) (u : User) :
  In u (user_by_id (users db) k) -> In u (users db) /\ User_id u = k.
Proof.
  unfold user_by_id.
  destruct (find _ (users db)) as [v|] eqn:Hfind; simpl; [|tauto].
  intros [<-|[]]. apply find_some in Hfind as [Hin Hid].
  apply Z.eqb_eq in Hid. now split.
Qed.

Lemma user_by_id_known (db : DB) (u : User) :
  In u (users db) ->
  exists v, user_by_id (users db) (User_id u) = [v] /\ User_id v = User_id u
            /\ In v (users db).
Proof.
  intros Hin. unfold user_by_id.
  destruct (find _ (users db)) as [v|] eqn:Hfind.
  - apply find_some in Hfind as [Hv Hid]. apply Z.eqb_eq in Hid.
    exists v. auto.
  - exfalso. apply (find_none _ _ Hfind) in Hin.
    now rewrite Z.eqb_refl in Hin.
Qed.

(** With unique primary keys the row found is the row itself. *)
Lemma user_by_id_unique (db : DB) (u : User) :
  NoDup (map User_id (users db)) -> In u (users db) ->
  user_by_id (users db) (User_id u) = [u].
Proof.
  unfold user_by_id. induction (users db) as [|v rest IH]; simpl; [tauto|].
  intros Hnd [->|Hin].
  - now rewrite Z.eqb_refl.
  - inversion Hnd as [|? ? Hnot Hnd']; subst.
    destruct (User_id v =? User_id u)%Z eqn:Heq; [|auto].
    apply Z.eqb_eq in Heq. exfalso. apply Hnot. rewrite Heq.
    now apply in_map.
Qed.

Lemma in_group_member_ids (db : DB) (group_id k : Z) :
  in_group db group_id k = true
  <-> In k (map GroupMember_user_id (query_group_members db group_id)).
Proof.
  unfold in_group, query_group_members. rewrite existsb_exists, in_map_iff.
  split.
  - intros (m & Hm & Hb). apply andb_true_iff in Hb as [Hg Hu].
    apply Z.eqb_eq in Hu. exists m. split; [exact Hu|].
    apply filter_In. now split.
  - intros (m & Hu & Hm). apply filter_In in Hm as [Hm Hg].
    exists m. split; [exact Hm|]. rewrite Hg, Hu. now rewrite Z.eqb_refl.
Qed.

(** The query returns stored users that the group's membership rows
    name. *)
Lemma In_query_group_users (db : DB) (group_id : Z) (u : User) :
  In u (query_group_users db group_id) ->
  In u (users db) /\ in_group db group_id (User_id u) = true.
Proof.
  unfold query_group_users, joined_users. rewrite in_flat_map.
  intros (k & Hk & Hu). rewrite In_first_occurrences in Hk.
  apply In_user_by_id in Hu as [Hin Hid]. split; [exact Hin|].
  apply in_group_member_ids. now rewrite Hid.
Qed.

Lemma query_group_users_ids (db : DB) (group_id k : Z) :
  In k (map User_id (query_group_users db group_id))
  <-> In k (map User_id (users db)) /\ in_group db group_id k = true.
Proof.
  split.
  - rewrite in_map_iff. intros (u & <- & Hu).
    apply In_query_group_users in Hu as [Hin Hg]. split; [|exact Hg].
    now apply in_map.
  - intros [Hin Hg]. apply in_map_iff in Hin as (u & <- & Hin).
    destruct (user_by_id_known db u Hin) as (v & Hv & Hid & _).
    rewrite <- Hid. apply in_map. unfold query_group_users, joined_users.
    apply in_flat_map. exists (User_id u). split.
    + apply In_first_occurrences. now apply in_group_member_ids.
    + rewrite Hv. now left.
Qed.

Lemma In_query_group_users_unique (db : DB) (group_id : Z) (u : User) :
  NoDup (map User_id (users db)) ->
  In u (users db) -> in_group db group_id (User_id u) = true ->
  In u (query_group_users db group_id).
Proof.
  intros Hnd Hin Hg. unfold query_group_users, joined_users. apply in_flat_map.
  exists (User_id u). split.
  - apply In_first_occurrences. now apply in_group_member_ids.
  - rewrite (user_by_id_unique db u Hnd Hin). now left.
Qed.



(** The [.first()] of the payer check is one of the users of the group. *)
Lemma query_group_user_listed (db : DB) (group_id user_id : Z) (u : User) :
  query_group_user db group_id user_id = Some u ->
  User_id u = user_id
  /\ In user_id (map User_id (query_group_users db group_id)).
Proof.
  unfold query_group_user. intros Hfind.
  apply find_some in Hfind as [Hin Hb].
  apply andb_true_iff in Hb as [Hg Hid]. apply Z.eqb_eq in Hid.
  split; [exact Hid|]. apply query_group_users_ids. rewrite <- Hid.
  split; [now apply in_map | exact Hg].
Qed.

(** The query reads the users and the membership rows only. *)
Lemma query_group_users_ext (db db' : DB) (group_id : Z) :
  users db' = users db -> group_members db' = group_members db ->
  query_group_users db' group_id = query_group_users db group_id.
Proof.
  intros Hu Hm. unfold query_group_users, joined_users, query_group_members.
  rewrite Hm. apply flat_map_ext. intros k. unfold user_by_id.
  now rewrite Hu.
Qed.

Lemma flat_user_by_id_ids (db : DB) (ids : list Z) :
  incl ids (map User_id (users db)) ->
  map User_id (flat_map (user_by_id (users db)) ids) = ids.
Proof.
  induction ids as [|k rest IH]; simpl; intros Hincl; [reflexivity|].
  rewrite map_app, IH by (intros x Hx; apply Hincl; now right).
  assert (Hk : In k (map User_id (users db))) by (apply Hincl; now left).
  apply in_map_iff in Hk as (u & <- & Hu).
  destruct (user_by_id_known db u Hu) as (v & -> & Hid & _).
  simpl. now rewrite Hid.
Qed.

Lemma filter_all_members (group_id : Z) (new : list GroupMember) :
  Forall (fun m => GroupMember_group_id m = group_id) new ->
  filter (fun m => (GroupMember_group_id m =? group_id)%Z) new = new.
Proof.
  induction 1 as [|m l Hm _ IH]; simpl; [reflexivity|].
  rewrite Hm, Z.eqb_refl. now rewrite IH.
Qed.

Lemma filter_no_members (group_id g : Z) (new : list GroupMember) :
  g <> group_id ->
  Forall (fun m => GroupMember_group_id m = group_id) new ->
  filter (fun m => (GroupMember_group_id m =? g)%Z) new = [].
Proof.
  intros Hg. induction 1 as [|m l Hm _ IH]; simpl; [reflexivity|].
  rewrite Hm. destruct (group_id =? g)%Z eqn:E; [|exact IH].
  apply Z.eqb_eq in E. congruence.
Qed.

(** * Properties of add_expense *)

Section AddExpense.

Variables (group_id : Z) (expense : ExpenseCreate) (db : DB).

Lemma members_after_insert :
  query_group_members (db_with_expense group_id expense db) group_id
  = query_group_members db group_id.
Proof. reflexivity. Qed.

(** The payer's membership row is one of the rows the equal branch
    counts. *)
Lemma payer_found_members_nonempty (u : User) :
  query_group_user db group_id (paid_by expense) = Some u ->
  (0 < List.length (query_group_members db group_id))%nat.
Proof.
  unfold query_group_user, query_group_members, in_group.
  intros Hfind.
  apply find_some in Hfind as [_ Hu].
  apply andb_true_iff in Hu as [Hex _].
  apply existsb_exists in Hex as (m & Hm & Hg).
  apply andb_true_iff in Hg as [Hg _].
  assert (Hin : In m (filter (fun m0 => (GroupMember_group_id m0 =? group_id)%Z)
                             (group_members db)))
    by (apply filter_In; split; assumption).
  destruct (filter _ (group_members db)); [contradiction | simpl; lia].
Qed.

End AddExpense.

Lemma flush_splits_appends (pending : list PendingSplit) :
  forall rows, exists new,
    flush_splits rows pending = rows ++ new
    /\ map split_fields new = map pending_fields pending.
Proof.
  induction pending as [|p rest IH]; intros rows; simpl.
  - exists []. now rewrite app_nil_r.
  - destruct (IH (rows ++ [mkExpenseSplit (next_id (map ExpenseSplit_id rows))
                             (pending_expense_id p) (pending_user_id p)
                             (pending_amount p) (pending_percentage p)]))
      as (new & Heq & Hmap).
    eexists (_ :: new). split.
    + rewrite Heq, <- app_assoc. reflexivity.
    + simpl. now rewrite Hmap.
Qed.

(** C2 (as stated) fails: with three members and amount 100 every stored
    share is 100/3, which is not [round(100/3, 2) = 33.33]. *)
Lemma equal_split_not_rounded :
  map ExpenseSplit_amount
      (expense_splits (fst (add_expense 1 equal_request db_trio)))
  = [100 # 3; 100 # 3; 100 # 3]
  /\ round2 (100 / 3) == 33.33
  /\ ~ (100 # 3 == round2 (100 / 3)).
Proof.
  split; [reflexivity|]. split; [reflexivity|].
  intros H. vm_compute in H. discriminate H.
Qed.

(** C2 (amended): a successful equal-split request appends exactly one
    share per membership row of the group, in order, each with the
    unrounded quotient [amount / member_count] and no percentage. *)
Theorem equal_split_shares (group_id : Z) (expense : ExpenseCreate)
    (db db' : DB) (e : Expense) :
  split_type expense = EQUAL ->
  add_expense group_id expense db = (db', Return e) ->
  let members := query_group_members db group_id in
  (0 < List.length members)%nat
  /\ exists new,
       expense_splits db' = expense_splits db ++ new
       /\ map split_fields new
          = map (fun m => (Expense_id e, GroupMember_user_id m,
                           amount expense
                           / inject_Z (Z.of_nat (List.length members)),
                           None))
                members.
Proof.
  intros Heq Hrun members. unfold add_expense in Hrun.
  destruct (query_group db group_id); [|discriminate].
  destruct (query_group_user db group_id (paid_by expense)) as [u|] eqn:Hu;
    [|discriminate].
  rewrite Heq in Hrun. simpl in Hrun.
  change (query_group_members (mkDB _ _ _ _ _) group_id) with members in Hrun.
  pose proof (payer_found_members_nonempty _ _ _ _ Hu) as Hpos.
  fold members in Hpos. split; [exact Hpos|].
  destruct (List.length members) as [|n] eqn:Hlen; [lia|].
  inversion Hrun; subst db' e; clear Hrun. simpl.
  destruct (flush_splits_appends
              (equal_splits (amount expense / inject_Z (Z.of_nat (S n)))
                            (next_id (map Expense_id (expenses db))) members)
              (expense_splits db)) as (new & Hnew & Hmap).
  exists new. split; [exact Hnew|].
  rewrite Hmap. unfold equal_splits. rewrite map_map. reflexivity.
Qed.

Lemma equal_split_shares_witness :
  map split_fields
      (expense_splits (fst (add_expense 1 equal_request db_trio)))
  = [(1%Z, 1001%Z, 100 / 3, None); (1%Z, 1002%Z, 100 / 3, None);
     (1%Z, 1003%Z, 100 / 3, None)].
Proof.
  destruct (equal_split_shares 1 equal_request db_trio
              (fst (add_expense 1 equal_request db_trio))
              (mkExpense 1 "dinner" 100 1 1001 EQUAL)
              eq_refl eq_refl) as (_ & new & Hsplits & Hfields).
  rewrite Hsplits. simpl app. rewrite Hfields. reflexivity.
Defined.

(** C3: on a percentage request with a missing percentage whose other
    percentages sum to 100, the sum check passes, the expense row is
    committed, and the split loop then raises [TypeError]: the request
    fails with no validation error and leaves an expense without shares. *)
Theorem missing_percentage_leaves_expense :
  add_expense 1 missing_percentage_request db_trio
  = (mkDB (users db_trio) (groups db_trio) (group_members db_trio)
          [mkExpense 1 "hotel" 100 1 1001 PERCENTAGE] [],
     Raise TypeError).
Proof. reflexivity. Qed.

(** The split loop raises [TypeError] at the first missing percentage. *)
Lemma percentage_splits_missing (amount : Q) (expense_id : Z)
    (l : list ExpenseSplitCreate) :
  existsb (fun s => match split_percentage s with None => true | _ => false end)
          l = true ->
  percentage_splits amount expense_id l = Raise TypeError.
Proof.
  induction l as [|s rest IH]; simpl; [discriminate|].
  destruct (split_percentage s); simpl; [|reflexivity].
  intros H. now rewrite (IH H).
Qed.

Lemma percentage_splits_raises_only_TypeError (amount : Q) (expense_id : Z)
    (l : list ExpenseSplitCreate) (e : exn) :
  percentage_splits amount expense_id l = Raise e -> e = TypeError.
Proof.
  induction l as [|s rest IH]; simpl; [discriminate|].
  destruct (split_percentage s); [|congruence].
  destruct (percentage_splits amount expense_id rest); [discriminate|].
  intros H. injection H as <-. now apply IH.
Qed.

(** The same on every database and request: once the three checks pass,
    a missing percentage raises [TypeError] after the expense row is
    committed, and no share is stored. *)
Lemma missing_percentage_raises (group_id : Z) (expense : ExpenseCreate)
    (db : DB) :
  query_group db group_id <> None ->
  query_group_user db group_id (paid_by expense) <> None ->
  split_type expense = PERCENTAGE ->
  Qabs (total_percentage (splits expense) - 100) <= 0.01 ->
  existsb (fun s => match split_percentage s with None => true | _ => false end)
          (splits expense) = true ->
  add_expense group_id expense db
  = (db_with_expense group_id expense db, Raise TypeError).
Proof.
  intros Hg Hu Hty Hsum Hmissing. unfold add_expense, db_with_expense.
  destruct (query_group db group_id); [|congruence].
  destruct (query_group_user db group_id (paid_by expense)); [|congruence].
  rewrite Hty.
  assert (Hb : Qltb 0.01 (Qabs (total_percentage (splits expense) - 100))
               = false).
  { unfold Qltb. apply negb_false_iff. now apply Qle_bool_iff. }
  rewrite Hb. simpl.
  now rewrite (percentage_splits_missing _ _ _ Hmissing).
Qed.

(** C10: [add_expense] never raises [ZeroDivisionError]; whenever the
    payer check finds the payer, the membership rows counted by the equal
    branch (read after the expense row is committed) are at least one. *)
Theorem equal_split_never_divides_by_zero (group_id : Z)
    (expense : ExpenseCreate) (db : DB) :
  snd (add_expense group_id expense db) <> Raise ZeroDivisionError
  /\ (forall u,
        query_group_user db group_id (paid_by expense) = Some u ->
        (0 < List.length
               (query_group_members (db_with_expense group_id expense db)
                                    group_id))%nat).
Proof.
  split.
  - unfold add_expense.
    destruct (query_group db group_id); [|simpl; discriminate].
    destruct (query_group_user db group_id (paid_by expense)) as [u|] eqn:Hu;
      [|simpl; discriminate].
    destruct (match split_type expense with
              | EQUAL => false
              | PERCENTAGE => _
              end); [simpl; discriminate|].
    pose proof (payer_found_members_nonempty _ _ _ _ Hu) as Hpos.
    simpl.
    change (query_group_members (mkDB _ _ _ _ _) group_id)
      with (query_group_members db group_id).
    destruct (split_type expense).
    + destruct (List.length (query_group_members db group_id));
        [lia | simpl; discriminate].
    + destruct (percentage_splits _ _ _) eqn:Hp; simpl; [discriminate|].
      apply percentage_splits_raises_only_TypeError in Hp. subst.
      discriminate.
  - intros u Hu. rewrite members_after_insert.
    exact (payer_found_members_nonempty _ _ _ _ Hu).
Qed.

Lemma equal_split_never_divides_by_zero_witness :
  (0 < List.length
         (query_group_members (db_with_expense 1 equal_request db_trio) 1))%nat.
Proof.
  exact (proj2 (equal_split_never_divides_by_zero 1 equal_request db_trio)
               (mkUser 1001 "You" "you@example.com") eq_refl).
Defined.

(** * Arithmetic facts *)

Lemma Qltb_true (x y : Q) : Qltb x y = true <-> x < y.
Proof.
  unfold Qltb. rewrite negb_true_iff. split; intros H.
  - destruct (Qlt_le_dec x y) as [Hlt|Hle]; [exact Hlt|].
    apply Qle_bool_iff in Hle. congruence.
  - destruct (Qle_bool y x) eqn:Hb; [|reflexivity].
    apply Qle_bool_iff in Hb. lra.
Qed.

Lemma Qltb_false (x y : Q) : Qltb x y = false <-> y <= x.
Proof.
  unfold Qltb. rewrite negb_false_iff. apply Qle_bool_iff.
Qed.

Lemma py_min_cases (a b : Q) :
  (py_min a b = a /\ a <= b) \/ (py_min a b = b /\ b < a).
Proof.
  unfold py_min. destruct (Qltb b a) eqn:Hb.
  - right. split; [reflexivity|]. now apply Qltb_true.
  - left. split; [reflexivity|]. now apply Qltb_false.
Qed.

Lemma Qsum_acc (l : list Q) :
  forall acc, fold_left Qplus l acc == acc + Qsum l.
Proof.
  unfold Qsum. induction l as [|x l IH]; intros acc; simpl.
  - lra.
  - rewrite (IH (acc + x)), (IH (0 + x)). lra.
Qed.

Lemma Qsum_nil : Qsum [] == 0.
Proof. reflexivity. Qed.

Lemma Qsum_cons (x : Q) (l : list Q) : Qsum (x :: l) == x + Qsum l.
Proof.
  unfold Qsum at 1. simpl. rewrite Qsum_acc. lra.
Qed.


Lemma cents_round2 (x : Q) : cents (round2 x).
Proof. exists (round_half_even (x * 100)). reflexivity. Qed.

Lemma cents_plus (x y : Q) : cents x -> cents y -> cents (x + y).
Proof.
  intros [a Ha] [b Hb]. exists (a + b)%Z. rewrite Ha, Hb.
  unfold Qeq, Qplus; simpl. lia.
Qed.

Lemma cents_opp (x : Q) : cents x -> cents (- x).
Proof.
  intros [a Ha]. exists (- a)%Z. rewrite Ha. unfold Qeq, Qopp; simpl. lia.
Qed.

Lemma cents_minus (x y : Q) : cents x -> cents y -> cents (x - y).
Proof. intros Hx Hy. apply cents_plus; [exact Hx | now apply cents_opp]. Qed.

Lemma cents_py_min (x y : Q) : cents x -> cents y -> cents (py_min x y).
Proof. intros Hx Hy. unfold py_min. now destruct (Qltb y x). Qed.

(** The loop's epsilon test is an exact zero test on hundredths. *)
Lemma cents_small_zero (x : Q) : cents x -> Qabs x < 0.01 -> x == 0.
Proof.
  intros [z Hz] Hsmall. rewrite Hz in *.
  apply Qabs_Qlt_condition in Hsmall as [Hlo Hhi].
  unfold Qlt in Hlo, Hhi. simpl in Hlo, Hhi.
  assert (z = 0%Z) by lia. subst z. reflexivity.
Qed.

(** * Dictionaries and lists *)

Section DictFacts.

Context {V : Type}.
Implicit Types (d : dict V) (k : Z) (v : V).

Lemma dict_get_set_eq d k v : dict_get (dict_set d k v) k = Some v.
Proof.
  induction d as [|[k' v'] d IH]; simpl.
  - now rewrite Z.eqb_refl.
  - destruct (k' =? k)%Z eqn:E; simpl.
    + now rewrite Z.eqb_refl.
    + now rewrite E.
Qed.

Lemma dict_get_set_neq d k k' v :
  k <> k' -> dict_get (dict_set d k v) k' = dict_get d k'.
Proof.
  intros Hne. induction d as [|[k0 v0] d IH]; simpl.
  - destruct (k =? k')%Z eqn:E; [apply Z.eqb_eq in E; contradiction|reflexivity].
  - destruct (k0 =? k)%Z eqn:E; simpl.
    + apply Z.eqb_eq in E. subst k0.
      destruct (k =? k')%Z eqn:E'; [apply Z.eqb_eq in E'; contradiction|].
      reflexivity.
    + now rewrite IH.
Qed.

Lemma dict_get_In d k : dict_get d k <> None <-> In k (keys d).
Proof.
  induction d as [|[k' v'] d IH]; simpl.
  - split; [congruence | contradiction].
  - destruct (k' =? k)%Z eqn:E.
    + apply Z.eqb_eq in E. split; [auto | discriminate].
    + apply Z.eqb_neq in E. rewrite IH. split; [auto | intros [?|?]; congruence].
Qed.

Lemma dict_get_Some_In d k v : dict_get d k = Some v -> In (k, v) d.
Proof.
  induction d as [|[k' v'] d IH]; simpl; [discriminate|].
  destruct (k' =? k)%Z eqn:E.
  - apply Z.eqb_eq in E. intros [= ->]. subst. now left.
  - auto.
Qed.

Lemma In_dict_get d k v : NoDup (keys d) -> In (k, v) d -> dict_get d k = Some v.
Proof.
  induction d as [|[k' v'] d IH]; simpl; [contradiction|].
  intros Hnd Hin. inversion Hnd as [|? ? Hnotin Hnd']; subst.
  destruct Hin as [[= -> ->]|Hin].
  - now rewrite Z.eqb_refl.
  - destruct (k' =? k)%Z eqn:E; [|auto].
    apply Z.eqb_eq in E. subst k'. exfalso. apply Hnotin.
    change k with (fst (k, v)). now apply in_map.
Qed.

Lemma keys_dict_set_present d k v :
  In k (keys d) -> keys (dict_set d k v) = keys d.
Proof.
  induction d as [|[k' v'] d IH]; simpl; [contradiction|].
  destruct (k' =? k)%Z eqn:E; simpl.
  - apply Z.eqb_eq in E. now subst.
  - apply Z.eqb_neq in E. intros [?|Hin]; [contradiction|]. now rewrite IH.
Qed.

Lemma keys_dict_set_absent d k v :
  ~ In k (keys d) -> keys (dict_set d k v) = keys d ++ [k].
Proof.
  induction d as [|[k' v'] d IH]; simpl; [reflexivity|].
  destruct (k' =? k)%Z eqn:E; simpl.
  - apply Z.eqb_eq in E. intros H. exfalso. auto.
  - intros H. rewrite IH; [reflexivity|]. auto.
Qed.

Lemma In_keys_dict_set d k v k' :
  In k' (keys (dict_set d k v)) <-> k' = k \/ In k' (keys d).
Proof.
  rewrite <- !dict_get_In.
  destruct (Z.eq_dec k k') as [->|Hne].
  - rewrite dict_get_set_eq. split; [auto | discriminate].
  - rewrite dict_get_set_neq by assumption.
    split; [auto | intros [?|?]; congruence].
Qed.

Lemma NoDup_keys_dict_set d k v :
  NoDup (keys d) -> NoDup (keys (dict_set d k v)).
Proof.
  intros Hnd. destruct (in_dec Z.eq_dec k (keys d)) as [Hin|Hnot].
  - now rewrite keys_dict_set_present.
  - rewrite keys_dict_set_absent by assumption.
    apply NoDup_app; [assumption | repeat constructor; auto |].
    intros x Hx [<-|[]]. contradiction.
Qed.

Lemma length_dict_set d k v :
  (List.length (dict_set d k v) <= S (List.length d))%nat.
Proof.
  induction d as [|[k' v'] d IH]; simpl; [lia|].
  destruct (k' =? k)%Z; simpl; lia.
Qed.

Lemma dict_set_not_nil d k v : dict_set d k v <> [].
Proof.
  destruct d as [|[k' v'] d]; simpl; [discriminate|].
  destruct (k' =? k)%Z; discriminate.
Qed.

End DictFacts.

(** Adding a fresh key adds its value to the sum of the values. *)
Lemma Qsum_values_dict_set_fresh (d : dict Q) (k : Z) (v : Q) :
  dict_get d k = None -> Qsum (values (dict_set d k v)) == Qsum (values d) + v.
Proof.
  induction d as [|[k' v'] d IH]; simpl.
  - intros _. rewrite Qsum_cons, Qsum_nil. lra.
  - destruct (k' =? k)%Z eqn:E; [discriminate|].
    intros Hnone. simpl. rewrite !Qsum_cons, (IH Hnone). lra.
Qed.

Section ListSet.

Context {A : Type}.
Implicit Types (l : list A) (n m : nat) (x : A).

Lemma length_list_set l n x : List.length (list_set l n x) = List.length l.
Proof.
  revert n. induction l as [|y l IH]; intros [|n]; simpl; auto.
Qed.

Lemma nth_error_list_set_eq l n x :
  (n < List.length l)%nat -> nth_error (list_set l n x) n = Some x.
Proof.
  revert n. induction l as [|y l IH]; intros [|n]; simpl; try lia; auto.
  intros H. apply IH. lia.
Qed.

Lemma nth_error_list_set_neq l n m x :
  n <> m -> nth_error (list_set l n x) m = nth_error l m.
Proof.
  revert n m. induction l as [|y l IH]; intros [|n] [|m] H; simpl; auto.
  - contradiction.
Qed.

End ListSet.

Lemma map_fst_list_set {B : Type} (l : list (Z * B)) (n : nat) (k : Z) (b b' : B) :
  nth_error l n = Some (k, b) -> map fst (list_set l n (k, b')) = map fst l.
Proof.
  revert n. induction l as [|y l IH]; intros [|n]; simpl; try discriminate.
  - intros [= ->]. reflexivity.
  - intros H. now rewrite (IH n H).
Qed.

Lemma Qsum_snd_list_set (l : list (Z * Q)) (n : nat) (k : Z) (a a' : Q) :
  nth_error l n = Some (k, a) ->
  Qsum (map snd (list_set l n (k, a'))) == Qsum (map snd l) - a + a'.
Proof.
  revert n. induction l as [|y l IH]; intros [|n]; simpl; try discriminate.
  - intros [= ->]. simpl. rewrite !Qsum_cons. lra.
  - intros H. rewrite !Qsum_cons, (IH n H). lra.
Qed.

(** * The settlement loop *)

(** What one iteration does, read off [loop_body]. *)
Lemma loop_body_inv (st st' : loop_state) :
  loop_body st = Return st' ->
  exists debtor_id debtor_amt creditor_id creditor_amt sd sc,
    let settle_amt := py_min (- debtor_amt) creditor_amt in
    let s1 := dict_set (settlements st) debtor_id
                (mkSettlement (dict_set (owes sd) creditor_id settle_amt)
                              (owed_by sd)) in
    nth_error (debtors st) (i st) = Some (debtor_id, debtor_amt)
    /\ nth_error (creditors st) (j st) = Some (creditor_id, creditor_amt)
    /\ dict_get (settlements st) debtor_id = Some sd
    /\ dict_get s1 creditor_id = Some sc
    /\ debtors st'
       = list_set (debtors st) (i st) (debtor_id, debtor_amt + settle_amt)
    /\ creditors st'
       = list_set (creditors st) (j st) (creditor_id, creditor_amt - settle_amt)
    /\ i st' = (if Qltb (Qabs (debtor_amt + settle_amt)) 0.01
                then S (i st) else i st)
    /\ j st' = (if Qltb (Qabs (creditor_amt - settle_amt)) 0.01
                then S (j st) else j st)
    /\ settlements st'
       = dict_set s1 creditor_id
           (mkSettlement (owes sc) (dict_set (owed_by sc) debtor_id settle_amt))
    /\ log st' = log st ++ [(debtor_id, creditor_id, settle_amt)].
Proof.
  unfold loop_body.
  destruct (nth_error (debtors st) (i st)) as [[debtor_id debtor_amt]|];
    [|discriminate].
  destruct (nth_error (creditors st) (j st)) as [[creditor_id creditor_amt]|];
    [|discriminate].
  destruct (dict_get (settlements st) debtor_id) as [sd|] eqn:Hsd;
    [|discriminate].
  destruct (dict_get _ creditor_id) as [sc|] eqn:Hsc; [|discriminate].
  intros [= <-].
  exists debtor_id, debtor_amt, creditor_id, creditor_amt, sd, sc.
  cbv zeta. simpl debtors. simpl creditors. simpl i. simpl j.
  simpl settlements. simpl log. repeat split; auto.
Qed.

(** An iteration raises nothing when both cursors are in range and the
    two users have an entry in [settlements]. *)
Lemma loop_body_returns (st : loop_state) :
  loop_cond st = true ->
  (forall k, In k (map fst (debtors st)) -> In k (keys (settlements st))) ->
  (forall k, In k (map fst (creditors st)) -> In k (keys (settlements st))) ->
  exists st', loop_body st = Return st'.
Proof.
  unfold loop_cond, loop_body. intros Hcond Hd Hc.
  apply andb_true_iff in Hcond as [Hi Hj].
  apply Nat.ltb_lt in Hi, Hj.
  destruct (nth_error (debtors st) (i st)) as [[debtor_id debtor_amt]|] eqn:Ed.
  2:{ apply nth_error_None in Ed. lia. }
  destruct (nth_error (creditors st) (j st)) as [[creditor_id creditor_amt]|]
    eqn:Ec.
  2:{ apply nth_error_None in Ec. lia. }
  assert (Hdk : In debtor_id (keys (settlements st))).
  { apply Hd. apply nth_error_In in Ed.
    change debtor_id with (fst (debtor_id, debtor_amt)). now apply in_map. }
  assert (Hck : In creditor_id (keys (settlements st))).
  { apply Hc. apply nth_error_In in Ec.
    change creditor_id with (fst (creditor_id, creditor_amt)). now apply in_map. }
  apply dict_get_In in Hdk.
  destruct (dict_get (settlements st) debtor_id) as [sd|]; [|congruence].
  destruct (dict_get _ creditor_id) as [sc|] eqn:Hsc; [eauto|].
  exfalso.
  assert (Hin : In creditor_id
                   (keys (dict_set (settlements st) debtor_id
                            (mkSettlement
                               (dict_set (owes sd) creditor_id
                                  (py_min (- debtor_amt) creditor_amt))
                               (owed_by sd)))))
    by (apply In_keys_dict_set; now right).
  apply dict_get_In in Hin. congruence.
Qed.

(** Whichever side is the minimum is settled exactly, so a cursor moves. *)
Lemma one_side_settled (debtor_amt creditor_amt : Q) :
  let settle_amt := py_min (- debtor_amt) creditor_amt in
  Qltb (Qabs (debtor_amt + settle_amt)) 0.01 = true
  \/ Qltb (Qabs (creditor_amt - settle_amt)) 0.01 = true.
Proof.
  cbv zeta.
  destruct (py_min_cases (- debtor_amt) creditor_amt) as [[-> _]|[-> _]].
  - left. apply Qltb_true. apply Qabs_Qlt_condition. split; lra.
  - right. apply Qltb_true. apply Qabs_Qlt_condition. split; lra.
Qed.

(** Every iteration moves at least one cursor, by one, and keeps the
    lengths of both lists. *)
Lemma loop_body_progress (st st' : loop_state) :
  loop_body st = Return st' ->
  List.length (debtors st') = List.length (debtors st)
  /\ List.length (creditors st') = List.length (creditors st)
  /\ (i st <= i st' <= S (i st))%nat
  /\ (j st <= j st' <= S (j st))%nat
  /\ (S (i st + j st) <= i st' + j st')%nat.
Proof.
  intros Hbody.
  destruct (loop_body_inv _ _ Hbody)
    as (did & damt & cid & camt & sd & sc & _ & _ & _ & _ & Hd & Hc & Hi & Hj & _).
  rewrite Hd, Hc, !length_list_set, Hi, Hj.
  pose proof (one_side_settled damt camt) as Hone. cbv zeta in Hone.
  destruct (Qltb (Qabs (damt + _)) 0.01), (Qltb (Qabs (camt - _)) 0.01);
    repeat split; try lia; destruct Hone; discriminate.
Qed.

(** The invariant rule for the loop: an invariant kept by every iteration
    that returns holds when the loop ends, and the loop ends within
    [loop_measure] iterations. *)
Lemma while_loop_invariant (P : loop_state -> Prop) :
  (forall st, P st -> loop_cond st = true ->
              exists st', loop_body st = Return st' /\ P st') ->
  forall fuel st,
    P st -> (loop_measure st <= fuel)%nat ->
    exists st', while_loop fuel st = Some (Return st')
                /\ P st' /\ loop_cond st' = false.
Proof.
  intros Hstep fuel.
  induction fuel as [|fuel IH]; intros st HP Hfuel; simpl;
    destruct (loop_cond st) eqn:Hcond; eauto.
  - exfalso. unfold loop_cond in Hcond. unfold loop_measure in Hfuel.
    apply andb_true_iff in Hcond as [Hi Hj]. apply Nat.ltb_lt in Hi, Hj. lia.
  - destruct (Hstep st HP Hcond) as (st' & Hbody & HP').
    rewrite Hbody. apply IH; [exact HP'|].
    destruct (loop_body_progress _ _ Hbody) as (Hd & Hc & Hi & Hj & Hij).
    unfold loop_cond in Hcond. unfold loop_measure in *.
    apply andb_true_iff in Hcond as [Hi' Hj']. apply Nat.ltb_lt in Hi', Hj'.
    rewrite Hd, Hc. lia.
Qed.

(** * The dictionaries built from the users *)

Lemma keys_dict_set_congr {V W : Type} (d1 : dict V) (d2 : dict W)
    (k : Z) (v : V) (w : W) :
  keys d1 = keys d2 -> keys (dict_set d1 k v) = keys (dict_set d2 k w).
Proof.
  intros Heq. destruct (in_dec Z.eq_dec k (keys d1)) as [Hin|Hnot].
  - rewrite !keys_dict_set_present; congruence.
  - rewrite !keys_dict_set_absent; congruence.
Qed.

Section PerUser.

Context {V : Type} (f : User -> V).

Lemma In_keys_per_user (us : list User) :
  forall d k, In k (keys (per_user f us d))
              <-> In k (keys d) \/ In k (map User_id us).
Proof.
  induction us as [|u us IH]; intros d k; simpl.
  - tauto.
  - rewrite IH, In_keys_dict_set. intuition congruence.
Qed.

Lemma NoDup_keys_per_user (us : list User) :
  forall d, NoDup (keys d) -> NoDup (keys (per_user f us d)).
Proof.
  induction us as [|u us IH]; intros d Hd; simpl; [exact Hd|].
  apply IH. now apply NoDup_keys_dict_set.
Qed.

(** When the stored value depends on the user id only, every entry holds
    the value of its key. *)
Lemma per_user_values (h : Z -> V) (us : list User) :
  (forall u, f u = h (User_id u)) ->
  forall d,
    (forall k v, dict_get d k = Some v -> v = h k) ->
    forall k v, dict_get (per_user f us d) k = Some v -> v = h k.
Proof.
  intros Hf. induction us as [|u us IH]; intros d Hd k v; simpl.
  - apply Hd.
  - apply IH. intros k' v'.
    destruct (Z.eq_dec (User_id u) k') as [<-|Hne].
    + rewrite dict_get_set_eq. intros [= <-]. apply Hf.
    + rewrite dict_get_set_neq by assumption. apply Hd.
Qed.

End PerUser.

Lemma keys_per_user_congr {V W : Type} (f : User -> V) (g : User -> W)
    (us : list User) :
  forall (d1 : dict V) (d2 : dict W),
    keys d1 = keys d2 -> keys (per_user f us d1) = keys (per_user g us d2).
Proof.
  induction us as [|u us IH]; intros d1 d2 Heq; simpl; [exact Heq|].
  apply IH. now apply keys_dict_set_congr.
Qed.

Section NetBalances.

Variables (us : list User) (user_paid user_owes : dict Q).

Local Abbreviation nets := (user_net_balances_of us user_paid user_owes).

Lemma keys_net_balances : keys nets = keys (init_settlements us).
Proof. apply keys_per_user_congr. reflexivity. Qed.

Lemma In_keys_net_balances (k : Z) :
  In k (keys nets) <-> In k (map User_id us).
Proof.
  unfold user_net_balances_of.
  change (fold_left _ us []) with
    (per_user (fun u => dd_get user_paid (User_id u)
                        - dd_get user_owes (User_id u)) us []).
  rewrite In_keys_per_user. simpl. tauto.
Qed.

Lemma NoDup_keys_net_balances : NoDup (keys nets).
Proof.
  unfold user_net_balances_of.
  change (fold_left _ us []) with
    (per_user (fun u => dd_get user_paid (User_id u)
                        - dd_get user_owes (User_id u)) us []).
  apply NoDup_keys_per_user. constructor.
Qed.

Lemma net_balances_value (k : Z) (v : Q) :
  dict_get nets k = Some v -> v = net_of user_paid user_owes k.
Proof.
  unfold user_net_balances_of.
  change (fold_left _ us []) with
    (per_user (fun u => dd_get user_paid (User_id u)
                        - dd_get user_owes (User_id u)) us []).
  apply per_user_values; [reflexivity | discriminate].
Qed.

End NetBalances.

(** * Creditors and debtors *)

Section Partition.

Implicit Types (items : list (Z * Q)) (k : Z) (a net : Q).

Lemma In_debtors_of items k a :
  In (k, a) (debtors_of items) <->
  exists net, In (k, net) items /\ a = round2 net /\ round2 net < 0.
Proof.
  induction items as [|[k' net'] items IH]; simpl.
  - split; [contradiction | intros (? & [] & _)].
  - destruct (Qltb 0 (round2 net')) eqn:Hpos;
      [|destruct (Qltb (round2 net') 0) eqn:Hneg]; simpl; rewrite IH.
    + apply Qltb_true in Hpos. split.
      * intros (net & Hin & Ha & Hlt). eauto 6.
      * intros (net & [[= <- <-]|Hin] & Ha & Hlt); [lra | eauto].
    + apply Qltb_true in Hneg. split.
      * intros [[= <- <-]|(net & Hin & Ha & Hlt)]; eauto 6.
      * intros (net & [[= <- <-]|Hin] & Ha & Hlt); [left; congruence | eauto 6].
    + apply Qltb_false in Hneg. split.
      * intros (net & Hin & Ha & Hlt). eauto 6.
      * intros (net & [[= <- <-]|Hin] & Ha & Hlt); [lra | eauto].
Qed.

Lemma In_creditors_of items k a :
  In (k, a) (creditors_of items) <->
  exists net, In (k, net) items /\ a = round2 net /\ 0 < round2 net.
Proof.
  induction items as [|[k' net'] items IH]; simpl.
  - split; [contradiction | intros (? & [] & _)].
  - destruct (Qltb 0 (round2 net')) eqn:Hpos; simpl; rewrite IH.
    + apply Qltb_true in Hpos. split.
      * intros [[= <- <-]|(net & Hin & Ha & Hlt)]; eauto 6.
      * intros (net & [[= <- <-]|Hin] & Ha & Hlt); [left; congruence | eauto 6].
    + apply Qltb_false in Hpos. split.
      * intros (net & Hin & Ha & Hlt). eauto 6.
      * intros (net & [[= <- <-]|Hin] & Ha & Hlt); [lra | eauto].
Qed.

Lemma debtor_ids_keys items k :
  In k (map fst (debtors_of items)) -> In k (keys items).
Proof.
  intros Hin. apply in_map_iff in Hin as ([k' a] & <- & Hin).
  apply In_debtors_of in Hin as (net & Hin & _).
  change (fst (k', a)) with (fst (k', net)). now apply in_map.
Qed.

Lemma creditor_ids_keys items k :
  In k (map fst (creditors_of items)) -> In k (keys items).
Proof.
  intros Hin. apply in_map_iff in Hin as ([k' a] & <- & Hin).
  apply In_creditors_of in Hin as (net & Hin & _).
  change (fst (k', a)) with (fst (k', net)). now apply in_map.
Qed.

(** No user id occurs twice in the two lists together: a user is a debtor
    or a creditor, not both, and once. *)
Lemma NoDup_debtor_creditor_ids items :
  NoDup (keys items) ->
  NoDup (map fst (debtors_of items) ++ map fst (creditors_of items)).
Proof.
  induction items as [|[k net] items IH]; simpl; [constructor|].
  intros Hnd. inversion Hnd as [|? ? Hnotin Hnd']; subst.
  specialize (IH Hnd').
  assert (Hfresh : ~ In k (map fst (debtors_of items)
                           ++ map fst (creditors_of items))).
  { intros Hin. apply in_app_or in Hin as [Hin|Hin];
      [apply debtor_ids_keys in Hin | apply creditor_ids_keys in Hin];
      contradiction. }
  destruct (Qltb 0 (round2 net)); [|destruct (Qltb (round2 net) 0)]; simpl.
  - apply NoDup_Add with (a := k) (l := map fst (debtors_of items)
                                          ++ map fst (creditors_of items)).
    + apply Add_app.
    + now constructor.
  - now constructor.
  - exact IH.
Qed.

Lemma Qsum_debtors_creditors items :
  Qsum (map round2 (values items))
  == Qsum (map snd (debtors_of items)) + Qsum (map snd (creditors_of items)).
Proof.
  induction items as [|[k net] items IH]; simpl.
  - reflexivity.
  - rewrite Qsum_cons, IH.
    destruct (Qltb 0 (round2 net)) eqn:Hpos;
      [|destruct (Qltb (round2 net) 0) eqn:Hneg]; simpl;
      rewrite ?Qsum_cons; try lra.
    apply Qltb_false in Hpos, Hneg. lra.
Qed.

Lemma debtors_of_cents items :
  Forall (fun p => cents (snd p) /\ snd p <= 0) (debtors_of items).
Proof.
  apply Forall_forall. intros [k a] Hin.
  apply In_debtors_of in Hin as (net & _ & -> & Hlt). simpl.
  split; [apply cents_round2 | lra].
Qed.

Lemma creditors_of_cents items :
  Forall (fun p => cents (snd p) /\ 0 <= snd p) (creditors_of items).
Proof.
  apply Forall_forall. intros [k a] Hin.
  apply In_creditors_of in Hin as (net & _ & -> & Hlt). simpl.
  split; [apply cents_round2 | lra].
Qed.

End Partition.

(** * Invariants of the settlement loop *)

Lemma settlement_count_set (s : dict Settlement) (k : Z) (old v : Settlement) :
  dict_get s k = Some old ->
  (settlement_count (dict_set s k v) + List.length (owes old)
   = settlement_count s + List.length (owes v))%nat.
Proof.
  unfold settlement_count.
  induction s as [|[k' v'] s IH]; simpl; [discriminate|].
  destruct (k' =? k)%Z; simpl.
  - intros [= ->]. lia.
  - intros H. specialize (IH H). lia.
Qed.

Lemma nth_error_fst {B : Type} (l : list (Z * B)) (n : nat) (k : Z) (b : B) :
  nth_error l n = Some (k, b) -> In k (map fst l).
Proof.
  intros H. apply nth_error_In in H.
  change k with (fst (k, b)). now apply in_map.
Qed.

Lemma ids_index_inj {B : Type} (l : list (Z * B)) (n m : nat) (k : Z)
    (b b' : B) :
  NoDup (map fst l) ->
  nth_error l n = Some (k, b) -> nth_error l m = Some (k, b') -> n = m.
Proof.
  intros Hnd Hn Hm.
  apply (proj1 (NoDup_nth_error (map fst l)) Hnd).
  - rewrite length_map. apply nth_error_Some. congruence.
  - rewrite !nth_error_map, Hn, Hm. reflexivity.
Qed.

Lemma same_ids_nth {B : Type} (l l0 : list (Z * B)) (n : nat) (k : Z) (b : B) :
  map fst l = map fst l0 ->
  nth_error l n = Some (k, b) -> exists b0, nth_error l0 n = Some (k, b0).
Proof.
  intros Hids Hn.
  assert (H : nth_error (map fst l0) n = Some k)
    by (rewrite <- Hids, nth_error_map, Hn; reflexivity).
  rewrite nth_error_map in H.
  destruct (nth_error l0 n) as [[k0 b0]|]; [|discriminate].
  injection H as ->. eauto.
Qed.

Lemma NoDup_app_disjoint (l1 l2 : list Z) (k : Z) :
  NoDup (l1 ++ l2) -> In k l1 -> In k l2 -> False.
Proof.
  induction l1 as [|x l1 IH]; simpl; [contradiction|].
  intros Hnd [->|Hin] H2; inversion Hnd as [|? ? Hnot Hnd']; subst.
  - apply Hnot, in_or_app. now right.
  - eauto.
Qed.

Lemma NoDup_app_l (l1 l2 : list Z) : NoDup (l1 ++ l2) -> NoDup l1.
Proof.
  induction l1 as [|x l1 IH]; simpl; [constructor|].
  intros Hnd. inversion Hnd as [|? ? Hnot Hnd']; subst.
  constructor; [|auto]. intros Hin. apply Hnot, in_or_app. now left.
Qed.

Lemma NoDup_app_r (l1 l2 : list Z) : NoDup (l1 ++ l2) -> NoDup l2.
Proof.
  induction l1 as [|x l1 IH]; simpl; [auto|].
  intros Hnd. inversion Hnd; subst. auto.
Qed.

Section LoopInvariants.

Variables (D0 C0 : list (Z * Q)) (S0 : dict Settlement).

Hypothesis ids_have_entry :
  forall k, In k (map fst D0 ++ map fst C0) -> In k (keys S0).

Hypothesis ids_NoDup : NoDup (map fst D0 ++ map fst C0).

Lemma cond_in_range (st : loop_state) :
  loop_wf D0 C0 S0 st -> loop_cond st = true ->
  (i st < List.length D0)%nat /\ (j st < List.length C0)%nat.
Proof.
  intros Hwf Hcond. unfold loop_cond in Hcond.
  apply andb_true_iff in Hcond as [Hi Hj]. apply Nat.ltb_lt in Hi, Hj.
  rewrite <- (length_map fst D0), <- (length_map fst C0),
    <- (wf_debtor_ids _ _ _ _ Hwf), <- (wf_creditor_ids _ _ _ _ Hwf),
    !length_map.
  split; assumption.
Qed.

Lemma loop_wf_returns (st : loop_state) :
  loop_wf D0 C0 S0 st -> loop_cond st = true ->
  exists st', loop_body st = Return st'.
Proof.
  intros Hwf Hcond. apply loop_body_returns; [exact Hcond| |];
    intros k Hk; rewrite (wf_keys _ _ _ _ Hwf); apply ids_have_entry,
      in_or_app.
  - left. now rewrite <- (wf_debtor_ids _ _ _ _ Hwf).
  - right. now rewrite <- (wf_creditor_ids _ _ _ _ Hwf).
Qed.

Lemma loop_wf_step (st st' : loop_state) :
  loop_wf D0 C0 S0 st -> loop_cond st = true ->
  loop_body st = Return st' -> loop_wf D0 C0 S0 st'.
Proof.
  intros Hwf Hcond Hbody.
  destruct (loop_body_progress _ _ Hbody) as (_ & _ & Hi & Hj & Hij).
  destruct (loop_body_inv _ _ Hbody)
    as (did & damt & cid & camt & sd & sc & Hdn & Hcn & Hsd & Hsc
        & Hd' & Hc' & _ & _ & Hs' & Hlog').
  cbv zeta in *.
  pose proof (cond_in_range _ Hwf Hcond) as Hrange.
  destruct Hrange as [Hri Hrj].
  pose proof (wf_log _ _ _ _ Hwf) as Hlog.
  constructor.
  - rewrite Hd', (map_fst_list_set _ _ _ _ _ Hdn). apply (wf_debtor_ids _ _ _ _ Hwf).
  - rewrite Hc', (map_fst_list_set _ _ _ _ _ Hcn). apply (wf_creditor_ids _ _ _ _ Hwf).
  - rewrite Hs', !keys_dict_set_present.
    + apply (wf_keys _ _ _ _ Hwf).
    + apply dict_get_In. congruence.
    + apply dict_get_In. congruence.
  - lia.
  - lia.
  - rewrite Hlog', length_app. simpl. lia.
  - rewrite Hlog', length_app. simpl. unfold settlement_bound.
    destruct (List.length D0), (List.length C0); lia.
  - rewrite Hs', Hlog', length_app. simpl.
    pose proof (settlement_count_set _ _ _
                  (mkSettlement (dict_set (owes sd) cid (py_min (- damt) camt))
                                (owed_by sd)) Hsd) as H1.
    pose proof (settlement_count_set _ _ _
                  (mkSettlement (owes sc)
                     (dict_set (owed_by sc) did (py_min (- damt) camt))) Hsc)
      as H2.
    simpl in H1, H2.
    pose proof (length_dict_set (owes sd) cid (py_min (- damt) camt)).
    pose proof (wf_count _ _ _ _ Hwf). lia.
Qed.

(** The entries of [settlements] after an iteration for debtor [did] and
    creditor [cid]. *)
Lemma settlements_after (s : dict Settlement) (did cid u : Z)
    (sd' sc' : Settlement) :
  did <> cid ->
  dict_get (dict_set (dict_set s did sd') cid sc') u
  = if (u =? cid)%Z then Some sc'
    else if (u =? did)%Z then Some sd' else dict_get s u.
Proof.
  intros Hne. destruct (u =? cid)%Z eqn:Ec.
  - apply Z.eqb_eq in Ec. subst u. apply dict_get_set_eq.
  - apply Z.eqb_neq in Ec.
    rewrite dict_get_set_neq by congruence.
    destruct (u =? did)%Z eqn:Ed.
    + apply Z.eqb_eq in Ed. subst u. apply dict_get_set_eq.
    + apply Z.eqb_neq in Ed. apply dict_get_set_neq. congruence.
Qed.

Lemma Forall_list_set {A : Type} (P : A -> Prop) (l : list A) (n : nat) (x : A) :
  Forall P l -> P x -> Forall P (list_set l n x).
Proof.
  intros Hl Hx. revert n.
  induction Hl as [|y l Hy Hl IH]; intros [|n]; simpl; auto.
Qed.

(** The facts every invariant proof needs about the iteration at hand. *)
Lemma iteration_users (st : loop_state) (did cid : Z) (damt camt : Q) :
  loop_wf D0 C0 S0 st ->
  nth_error (debtors st) (i st) = Some (did, damt) ->
  nth_error (creditors st) (j st) = Some (cid, camt) ->
  (exists d0, nth_error D0 (i st) = Some (did, d0))
  /\ (exists c0, nth_error C0 (j st) = Some (cid, c0))
  /\ In did (map fst D0) /\ In cid (map fst C0) /\ did <> cid.
Proof.
  intros Hwf Hdn Hcn.
  destruct (same_ids_nth _ _ _ _ _ (wf_debtor_ids _ _ _ _ Hwf) Hdn) as [d0 Hd0].
  destruct (same_ids_nth _ _ _ _ _ (wf_creditor_ids _ _ _ _ Hwf) Hcn)
    as [c0 Hc0].
  pose proof (nth_error_fst _ _ _ _ Hd0) as Hind.
  pose proof (nth_error_fst _ _ _ _ Hc0) as Hinc.
  repeat split; eauto.
  intros ->. exact (NoDup_app_disjoint _ _ _ ids_NoDup Hind Hinc).
Qed.

Lemma loop_roles_step (st st' : loop_state) :
  loop_wf D0 C0 S0 st -> loop_roles D0 C0 st -> loop_cond st = true ->
  loop_body st = Return st' -> loop_roles D0 C0 st'.
Proof.
  intros Hwf Hroles Hcond Hbody.
  destruct (loop_body_inv _ _ Hbody)
    as (did & damt & cid & camt & sd & sc & Hdn & Hcn & Hsd & Hsc
        & _ & _ & _ & _ & Hs' & _).
  cbv zeta in *.
  destruct (iteration_users _ _ _ _ _ Hwf Hdn Hcn)
    as (_ & _ & Hind & Hinc & Hne).
  rewrite dict_get_set_neq in Hsc by assumption.
  constructor; intros u s; rewrite Hs', (settlements_after _ _ _ _ _ _ Hne);
    destruct (u =? cid)%Z eqn:Ec; [| destruct (u =? did)%Z eqn:Ed | |
                                     destruct (u =? did)%Z eqn:Ed ];
    try apply Z.eqb_eq in Ec; try apply Z.eqb_eq in Ed; subst;
    try (intros [= <-]; simpl).
  - apply (roles_owes _ _ _ Hroles _ _ Hsc).
  - intros _. exact Hind.
  - apply (roles_owes _ _ _ Hroles).
  - intros _. exact Hinc.
  - apply (roles_owed_by _ _ _ Hroles _ _ Hsd).
  - apply (roles_owed_by _ _ _ Hroles).
Qed.

Lemma loop_ledger_step (st st' : loop_state) :
  loop_wf D0 C0 S0 st -> loop_ledger D0 C0 st -> loop_cond st = true ->
  loop_body st = Return st' -> loop_ledger D0 C0 st'.
Proof.
  intros Hwf Hled Hcond Hbody.
  destruct (loop_body_progress _ _ Hbody) as (_ & _ & Hi & Hj & Hij).
  destruct (loop_body_inv _ _ Hbody)
    as (did & damt & cid & camt & sd & sc & Hdn & Hcn & Hsd & Hsc
        & Hd' & Hc' & Hi' & Hj' & Hs' & _).
  cbv zeta in *.
  destruct (iteration_users _ _ _ _ _ Hwf Hdn Hcn)
    as ([d0 Hd0] & [c0 Hc0] & Hind & Hinc & Hne).
  rewrite dict_get_set_neq in Hsc by assumption.
  pose proof (NoDup_app_l _ _ ids_NoDup) as HndD.
  pose proof (NoDup_app_r _ _ ids_NoDup) as HndC.
  pose proof (cond_in_range _ Hwf Hcond) as [Hri Hrj].
  assert (Hlen_d : List.length (debtors st) = List.length D0)
    by (rewrite <- (length_map fst (debtors st)), (wf_debtor_ids _ _ _ _ Hwf);
        apply length_map).
  assert (Hlen_c : List.length (creditors st) = List.length C0)
    by (rewrite <- (length_map fst (creditors st)),
          (wf_creditor_ids _ _ _ _ Hwf); apply length_map).
  (* the two amounts at the cursors, and the amount settled *)
  destruct (proj1 (Forall_forall _ _) (ledger_debtors _ _ _ Hled) _
              (nth_error_In _ _ Hdn)) as [Hcd Hsd0].
  destruct (proj1 (Forall_forall _ _) (ledger_creditors _ _ _ Hled) _
              (nth_error_In _ _ Hcn)) as [Hcc Hsc0].
  simpl in Hcd, Hsd0, Hcc, Hsc0.
  set (amt := py_min (- damt) camt) in *.
  assert (Hamt_c : cents amt)
    by (apply cents_py_min; [now apply cents_opp | assumption]).
  assert (Hamt_d : amt <= - damt /\ amt <= camt).
  { unfold amt. destruct (py_min_cases (- damt) camt) as [[-> ?]|[-> ?]];
      split; lra. }
  destruct Hamt_d as [Hamt_d Hamt_cr].
  (* no transfer between these two users is recorded yet *)
  assert (Hfresh_o : dict_get (owes sd) cid = None).
  { destruct (dict_get (owes sd) cid) eqn:E; [|reflexivity].
    assert (Hin : In cid (keys (owes sd))) by (apply dict_get_In; congruence).
    pose proof (ledger_fresh_owes _ _ _ Hled _ _ _ _ _ _ _ Hd0 Hc0 Hsd Hin).
    lia. }
  assert (Hfresh_b : dict_get (owed_by sc) did = None).
  { destruct (dict_get (owed_by sc) did) eqn:E; [|reflexivity].
    assert (Hin : In did (keys (owed_by sc)))
      by (apply dict_get_In; congruence).
    pose proof (ledger_fresh_owed_by _ _ _ Hled _ _ _ _ _ _ _ Hd0 Hc0 Hsc Hin).
    lia. }
  constructor.
  - (* debtors: hundredths, not positive *)
    rewrite Hd'. apply Forall_list_set; [apply (ledger_debtors _ _ _ Hled)|].
    simpl. split; [now apply cents_plus | lra].
  - rewrite Hc'. apply Forall_list_set; [apply (ledger_creditors _ _ _ Hled)|].
    simpl. split; [now apply cents_minus | lra].
  - (* entries behind the debtor cursor are settled *)
    intros k u a Hk. rewrite Hd'.
    destruct (Nat.eq_dec (i st) k) as [<-|Hik].
    + rewrite nth_error_list_set_eq by lia. intros [= <- <-].
      rewrite Hi' in Hk.
      destruct (Qltb (Qabs (damt + amt)) 0.01) eqn:Hz; [|lia].
      apply Qltb_true in Hz.
      apply cents_small_zero; [now apply cents_plus | exact Hz].
    + rewrite nth_error_list_set_neq by assumption.
      apply (ledger_done_d _ _ _ Hled). lia.
  - intros k u a Hk. rewrite Hc'.
    destruct (Nat.eq_dec (j st) k) as [<-|Hjk].
    + rewrite nth_error_list_set_eq by lia. intros [= <- <-].
      rewrite Hj' in Hk.
      destruct (Qltb (Qabs (camt - amt)) 0.01) eqn:Hz; [|lia].
      apply Qltb_true in Hz.
      apply cents_small_zero; [now apply cents_minus | exact Hz].
    + rewrite nth_error_list_set_neq by assumption.
      apply (ledger_done_c _ _ _ Hled). lia.
  - (* the total is conserved *)
    rewrite Hd', Hc', (Qsum_snd_list_set _ _ _ _ _ Hdn),
      (Qsum_snd_list_set _ _ _ _ _ Hcn).
    pose proof (ledger_total _ _ _ Hled). lra.
  - (* debtors: outstanding = initial + recorded payments *)
    intros k u a0 a s Hk0 Hk. rewrite Hd' in Hk.
    rewrite Hs', (settlements_after _ _ _ _ _ _ Hne).
    assert (Huc : (u =? cid)%Z = false).
    { apply Z.eqb_neq. intros ->.
      exact (NoDup_app_disjoint _ _ _ ids_NoDup
               (nth_error_fst _ _ _ _ Hk0) Hinc). }
    rewrite Huc.
    destruct (Nat.eq_dec (i st) k) as [<-|Hik].
    + rewrite Hd0 in Hk0. injection Hk0 as <- <-.
      rewrite Z.eqb_refl.
      rewrite nth_error_list_set_eq in Hk by lia. injection Hk as <-.
      intros [= <-]. simpl.
      rewrite (Qsum_values_dict_set_fresh _ _ _ Hfresh_o).
      pose proof (ledger_owes _ _ _ Hled _ _ _ _ _ Hd0 Hdn Hsd). lra.
    + rewrite nth_error_list_set_neq in Hk by assumption.
      assert (Hud : (u =? did)%Z = false).
      { apply Z.eqb_neq. intros ->.
        apply Hik. exact (ids_index_inj _ _ _ _ _ _ HndD Hd0 Hk0). }
      rewrite Hud. apply (ledger_owes _ _ _ Hled _ _ _ _ _ Hk0 Hk).
  - (* creditors: outstanding = initial - recorded receipts *)
    intros k u a0 a s Hk0 Hk. rewrite Hc' in Hk.
    rewrite Hs', (settlements_after _ _ _ _ _ _ Hne).
    destruct (Nat.eq_dec (j st) k) as [<-|Hjk].
    + rewrite Hc0 in Hk0. injection Hk0 as <- <-.
      rewrite Z.eqb_refl.
      rewrite nth_error_list_set_eq in Hk by lia. injection Hk as <-.
      intros [= <-]. simpl.
      rewrite (Qsum_values_dict_set_fresh _ _ _ Hfresh_b).
      pose proof (ledger_owed_by _ _ _ Hled _ _ _ _ _ Hc0 Hcn Hsc). lra.
    + rewrite nth_error_list_set_neq in Hk by assumption.
      assert (Huc : (u =? cid)%Z = false).
      { apply Z.eqb_neq. intros ->.
        apply Hjk. exact (ids_index_inj _ _ _ _ _ _ HndC Hc0 Hk0). }
      assert (Hud : (u =? did)%Z = false).
      { apply Z.eqb_neq. intros ->.
        exact (NoDup_app_disjoint _ _ _ ids_NoDup Hind
                 (nth_error_fst _ _ _ _ Hk0)). }
      rewrite Huc, Hud. apply (ledger_owed_by _ _ _ Hled _ _ _ _ _ Hk0 Hk).
  - (* recorded payments are between users a cursor has passed *)
    intros a b d c x y s Ha Hb.
    rewrite Hs', (settlements_after _ _ _ _ _ _ Hne).
    assert (Hdc : (d =? cid)%Z = false).
    { apply Z.eqb_neq. intros ->.
      exact (NoDup_app_disjoint _ _ _ ids_NoDup
               (nth_error_fst _ _ _ _ Ha) Hinc). }
    rewrite Hdc. destruct (d =? did)%Z eqn:Ed.
    + apply Z.eqb_eq in Ed. subst d.
      assert (a = i st) by exact (ids_index_inj _ _ _ _ _ _ HndD Ha Hd0).
      subst a. intros [= <-]. simpl. rewrite In_keys_dict_set.
      intros [->|Hin].
      * assert (b = j st) by exact (ids_index_inj _ _ _ _ _ _ HndC Hb Hc0).
        subst b. lia.
      * pose proof (ledger_fresh_owes _ _ _ Hled _ _ _ _ _ _ _ Ha Hb Hsd Hin).
        lia.
    + intros Hs Hin.
      pose proof (ledger_fresh_owes _ _ _ Hled _ _ _ _ _ _ _ Ha Hb Hs Hin).
      lia.
  - intros a b d c x y s Ha Hb.
    rewrite Hs', (settlements_after _ _ _ _ _ _ Hne).
    destruct (c =? cid)%Z eqn:Ec.
    + apply Z.eqb_eq in Ec. subst c.
      assert (b = j st) by exact (ids_index_inj _ _ _ _ _ _ HndC Hb Hc0).
      subst b. intros [= <-]. simpl. rewrite In_keys_dict_set.
      intros [->|Hin].
      * assert (a = i st) by exact (ids_index_inj _ _ _ _ _ _ HndD Ha Hd0).
        subst a. lia.
      * pose proof (ledger_fresh_owed_by _ _ _ Hled _ _ _ _ _ _ _
                      Ha Hb Hsc Hin).
        lia.
    + assert (Hcd' : (c =? did)%Z = false).
      { apply Z.eqb_neq. intros ->.
        exact (NoDup_app_disjoint _ _ _ ids_NoDup Hind
                 (nth_error_fst _ _ _ _ Hb)). }
      rewrite Hcd'. intros Hs Hin.
      pose proof (ledger_fresh_owed_by _ _ _ Hled _ _ _ _ _ _ _ Ha Hb Hs Hin).
      lia.
Qed.

End LoopInvariants.

(** * Running the loop on the balances of a group *)

Lemma Qsum_snd_all_zero (l : list (Z * Q)) :
  (forall p, In p l -> snd p == 0) -> Qsum (map snd l) == 0.
Proof.
  induction l as [|p l IH]; simpl; intros H.
  - reflexivity.
  - rewrite Qsum_cons, IH, (H p) by auto. lra.
Qed.

Lemma Qsum_snd_nonneg (l : list (Z * Q)) :
  Forall (fun p => 0 <= snd p) l ->
  0 <= Qsum (map snd l)
  /\ forall p, In p l -> snd p <= Qsum (map snd l).
Proof.
  induction 1 as [|p l Hp Hl [IH0 IH]]; simpl.
  - split; [apply Qle_refl | contradiction].
  - cbv beta in Hp. split; [rewrite Qsum_cons; lra|].
    intros q [<-|Hq]; rewrite Qsum_cons; [lra|]. specialize (IH q Hq). lra.
Qed.

Lemma Qsum_snd_nonpos (l : list (Z * Q)) :
  Forall (fun p => snd p <= 0) l ->
  Qsum (map snd l) <= 0
  /\ forall p, In p l -> Qsum (map snd l) <= snd p.
Proof.
  induction 1 as [|p l Hp Hl [IH0 IH]]; simpl.
  - split; [apply Qle_refl | contradiction].
  - cbv beta in Hp. split; [rewrite Qsum_cons; lra|].
    intros q [<-|Hq]; rewrite Qsum_cons; [lra|]. specialize (IH q Hq). lra.
Qed.

(** When the loop ends, one list is settled and the other holds, all of
    one sign, the total the loop started with. *)
Lemma final_amounts_small (D0 C0 : list (Z * Q)) (S0 : dict Settlement)
    (st : loop_state) :
  loop_wf D0 C0 S0 st -> loop_ledger D0 C0 st -> loop_cond st = false ->
  Qabs (Qsum (map snd D0) + Qsum (map snd C0)) <= 0.01 ->
  forall p, In p (debtors st) \/ In p (creditors st) -> Qabs (snd p) <= 0.01.
Proof.
  intros Hwf Hled Hcond Htot p Hp.
  apply Qabs_Qle_condition in Htot as [Hlo Hhi].
  pose proof (ledger_total _ _ _ Hled) as Htotal.
  assert (Hd : Forall (fun p => snd p <= 0) (debtors st))
    by (eapply Forall_impl; [|apply (ledger_debtors _ _ _ Hled)];
        simpl; tauto).
  assert (Hc : Forall (fun p => 0 <= snd p) (creditors st))
    by (eapply Forall_impl; [|apply (ledger_creditors _ _ _ Hled)];
        simpl; tauto).
  destruct (Qsum_snd_nonpos _ Hd) as [Hd0 Hdp].
  destruct (Qsum_snd_nonneg _ Hc) as [Hc0 Hcp].
  apply Qabs_Qle_condition.
  unfold loop_cond in Hcond. apply andb_false_iff in Hcond as [Hi|Hj].
  - apply Nat.ltb_ge in Hi.
    assert (Hz : Qsum (map snd (debtors st)) == 0).
    { apply Qsum_snd_all_zero. intros [u a] Hin.
      apply In_nth_error in Hin as [k Hk]. simpl.
      apply (ledger_done_d _ _ _ Hled k u a); [|exact Hk].
      assert (k < List.length (debtors st))%nat
        by (apply nth_error_Some; congruence).
      lia. }
    destruct Hp as [Hp|Hp].
    + specialize (Hdp p Hp).
      pose proof (proj1 (Forall_forall _ _) Hd p Hp) as Hs. simpl in Hs.
      split; lra.
    + specialize (Hcp p Hp).
      pose proof (proj1 (Forall_forall _ _) Hc p Hp) as Hs. simpl in Hs.
      split; lra.
  - apply Nat.ltb_ge in Hj.
    assert (Hz : Qsum (map snd (creditors st)) == 0).
    { apply Qsum_snd_all_zero. intros [u a] Hin.
      apply In_nth_error in Hin as [k Hk]. simpl.
      apply (ledger_done_c _ _ _ Hled k u a); [|exact Hk].
      assert (k < List.length (creditors st))%nat
        by (apply nth_error_Some; congruence).
      lia. }
    destruct Hp as [Hp|Hp].
    + specialize (Hdp p Hp).
      pose proof (proj1 (Forall_forall _ _) Hd p Hp) as Hs. simpl in Hs.
      split; lra.
    + specialize (Hcp p Hp).
      pose proof (proj1 (Forall_forall _ _) Hc p Hp) as Hs. simpl in Hs.
      split; lra.
Qed.

Lemma init_settlements_entry (us : list User) (k : Z) (s : Settlement) :
  dict_get (init_settlements us) k = Some s -> s = mkSettlement [] [].
Proof.
  unfold init_settlements.
  change (fold_left _ us []) with
    (per_user (fun _ : User => mkSettlement [] []) us []).
  apply (per_user_values _ (fun _ => mkSettlement [] []));
    [reflexivity | discriminate].
Qed.

Lemma NoDup_keys_init_settlements (us : list User) :
  NoDup (keys (init_settlements us)).
Proof.
  unfold init_settlements.
  change (fold_left _ us []) with
    (per_user (fun _ : User => mkSettlement [] []) us []).
  apply NoDup_keys_per_user. constructor.
Qed.

Lemma settlement_count_empty (d : dict Settlement) :
  (forall k s, In (k, s) d -> owes s = []) -> settlement_count d = 0%nat.
Proof.
  unfold settlement_count. induction d as [|[k s] d IH]; simpl; intros H.
  - reflexivity.
  - rewrite (H k s) by auto. simpl. apply IH. eauto.
Qed.

Section Run.

Variables (us : list User) (user_paid user_owes : dict Q).

Local Abbreviation nets := (user_net_balances_of us user_paid user_owes).
Local Abbreviation D0 := (debtors_of nets).
Local Abbreviation C0 := (creditors_of nets).
Local Abbreviation S0 := (init_settlements us).

Lemma run_ids_have_entry :
  forall k, In k (map fst D0 ++ map fst C0) -> In k (keys S0).
Proof.
  intros k Hin. rewrite <- (keys_net_balances us user_paid user_owes).
  apply in_app_or in Hin as [Hin|Hin];
    [now apply debtor_ids_keys | now apply creditor_ids_keys].
Qed.

Lemma run_ids_NoDup : NoDup (map fst D0 ++ map fst C0).
Proof. apply NoDup_debtor_creditor_ids, NoDup_keys_net_balances. Qed.

Lemma loop_init_wf : loop_wf D0 C0 S0 (loop_init us nets).
Proof.
  constructor; simpl; try reflexivity; try lia.
  rewrite settlement_count_empty; [lia|].
  intros k s Hin.
  apply In_dict_get in Hin; [|apply NoDup_keys_init_settlements].
  now rewrite (init_settlements_entry _ _ _ Hin).
Qed.

Lemma loop_init_roles : loop_roles D0 C0 (loop_init us nets).
Proof.
  constructor; simpl; intros u s Hs;
    rewrite (init_settlements_entry _ _ _ Hs); simpl; congruence.
Qed.

Lemma loop_init_ledger : loop_ledger D0 C0 (loop_init us nets).
Proof.
  constructor; simpl.
  - apply debtors_of_cents.
  - apply creditors_of_cents.
  - intros; lia.
  - intros; lia.
  - reflexivity.
  - intros k u a0 a s H0 H Hs. rewrite H0 in H. injection H as <-.
    rewrite (init_settlements_entry _ _ _ Hs). simpl. rewrite Qsum_nil. lra.
  - intros k u a0 a s H0 H Hs. rewrite H0 in H. injection H as <-.
    rewrite (init_settlements_entry _ _ _ Hs). simpl. rewrite Qsum_nil. lra.
  - intros a b d c x y s _ _ Hs.
    rewrite (init_settlements_entry _ _ _ Hs). simpl. contradiction.
  - intros a b d c x y s _ _ Hs.
    rewrite (init_settlements_entry _ _ _ Hs). simpl. contradiction.
Qed.

(** The loop returns, within the fuel it is given, a state in which all
    three invariants hold and the loop condition is false. *)
Lemma run_loop :
  exists st,
    while_loop (loop_fuel (loop_init us nets)) (loop_init us nets)
    = Some (Return st)
    /\ loop_wf D0 C0 S0 st /\ loop_roles D0 C0 st /\ loop_ledger D0 C0 st
    /\ loop_cond st = false.
Proof.
  destruct (while_loop_invariant
              (fun st => loop_wf D0 C0 S0 st /\ loop_roles D0 C0 st
                         /\ loop_ledger D0 C0 st))
    with (fuel := loop_fuel (loop_init us nets)) (st := loop_init us nets)
    as (st & Hrun & (Hwf & Hroles & Hled) & Hcond).
  - intros st (Hwf & Hroles & Hled) Hcond.
    destruct (loop_wf_returns _ _ _ run_ids_have_entry _ Hwf Hcond)
      as [st' Hbody].
    exists st'. split; [exact Hbody|]. split; [|split].
    + exact (loop_wf_step _ _ _ _ _ Hwf Hcond Hbody).
    + exact (loop_roles_step _ _ _ run_ids_NoDup _ _ Hwf Hroles Hcond Hbody).
    + exact (loop_ledger_step _ _ _ run_ids_NoDup _ _ Hwf Hled Hcond Hbody).
  - split; [apply loop_init_wf|].
    split; [apply loop_init_roles | apply loop_init_ledger].
  - unfold loop_measure, loop_fuel. simpl. lia.
  - exists st. auto.
Qed.

End Run.

(** * The balance report *)

Lemma build_balances_returns (us : list User) (nets : dict Q)
    (s : dict Settlement) :
  (forall k, In k (map User_id us) -> In k (keys nets) /\ In k (keys s)) ->
  exists balances,
    build_balances us nets s = Return balances
    /\ map Balance_user_id balances = map User_id us
    /\ Forall (fun b =>
                 exists net e,
                   dict_get nets (Balance_user_id b) = Some net
                   /\ dict_get s (Balance_user_id b) = Some e
                   /\ Balance_owes b = owes e
                   /\ Balance_owed_by b = owed_by e
                   /\ Balance_net_balance b = round2 net)
              balances.
Proof.
  induction us as [|u us IH]; simpl; intros Hkeys.
  - exists []. repeat split; constructor.
  - destruct (Hkeys (User_id u)) as [Hn Hs]; [now left|].
    apply dict_get_In in Hn, Hs.
    destruct (dict_get nets (User_id u)) as [net|] eqn:En; [|congruence].
    destruct (dict_get s (User_id u)) as [e|] eqn:Es; [|congruence].
    destruct IH as (balances & -> & Hids & Hall); [auto|].
    eexists. split; [reflexivity|]. split; [simpl; now rewrite Hids|].
    constructor; [|exact Hall]. simpl. exists net, e. auto.
Qed.

Section Report.

Variables (group_id : Z) (db : DB).

Local Abbreviation us := (query_group_users db group_id).
Local Abbreviation user_paid := (user_paid_of (query_expenses db group_id)).
Local Abbreviation user_owes := (user_owes_of (query_splits db group_id)).
Local Abbreviation nets := (net_balances db group_id).
Local Abbreviation D0 := (debtors_of nets).
Local Abbreviation C0 := (creditors_of nets).
Local Abbreviation S0 := (init_settlements us).

Lemma report_ids_NoDup : NoDup (map fst D0 ++ map fst C0).
Proof. apply run_ids_NoDup. Qed.

Lemma report_keys_NoDup : NoDup (keys nets).
Proof. apply NoDup_keys_net_balances. Qed.

(** [calculate_group_balances] always returns a report: the loop ends
    within its fuel, no lookup fails, and the final state satisfies the
    loop invariants. *)
Lemma report_returned :
  exists st balances,
    settle db group_id = Some (Return st)
    /\ calculate_group_balances group_id db = Some (Return balances)
    /\ loop_wf D0 C0 S0 st /\ loop_roles D0 C0 st /\ loop_ledger D0 C0 st
    /\ loop_cond st = false
    /\ map Balance_user_id balances = map User_id us
    /\ Forall (fun b =>
                 exists net e,
                   dict_get nets (Balance_user_id b) = Some net
                   /\ dict_get (settlements st) (Balance_user_id b) = Some e
                   /\ Balance_owes b = owes e
                   /\ Balance_owed_by b = owed_by e
                   /\ Balance_net_balance b = round2 net)
              balances.
Proof.
  destruct (run_loop us user_paid user_owes)
    as (st & Hrun & Hwf & Hroles & Hled & Hcond).
  destruct (build_balances_returns us nets (settlements st))
    as (balances & Hbuild & Hids & Hall).
  { intros k Hk. rewrite (wf_keys _ _ _ _ Hwf).
    rewrite <- (keys_net_balances us user_paid user_owes).
    split; now apply In_keys_net_balances. }
  exists st, balances.
  unfold calculate_group_balances, settle. fold nets.
  unfold net_balances in *. rewrite Hrun, Hbuild.
  split; [reflexivity|]. split; [reflexivity|]. auto 10.
Qed.

End Report.

(** C7: in every report no entry has both a recorded payment and a
    recorded receipt. *)
Theorem roles_exclusive (group_id : Z) (db : DB) :
  exists balances,
    calculate_group_balances group_id db = Some (Return balances)
    /\ Forall (fun b => Balance_owes b = [] \/ Balance_owed_by b = [])
              balances.
Proof.
  destruct (report_returned group_id db)
    as (st & balances & _ & Hcalc & Hwf & Hroles & _ & _ & _ & Hall).
  exists balances. split; [exact Hcalc|].
  eapply Forall_impl; [|exact Hall]. clear Hall.
  intros b (net & e & _ & He & -> & -> & _).
  destruct (owes e) as [|o os] eqn:Eo; [now left|].
  destruct (owed_by e) as [|r rs] eqn:Er; [now right|].
  exfalso.
  apply (NoDup_app_disjoint _ _ (Balance_user_id b)
           (report_ids_NoDup group_id db)).
  - apply (roles_owes _ _ _ Hroles _ _ He). congruence.
  - apply (roles_owed_by _ _ _ Hroles _ _ He). congruence.
Qed.


(** * The sum of the net balances *)

Lemma Qsum_map_plus {A : Type} (f g : A -> Q) (l : list A) :
  Qsum (map (fun x => f x + g x) l) == Qsum (map f l) + Qsum (map g l).
Proof.
  induction l as [|x l IH]; simpl.
  - rewrite !Qsum_nil. lra.
  - rewrite !Qsum_cons, IH. lra.
Qed.

Lemma Qsum_map_minus {A : Type} (f g : A -> Q) (l : list A) :
  Qsum (map (fun x => f x - g x) l) == Qsum (map f l) - Qsum (map g l).
Proof.
  induction l as [|x l IH]; simpl.
  - rewrite !Qsum_nil. lra.
  - rewrite !Qsum_cons, IH. lra.
Qed.

Lemma Qsum_map_ext {A : Type} (f g : A -> Q) (l : list A) :
  (forall x, In x l -> f x == g x) -> Qsum (map f l) == Qsum (map g l).
Proof.
  induction l as [|x l IH]; simpl; intros H.
  - reflexivity.
  - rewrite !Qsum_cons, IH, (H x) by auto. reflexivity.
Qed.


(** The values of a dictionary whose entries are a function of the key. *)
Lemma values_by_key {V : Type} (h : Z -> V) (d : dict V) :
  NoDup (keys d) ->
  (forall k v, dict_get d k = Some v -> v = h k) ->
  values d = map h (keys d).
Proof.
  induction d as [|[k v] d IH]; simpl; intros Hnd Hval; [reflexivity|].
  inversion Hnd as [|? ? Hnot Hnd']; subst. f_equal.
  - apply Hval. now rewrite Z.eqb_refl.
  - apply IH; [exact Hnd'|]. intros k' v' Hget. apply Hval.
    destruct (k =? k')%Z eqn:E; [|exact Hget].
    apply Z.eqb_eq in E. subst k'. exfalso. apply Hnot.
    apply dict_get_In. congruence.
Qed.

Lemma dd_get_dd_add (d : dict Q) (k k' : Z) (v : Q) :
  dd_get (dd_add d k v) k'
  = if (k =? k')%Z then dd_get d k + v else dd_get d k'.
Proof.
  unfold dd_add, dd_get at 1. destruct (k =? k')%Z eqn:E.
  - apply Z.eqb_eq in E. subst k'. now rewrite dict_get_set_eq.
  - apply Z.eqb_neq in E. now rewrite dict_get_set_neq.
Qed.

Lemma total_on_dd_add_other (K : list Z) (d : dict Q) (k : Z) (v : Q) :
  ~ In k K -> total_on K (dd_add d k v) = total_on K d.
Proof.
  intros Hnot. unfold total_on. f_equal. apply map_ext_in.
  intros k' Hk'. rewrite dd_get_dd_add.
  destruct (k =? k')%Z eqn:E; [|reflexivity].
  apply Z.eqb_eq in E. subst k'. contradiction.
Qed.

Lemma total_on_dd_add (K : list Z) (d : dict Q) (k : Z) (v : Q) :
  NoDup K -> In k K -> total_on K (dd_add d k v) == total_on K d + v.
Proof.
  induction K as [|x K IH]; simpl; [contradiction|].
  intros Hnd Hin. inversion Hnd as [|? ? Hnot Hnd']; subst.
  unfold total_on in *. simpl. rewrite !Qsum_cons, dd_get_dd_add.
  destruct (k =? x)%Z eqn:E.
  - apply Z.eqb_eq in E. subst x.
    fold (total_on K (dd_add d k v)).
    rewrite (total_on_dd_add_other K d k v Hnot). unfold total_on. lra.
  - apply Z.eqb_neq in E. destruct Hin as [->|Hin]; [contradiction|].
    rewrite (IH Hnd' Hin). lra.
Qed.

(** Summing a filled [defaultdict] over keys that cover what was added
    gives the sum of what was added. *)
Lemma total_on_fold {A : Type} (key : A -> Z) (val : A -> Q) (K : list Z)
    (l : list A) :
  NoDup K -> Forall (fun x => In (key x) K) l ->
  forall d,
    total_on K (fold_left (fun d x => dd_add d (key x) (val x)) l d)
    == total_on K d + Qsum (map val l).
Proof.
  intros Hnd Hall. induction Hall as [|x l Hx Hl IH]; intros d; simpl.
  - rewrite Qsum_nil. lra.
  - rewrite IH, (total_on_dd_add K d _ _ Hnd Hx), Qsum_cons. lra.
Qed.

Lemma total_on_empty (K : list Z) : total_on K [] == 0.
Proof.
  unfold total_on. induction K as [|k K IH]; simpl.
  - reflexivity.
  - rewrite Qsum_cons, IH. unfold dd_get. simpl. lra.
Qed.

(** Regrouping the splits of a group by expense. *)
Lemma query_expenses_ids_NoDup (db : DB) (group_id : Z) :
  NoDup (map Expense_id (expenses db)) ->
  NoDup (map Expense_id (query_expenses db group_id)).
Proof.
  unfold query_expenses.
  induction (expenses db) as [|e rows IH]; simpl; intros Hnd; [constructor|].
  inversion Hnd as [|? ? Hnot Hnd']; subst.
  destruct (Expense_group_id e =? group_id)%Z; simpl; [|auto].
  constructor; [|auto].
  intros Hin. apply Hnot. apply in_map_iff in Hin as (e' & He' & Hin).
  apply filter_In in Hin as [Hin _]. rewrite <- He'. now apply in_map.
Qed.

Lemma Qsum_one_match (E : list Expense) (x : Z) (v : Q) :
  NoDup (map Expense_id E) ->
  Qsum (map (fun e => if (x =? Expense_id e)%Z then v else 0) E)
  == if existsb (fun e => (Expense_id e =? x)%Z) E then v else 0.
Proof.
  induction E as [|e E IH]; simpl; intros Hnd.
  - reflexivity.
  - inversion Hnd as [|? ? Hnot Hnd']; subst.
    rewrite Qsum_cons, (IH Hnd'). rewrite (Z.eqb_sym (Expense_id e) x).
    destruct (x =? Expense_id e)%Z eqn:Ex; simpl; [|lra].
    apply Z.eqb_eq in Ex. subst x.
    destruct (existsb _ E) eqn:Eex; [|lra].
    exfalso. apply Hnot. apply existsb_exists in Eex as (e' & Hin & He').
    apply Z.eqb_eq in He'. rewrite <- He'. now apply in_map.
Qed.

Lemma Qsum_regroup (E : list Expense) (l : list ExpenseSplit) :
  NoDup (map Expense_id E) ->
  Qsum (map ExpenseSplit_amount
          (filter (fun s => existsb (fun e => (Expense_id e
                                               =? ExpenseSplit_expense_id s)%Z)
                                    E) l))
  == Qsum (map (fun e =>
                  Qsum (map ExpenseSplit_amount
                          (filter (fun s => (ExpenseSplit_expense_id s
                                             =? Expense_id e)%Z) l)))
               E).
Proof.
  intros Hnd. induction l as [|s l IH]; simpl.
  - rewrite Qsum_nil.
    assert (H : forall E' : list Expense,
               Qsum (map (fun _ : Expense => Qsum []) E') == 0).
    { induction E' as [|e E' IHE]; simpl; [reflexivity|].
      rewrite Qsum_cons, IHE, Qsum_nil. lra. }
    now rewrite H.
  - rewrite (Qsum_map_ext _
               (fun e => (if (ExpenseSplit_expense_id s =? Expense_id e)%Z
                          then ExpenseSplit_amount s else 0)
                         + Qsum (map ExpenseSplit_amount
                                   (filter (fun s0 =>
                                              (ExpenseSplit_expense_id s0
                                               =? Expense_id e)%Z) l)))).
    + rewrite Qsum_map_plus, <- IH, (Qsum_one_match _ _ _ Hnd).
      destruct (existsb _ E); simpl; rewrite ?Qsum_cons; lra.
    + intros e _.
      destruct (ExpenseSplit_expense_id s =? Expense_id e)%Z; simpl;
        rewrite ?Qsum_cons; lra.
Qed.

Lemma expense_in_group_alt (db : DB) (group_id x : Z) :
  expense_in_group db group_id x
  = existsb (fun e => (Expense_id e =? x)%Z) (query_expenses db group_id).
Proof.
  unfold expense_in_group, query_expenses.
  induction (expenses db) as [|e E IH]; simpl; [reflexivity|].
  rewrite IH. destruct (Expense_group_id e =? group_id)%Z; simpl.
  - now rewrite andb_true_r.
  - now rewrite andb_false_r.
Qed.
(** * The sum of the net balances *)




Section NetSum.

Variables (group_id : Z) (db : DB).

Local Abbreviation us := (query_group_users db group_id).
Local Abbreviation E := (query_expenses db group_id).
Local Abbreviation user_paid := (user_paid_of (query_expenses db group_id)).
Local Abbreviation user_owes := (user_owes_of (query_splits db group_id)).
Local Abbreviation nets := (net_balances db group_id).

(** The net balances sum to what the members paid minus what they owe. *)
Lemma net_balances_sum :
  Qsum (values nets)
  == total_on (keys nets) user_paid - total_on (keys nets) user_owes.
Proof.
  rewrite (values_by_key (net_of user_paid user_owes) nets).
  - unfold net_of, total_on. apply Qsum_map_minus.
  - apply report_keys_NoDup.
  - apply net_balances_value.
Qed.

Lemma splits_regrouped :
  NoDup (map Expense_id (expenses db)) ->
  Qsum (map ExpenseSplit_amount (query_splits db group_id))
  == Qsum (map (fun e => Qsum (map ExpenseSplit_amount (shares_of db e))) E).
Proof.
  intros Hnd. unfold query_splits, shares_of.
  rewrite (filter_ext _ _ (fun s => expense_in_group_alt db group_id
                                      (ExpenseSplit_expense_id s))).
  apply Qsum_regroup. now apply query_expenses_ids_NoDup.
Qed.




End NetSum.

(** * The properties on the sample databases *)

Lemma db_example_ids : NoDup (map Expense_id (expenses db_example)).
Proof.
  vm_compute. repeat constructor; simpl; intuition discriminate.
Qed.

Lemma db_example_members_only : members_only db_example 1.
Proof.
  split; apply Forall_forall; intros x Hx; vm_compute in Hx;
    repeat (destruct Hx as [<-|Hx]; [vm_compute; auto 10|]);
    contradiction.
Qed.

Lemma db_example_shares_match : shares_match db_example 1.
Proof.
  apply Forall_forall; intros x Hx; vm_compute in Hx;
    repeat (destruct Hx as [<-|Hx]; [vm_compute; discriminate|]);
    contradiction.
Qed.





Section RoundedSum.

Import PrimFloat.


End RoundedSum.

(** A share held by a user outside the group breaks the zero sum as
    well: the only member's net balance is the whole amount. *)
Lemma zero_sum_fails_with_outsider :
  shares_match db_outsider 1
  /\ net_balances db_outsider 1 = [(1001%Z, 100 - 0)].
Proof.
  split; [|reflexivity].
  apply Forall_forall; intros x Hx; vm_compute in Hx;
    repeat (destruct Hx as [<-|Hx]; [vm_compute; discriminate|]);
    contradiction.
Qed.

(** The example of the specification: 1003 pays 40 and 1002 pays 10 to
    1001; two transfers for two debtors and one creditor. *)
Example settle_example :
  exists st,
    settle db_example 1 = Some (Return st)
    /\ map fst (debtors_of (net_balances db_example 1)) = [1002%Z; 1003%Z]
    /\ map fst (creditors_of (net_balances db_example 1)) = [1001%Z]
    /\ map fst (log st) = [(1002%Z, 1001%Z); (1003%Z, 1001%Z)]
    /\ Forall2 Qeq (map snd (log st)) [10; 40].
Proof.
  eexists. split; [vm_compute; reflexivity|].
  repeat split; try reflexivity.
  repeat constructor.
Qed.


(** * Further properties of add_expense *)

Lemma next_id_above (ids : list Z) (x : Z) :
  In x ids -> (x < next_id ids)%Z.
Proof.
  unfold next_id. induction ids as [|y ids IH]; cbn [In fold_right];
    [contradiction|].
  intros [->|Hin]; [lia|]. specialize (IH Hin). lia.
Qed.

Lemma next_id_fresh (ids : list Z) : ~ In (next_id ids) ids.
Proof. intros Hin. apply next_id_above in Hin. lia. Qed.

Lemma flush_splits_ids (pending : list PendingSplit) :
  forall rows,
    NoDup (map ExpenseSplit_id rows) ->
    NoDup (map ExpenseSplit_id (flush_splits rows pending)).
Proof.
  induction pending as [|p rest IH]; intros rows Hnd; simpl; [exact Hnd|].
  apply IH. rewrite map_app. simpl.
  apply NoDup_app; [exact Hnd | repeat constructor; auto |].
  intros x Hx [<-|[]]. exact (next_id_fresh _ Hx).
Qed.

Lemma percentage_splits_expense_id (amount : Q) (expense_id : Z)
    (l : list ExpenseSplitCreate) (added : list PendingSplit) :
  percentage_splits amount expense_id l = Return added ->
  Forall (fun p => pending_expense_id p = expense_id) added.
Proof.
  revert added. induction l as [|s rest IH]; simpl; intros added.
  - intros [= <-]. constructor.
  - destruct (split_percentage s); [|discriminate].
    destruct (percentage_splits amount expense_id rest); [|discriminate].
    intros [= <-]. constructor; [reflexivity | now apply IH].
Qed.

Lemma flush_splits_expense_id (expense_id : Z) (pending : list PendingSplit)
    (rows new : list ExpenseSplit) :
  Forall (fun p => pending_expense_id p = expense_id) pending ->
  map split_fields new = map pending_fields pending ->
  Forall (fun s => ExpenseSplit_expense_id s = expense_id) new.
Proof.
  intros Hall. revert new.
  induction Hall as [|p rest Hp Hrest IH]; intros [|s new]; simpl;
    try discriminate; intros Hmap; constructor.
  - injection Hmap as Hs _. unfold split_fields, pending_fields in Hs.
    congruence.
  - apply IH. now injection Hmap.
Qed.

(** What a call does to the database, whatever its outcome: nothing, or
    the new expense row alone, or the row and shares that refer to it. *)
Lemma add_expense_shape (group_id : Z) (expense : ExpenseCreate) (db : DB) :
  let new_id := next_id (map Expense_id (expenses db)) in
  let row := mkExpense new_id (description expense) (amount expense)
                       group_id (paid_by expense) (split_type expense) in
  exists es ss,
    fst (add_expense group_id expense db)
    = mkDB (users db) (groups db) (group_members db)
           (expenses db ++ es) (expense_splits db ++ ss)
    /\ (es = [] /\ ss = [] \/ es = [row])
    /\ Forall (fun s => ExpenseSplit_expense_id s = new_id) ss
    /\ (es = [row] ->
        query_group_user db group_id (paid_by expense) <> None).
Proof.
  intros new_id row. unfold add_expense.
  assert (Hsame : exists es ss,
             db = mkDB (users db) (groups db) (group_members db)
                       (expenses db ++ es) (expense_splits db ++ ss)
             /\ (es = [] /\ ss = [] \/ es = [row])
             /\ Forall (fun s => ExpenseSplit_expense_id s = new_id) ss
             /\ (es = [row] ->
                 query_group_user db group_id (paid_by expense) <> None)).
  { exists [], []. rewrite !app_nil_r. destruct db; simpl.
    repeat split; auto. discriminate. }
  destruct (query_group db group_id); [|exact Hsame].
  destruct (query_group_user db group_id (paid_by expense)) eqn:Hu;
    [|exact Hsame].
  destruct (match split_type expense with
            | EQUAL => false
            | PERCENTAGE => _
            end); [exact Hsame|].
  clear Hsame. simpl.
  destruct (split_type expense) eqn:Hty.
  - destruct (List.length (query_group_members _ group_id)) eqn:Hlen; simpl.
    + exists [row], []. rewrite app_nil_r. unfold row. rewrite ?Hty.
      repeat split; auto; congruence.
    + unfold commit_splits; simpl.
      match goal with
      | |- context [flush_splits ?rows ?pending] =>
          destruct (flush_splits_appends pending rows) as (new & Hnew & Hmap)
      end.
      exists [row], new. rewrite Hnew. unfold row. rewrite ?Hty.
      repeat split; auto; [|congruence].
      refine (flush_splits_expense_id _ _ (expense_splits db) _ _ Hmap).
      unfold equal_splits. apply Forall_forall. intros p Hp.
      apply in_map_iff in Hp as (m & <- & _). reflexivity.
  - destruct (percentage_splits _ _ _) as [added|e] eqn:Hp; simpl.
    + unfold commit_splits; simpl.
      match goal with
      | |- context [flush_splits ?rows ?pending] =>
          destruct (flush_splits_appends pending rows) as (new & Hnew & Hmap)
      end.
      exists [row], new. rewrite Hnew. unfold row. rewrite ?Hty.
      repeat split; auto; [|congruence].
      refine (flush_splits_expense_id _ _ (expense_splits db) _ _ Hmap).
      exact (percentage_splits_expense_id _ _ _ _ Hp).
    + exists [row], []. rewrite app_nil_r. unfold row. rewrite ?Hty.
      repeat split; auto; congruence.
Qed.

(** X1: a request that fails never stores a share.  It fails either with
    an [HTTPException], leaving the database as it was, or, for a
    percentage request only, with [TypeError] after the expense row alone
    is committed. *)
Theorem failed_request_stores_no_share (group_id : Z)
    (expense : ExpenseCreate) (db : DB) (x : exn) :
  snd (add_expense group_id expense db) = Raise x ->
  expense_splits (fst (add_expense group_id expense db)) = expense_splits db
  /\ ((exists status_code detail,
         x = HTTPException status_code detail
         /\ fst (add_expense group_id expense db) = db)
      \/ (x = TypeError /\ split_type expense = PERCENTAGE
          /\ fst (add_expense group_id expense db)
             = db_with_expense group_id expense db)).
Proof.
  unfold add_expense, db_with_expense.
  destruct (query_group db group_id);
    [|simpl; intros [= <-]; split; [reflexivity | left; eauto]].
  destruct (query_group_user db group_id (paid_by expense)) as [u|] eqn:Hu;
    [|simpl; intros [= <-]; split; [reflexivity | left; eauto]].
  destruct (match split_type expense with
            | EQUAL => false
            | PERCENTAGE => _
            end);
    [simpl; intros [= <-]; split; [reflexivity | left; eauto]|].
  simpl.
  change (query_group_members (mkDB _ _ _ _ _) group_id)
    with (query_group_members db group_id).
  pose proof (payer_found_members_nonempty _ _ _ _ Hu) as Hpos.
  destruct (split_type expense) eqn:Hty.
  - destruct (List.length (query_group_members db group_id)); [lia|].
    simpl. discriminate.
  - destruct (percentage_splits _ _ _) eqn:Hp; simpl; [discriminate|].
    intros [= <-]. apply percentage_splits_raises_only_TypeError in Hp.
    subst. split; [reflexivity|]. right. auto.
Qed.

Lemma failed_request_stores_no_share_witness :
  expense_splits (fst (add_expense 1 missing_percentage_request db_trio)) = [].
Proof.
  exact (proj1 (failed_request_stores_no_share 1 missing_percentage_request
                  db_trio TypeError eq_refl)).
Defined.

Lemma add_expense_split_ids (group_id : Z) (expense : ExpenseCreate)
    (db : DB) :
  NoDup (map ExpenseSplit_id (expense_splits db)) ->
  NoDup (map ExpenseSplit_id
             (expense_splits (fst (add_expense group_id expense db)))).
Proof.
  intros Hnd. unfold add_expense.
  destruct (query_group db group_id); [|exact Hnd].
  destruct (query_group_user db group_id (paid_by expense)); [|exact Hnd].
  destruct (match split_type expense with
            | EQUAL => false
            | PERCENTAGE => _
            end); [exact Hnd|].
  simpl. destruct (split_type expense).
  - destruct (List.length _); simpl; [exact Hnd|].
    now apply flush_splits_ids.
  - destruct (percentage_splits _ _ _); simpl; [|exact Hnd].
    now apply flush_splits_ids.
Qed.

(** X2: [add_expense] only appends.  Users, groups and memberships are
    untouched, the stored expenses and splits stay in place in front of
    what is added, and ids that were unique stay unique. *)
Theorem add_expense_append_only (group_id : Z) (expense : ExpenseCreate)
    (db : DB) :
  let db' := fst (add_expense group_id expense db) in
  users db' = users db /\ groups db' = groups db
  /\ group_members db' = group_members db
  /\ (exists es, expenses db' = expenses db ++ es)
  /\ (exists ss, expense_splits db' = expense_splits db ++ ss)
  /\ (NoDup (map Expense_id (expenses db)) ->
      NoDup (map Expense_id (expenses db')))
  /\ (NoDup (map ExpenseSplit_id (expense_splits db)) ->
      NoDup (map ExpenseSplit_id (expense_splits db'))).
Proof.
  intros db'.
  destruct (add_expense_shape group_id expense db)
    as (es & ss & Hdb & Hes & _ & _).
  fold db' in Hdb.
  repeat split; try (rewrite Hdb; reflexivity); eauto.
  - rewrite Hdb; simpl; eauto.
  - rewrite Hdb; simpl; eauto.
  - intros Hnd. rewrite Hdb. simpl. destruct Hes as [[-> _]| ->].
    + now rewrite app_nil_r.
    + rewrite map_app. simpl.
      apply NoDup_app; [exact Hnd | repeat constructor; auto |].
      intros x Hx [<-|[]]. exact (next_id_fresh _ Hx).
  - apply add_expense_split_ids.
Qed.

Lemma add_expense_append_only_witness :
  NoDup (map Expense_id (expenses db_example))
  /\ NoDup (map ExpenseSplit_id (expense_splits db_example)).
Proof.
  destruct (add_expense_append_only 1
              (mkExpenseCreate "taxi" 30 1002 EQUAL [])
              (run_add 1 (mkExpenseCreate "dinner" 90 1001 EQUAL []) db_trio))
    as (_ & _ & _ & _ & _ & He & Hs).
  split; [apply He | apply Hs]; vm_compute;
    repeat constructor; simpl; intuition discriminate.
Defined.

Lemma Qsum_constant {A : Type} (c : Q) (l : list A) :
  Qsum (map (fun _ => c) l) == inject_Z (Z.of_nat (List.length l)) * c.
Proof.
  induction l as [|x l IH]; simpl List.length; simpl map.
  - rewrite Qsum_nil. change (inject_Z (Z.of_nat 0)) with 0. lra.
  - rewrite Qsum_cons, IH, Nat2Z.inj_succ, <- Z.add_1_r, inject_Z_plus.
    change (inject_Z 1) with 1. lra.
Qed.

Lemma Qsum_split_amounts (new : list ExpenseSplit)
    (pending : list PendingSplit) :
  map split_fields new = map pending_fields pending ->
  map ExpenseSplit_amount new = map pending_amount pending.
Proof.
  revert pending. induction new as [|s new IH]; intros [|p pending]; simpl;
    try discriminate; [reflexivity|].
  intros Hmap. injection Hmap as _ _ Ha _ Hrest.
  rewrite Ha. f_equal. now apply IH.
Qed.

(** X3: the shares stored by a successful equal-split request sum to
    the amount of the expense. *)
Theorem equal_split_conserves_amount (group_id : Z)
    (expense : ExpenseCreate) (db db' : DB) (e : Expense) :
  split_type expense = EQUAL ->
  add_expense group_id expense db = (db', Return e) ->
  exists new,
    expense_splits db' = expense_splits db ++ new
    /\ Qsum (map ExpenseSplit_amount new) == amount expense.
Proof.
  intros Heq Hrun. unfold add_expense in Hrun.
  destruct (query_group db group_id); [|discriminate].
  destruct (query_group_user db group_id (paid_by expense)) as [u|] eqn:Hu;
    [|discriminate].
  rewrite Heq in Hrun. simpl in Hrun.
  change (query_group_members (mkDB _ _ _ _ _) group_id)
    with (query_group_members db group_id) in Hrun.
  destruct (List.length (query_group_members db group_id)) as [|n] eqn:Hlen;
    [discriminate|].
  inversion Hrun; subst db' e; clear Hrun. simpl.
  destruct (flush_splits_appends
              (equal_splits (amount expense / inject_Z (Z.of_nat (S n)))
                            (next_id (map Expense_id (expenses db)))
                            (query_group_members db group_id))
              (expense_splits db)) as (new & Hnew & Hmap).
  exists new. split; [exact Hnew|].
  rewrite (Qsum_split_amounts _ _ Hmap). unfold equal_splits.
  rewrite map_map. simpl pending_amount. rewrite Qsum_constant, Hlen.
  apply Qmult_div_r. intros H.
  assert (Hz : inject_Z (Z.of_nat (S n)) == inject_Z 0) by exact H.
  apply inject_Z_injective in Hz. discriminate Hz.
Qed.

Lemma equal_split_conserves_amount_witness :
  exists new,
    expense_splits (fst (add_expense 1 equal_request db_trio)) = [] ++ new
    /\ Qsum (map ExpenseSplit_amount new) == 100.
Proof.
  exact (equal_split_conserves_amount 1 equal_request db_trio
           (fst (add_expense 1 equal_request db_trio))
           (mkExpense 1 "dinner" 100 1 1001 EQUAL) eq_refl eq_refl).
Defined.







(** The expense row is written only once the payer was found. *)
Lemma add_expense_payers (group_id : Z)
    (expense : ExpenseCreate) (db : DB) :
  payers_are_members db ->
  payers_are_members (fst (add_expense group_id expense db)).
Proof.
  intros Hinv.
  destruct (add_expense_shape group_id expense db)
    as (es & ss & Hdb & Hes & _ & Hpayer).
  rewrite Hdb. unfold payers_are_members. simpl expenses.
  apply Forall_app. split.
  - eapply Forall_impl; [|exact Hinv]. intros e He. exact He.
  - destruct Hes as [[-> _]| ->]; constructor; [|constructor].
    simpl Expense_paid_by. simpl Expense_group_id.
    specialize (Hpayer eq_refl).
    destruct (query_group_user db group_id (paid_by expense)) as [u|] eqn:Hu;
      [|congruence].
    apply query_group_user_listed in Hu as [_ Hlisted]. exact Hlisted.
Qed.

(** X5: every stored expense was paid by a user of its group, and
    [add_expense] keeps it so, whatever the request and its outcome. *)
Theorem add_expense_keeps_payers_members (group_id : Z)
    (expense : ExpenseCreate) (db : DB) :
  payers_are_members db ->
  payers_are_members (fst (add_expense group_id expense db)).
Proof. apply add_expense_payers. Qed.

Lemma add_expense_keeps_payers_members_witness : payers_are_members db_example.
Proof.
  apply (add_expense_keeps_payers_members 1
           (mkExpenseCreate "taxi" 30 1002 EQUAL [])
           (run_add 1 (mkExpenseCreate "dinner" 90 1001 EQUAL []) db_trio)).
  apply (add_expense_keeps_payers_members 1
           (mkExpenseCreate "dinner" 90 1001 EQUAL []) db_trio).
  constructor.
Defined.

(** * Groups are independent, and reads follow writes *)

(** The report, the expense list and the details of a group depend on
    the users, the memberships, the group row and the expenses and splits
    of the group only. *)
Lemma reads_depend_on_group_rows (group_id : Z) (db db' : DB) :
  users db' = users db -> groups db' = groups db ->
  group_members db' = group_members db ->
  query_expenses db' group_id = query_expenses db group_id ->
  query_splits db' group_id = query_splits db group_id ->
  calculate_group_balances group_id db' = calculate_group_balances group_id db
  /\ get_group_expenses group_id db' = get_group_expenses group_id db
  /\ get_group_details group_id db' = get_group_details group_id db.
Proof.
  intros Hu Hg Hm He Hs.
  assert (Hus : query_group_users db' group_id = query_group_users db group_id)
    by (now apply query_group_users_ext).
  assert (Hq : query_group db' group_id = query_group db group_id)
    by (unfold query_group; now rewrite Hg).
  unfold calculate_group_balances, settle, net_balances, get_group_expenses,
    get_group_details.
  now rewrite Hus, Hq, He, Hs.
Qed.

Lemma expense_in_group_fresh (db : DB) (group_id : Z) :
  expense_in_group db group_id (next_id (map Expense_id (expenses db))) = false.
Proof.
  unfold expense_in_group.
  destruct (existsb _ (expenses db)) eqn:E; [|reflexivity].
  apply existsb_exists in E as (e & Hin & He).
  apply andb_true_iff in He as [He _]. apply Z.eqb_eq in He.
  exfalso. apply (next_id_fresh (map Expense_id (expenses db))).
  rewrite <- He. now apply in_map.
Qed.

Lemma filter_fresh_splits (db : DB) (group_id : Z) (ss : list ExpenseSplit) :
  Forall (fun s => ExpenseSplit_expense_id s
                   = next_id (map Expense_id (expenses db))) ss ->
  filter (fun s => expense_in_group db group_id (ExpenseSplit_expense_id s)) ss
  = [].
Proof.
  induction 1 as [|s ss Hs _ IH]; simpl; [reflexivity|].
  rewrite Hs, expense_in_group_fresh. exact IH.
Qed.

(** X6: a request for one group, whatever its outcome, changes nothing
    that is read of another group: its balance report, its expense list
    and its details stay the same. *)
Theorem other_groups_unaffected (group_id other : Z)
    (expense : ExpenseCreate) (db : DB) :
  other <> group_id ->
  let db' := fst (add_expense group_id expense db) in
  calculate_group_balances other db' = calculate_group_balances other db
  /\ get_group_expenses other db' = get_group_expenses other db
  /\ get_group_details other db' = get_group_details other db.
Proof.
  intros Hne db'.
  destruct (add_expense_shape group_id expense db)
    as (es & ss & Hdb & Hes & Hss & _).
  fold db' in Hdb.
  assert (Hno : forall x,
             existsb (fun e => (Expense_id e =? x)%Z
                               && (Expense_group_id e =? other)%Z) es = false).
  { intros x. destruct Hes as [[-> _]| ->]; simpl; [reflexivity|].
    apply Z.eqb_neq in Hne. rewrite Z.eqb_sym in Hne.
    rewrite Hne, andb_false_r. reflexivity. }
  apply reads_depend_on_group_rows; rewrite Hdb; try reflexivity.
  - unfold query_expenses. simpl expenses. rewrite filter_app.
    destruct Hes as [[-> _]| ->]; simpl; [now rewrite app_nil_r|].
    apply Z.eqb_neq in Hne. rewrite Z.eqb_sym in Hne.
    rewrite Hne. now rewrite app_nil_r.
  - unfold query_splits, expense_in_group. simpl expenses.
    simpl expense_splits. rewrite filter_app.
    assert (Hext : forall s,
               existsb (fun e => (Expense_id e =? ExpenseSplit_expense_id s)%Z
                                 && (Expense_group_id e =? other)%Z)
                       (expenses db ++ es)
               = expense_in_group db other (ExpenseSplit_expense_id s)).
    { intros s. rewrite existsb_app, Hno, orb_false_r. reflexivity. }
    rewrite !(filter_ext _ _ Hext), (filter_fresh_splits _ _ _ Hss).
    now rewrite app_nil_r.
Qed.

Lemma other_groups_unaffected_witness :
  calculate_group_balances 1
    (fst (add_expense 2 equal_request db_example))
  = calculate_group_balances 1 db_example.
Proof.
  apply (other_groups_unaffected 2 1 equal_request db_example). discriminate.
Defined.

Lemma or_0_sql_sum (l : list Q) : or_0 (sql_sum l) == Qsum l.
Proof.
  destruct l as [|x l]; simpl; [reflexivity|].
  destruct (Qeq_bool (Qsum (x :: l)) 0) eqn:E; [|reflexivity].
  apply Qeq_bool_eq in E. now rewrite E.
Qed.



(** * More on the settlement loop *)

Lemma Forall_dict_set {V : Type} (P : Z * V -> Prop) (d : dict V) (k : Z)
    (v : V) :
  Forall P d -> P (k, v) -> Forall P (dict_set d k v).
Proof.
  intros Hd Hv. induction Hd as [|[k' v'] d Hp Hd IH]; simpl.
  - now constructor.
  - destruct (k' =? k)%Z; constructor; auto.
Qed.

Section AuditStep.

Variables (D0 C0 : list (Z * Q)) (S0 : dict Settlement).

Hypothesis ids_NoDup : NoDup (map fst D0 ++ map fst C0).

Lemma loop_audit_step (st st' : loop_state) :
  loop_wf D0 C0 S0 st -> loop_audit D0 C0 st -> loop_cond st = true ->
  loop_body st = Return st' -> loop_audit D0 C0 st'.
Proof.
  intros Hwf Haud Hcond Hbody.
  destruct (loop_body_progress _ _ Hbody) as (_ & _ & Hi & Hj & _).
  destruct (loop_body_inv _ _ Hbody)
    as (did & damt & cid & camt & sd & sc & Hdn & Hcn & Hsd & Hsc
        & Hd' & Hc' & Hi' & Hj' & Hs' & _).
  cbv zeta in *.
  destruct (iteration_users _ _ _ ids_NoDup _ _ _ _ _ Hwf Hdn Hcn)
    as (_ & _ & Hind & Hinc & Hne).
  rewrite dict_get_set_neq in Hsc by assumption.
  pose proof (cond_in_range _ _ _ _ Hwf Hcond) as [Hri Hrj].
  assert (Hlen_d : List.length (debtors st) = List.length D0)
    by (rewrite <- (length_map fst (debtors st)), (wf_debtor_ids _ _ _ _ Hwf);
        apply length_map).
  assert (Hlen_c : List.length (creditors st) = List.length C0)
    by (rewrite <- (length_map fst (creditors st)),
          (wf_creditor_ids _ _ _ _ Hwf); apply length_map).
  pose proof (audit_ahead_d _ _ _ Haud _ _ _ (Nat.le_refl _) Hdn) as Hdneg.
  pose proof (audit_ahead_c _ _ _ Haud _ _ _ (Nat.le_refl _) Hcn) as Hcpos.
  set (amt := py_min (- damt) camt) in *.
  assert (Hamt : 0 < amt /\ amt <= - damt /\ amt <= camt).
  { unfold amt. destruct (py_min_cases (- damt) camt) as [[-> ?]|[-> ?]];
      repeat split; lra. }
  destruct Hamt as (Hpos & Hle_d & Hle_c).
  destruct (audit_positive _ _ _ Haud _ _ Hsd) as [Hpo_d Hpb_d].
  destruct (audit_positive _ _ _ Haud _ _ Hsc) as [Hpo_c Hpb_c].
  destruct (audit_keys _ _ _ Haud _ _ Hsd) as [Hko_d Hkb_d].
  destruct (audit_keys _ _ _ Haud _ _ Hsc) as [Hko_c Hkb_c].
  constructor.
  - (* debtors at and ahead of the cursor are open *)
    intros k u a Hk. rewrite Hd'.
    destruct (Nat.eq_dec (i st) k) as [<-|Hik].
    + rewrite nth_error_list_set_eq by lia. intros [= <- <-].
      rewrite Hi' in Hk.
      destruct (Qltb (Qabs (damt + amt)) 0.01) eqn:Hz; [lia|].
      apply Qltb_false in Hz.
      assert (Hab : Qabs (damt + amt) == - (damt + amt))
        by (apply Qabs_neg; lra).
      rewrite Hab in Hz. lra.
    + rewrite nth_error_list_set_neq by assumption.
      apply (audit_ahead_d _ _ _ Haud). lia.
  - intros k u a Hk. rewrite Hc'.
    destruct (Nat.eq_dec (j st) k) as [<-|Hjk].
    + rewrite nth_error_list_set_eq by lia. intros [= <- <-].
      rewrite Hj' in Hk.
      destruct (Qltb (Qabs (camt - amt)) 0.01) eqn:Hz; [lia|].
      apply Qltb_false in Hz.
      assert (Hab : Qabs (camt - amt) == camt - amt)
        by (apply Qabs_pos; lra).
      rewrite Hab in Hz. lra.
    + rewrite nth_error_list_set_neq by assumption.
      apply (audit_ahead_c _ _ _ Haud). lia.
  - (* recorded amounts are positive *)
    intros u s. rewrite Hs', (settlements_after _ _ _ _ _ _ Hne).
    destruct (u =? cid)%Z; [|destruct (u =? did)%Z].
    + intros [= <-]. simpl. split; [exact Hpo_c|].
      now apply Forall_dict_set.
    + intros [= <-]. simpl. split; [|exact Hpb_d].
      now apply Forall_dict_set.
    + apply (audit_positive _ _ _ Haud).
  - (* recorded counterparties are of the other list *)
    intros u s. rewrite Hs', (settlements_after _ _ _ _ _ _ Hne).
    destruct (u =? cid)%Z; [|destruct (u =? did)%Z].
    + intros [= <-]. simpl. split; [exact Hko_c|].
      intros d Hd. apply In_keys_dict_set in Hd as [->|Hd]; auto.
    + intros [= <-]. simpl. split; [|exact Hkb_d].
      intros c Hc. apply In_keys_dict_set in Hc as [->|Hc]; auto.
    + apply (audit_keys _ _ _ Haud).
  - (* the two views of a transfer agree *)
    pose proof (audit_mirror _ _ _ Haud) as Hold.
    intros d c sd' sc'.
    rewrite Hs', !(settlements_after _ _ _ _ _ _ Hne).
    destruct (d =? cid)%Z eqn:Edc; [|destruct (d =? did)%Z eqn:Edd];
      (destruct (c =? cid)%Z eqn:Ecc; [|destruct (c =? did)%Z eqn:Ecd]);
      rewrite ?Z.eqb_eq, ?Z.eqb_neq in *; subst;
      try congruence;
      intros Hd Hc;
      try (injection Hd as <-); try (injection Hc as <-); simpl;
      rewrite ?dict_get_set_eq, ?dict_get_set_neq by congruence;
      eauto.
Qed.

End AuditStep.

Section AuditRun.

Variables (group_id : Z) (db : DB).

Local Abbreviation us := (query_group_users db group_id).
Local Abbreviation nets := (net_balances db group_id).
Local Abbreviation D0 := (debtors_of nets).
Local Abbreviation C0 := (creditors_of nets).
Local Abbreviation S0 := (init_settlements us).

Lemma loop_init_audit : loop_audit D0 C0 (loop_init us nets).
Proof.
  constructor; simpl.
  - intros k u a _ Hk. apply nth_error_In in Hk.
    apply In_debtors_of in Hk as (net & _ & -> & Hlt). exact Hlt.
  - intros k u a _ Hk. apply nth_error_In in Hk.
    apply In_creditors_of in Hk as (net & _ & -> & Hlt). exact Hlt.
  - intros u s Hs. rewrite (init_settlements_entry _ _ _ Hs). simpl.
    split; constructor.
  - intros u s Hs. rewrite (init_settlements_entry _ _ _ Hs). simpl.
    split; contradiction.
  - intros d c sd sc Hd Hc.
    rewrite (init_settlements_entry _ _ _ Hd),
      (init_settlements_entry _ _ _ Hc).
    reflexivity.
Qed.

(** The report with everything known of the state its loop ended in. *)
Lemma report_audited :
  exists st balances,
    settle db group_id = Some (Return st)
    /\ calculate_group_balances group_id db = Some (Return balances)
    /\ loop_wf D0 C0 S0 st /\ loop_roles D0 C0 st /\ loop_ledger D0 C0 st
    /\ loop_audit D0 C0 st
    /\ loop_cond st = false
    /\ map Balance_user_id balances = map User_id us
    /\ Forall (fun b =>
                 In (Balance_user_id b) (map User_id us)
                 /\ exists net e,
                      dict_get nets (Balance_user_id b) = Some net
                      /\ dict_get (settlements st) (Balance_user_id b) = Some e
                      /\ Balance_owes b = owes e
                      /\ Balance_owed_by b = owed_by e
                      /\ Balance_net_balance b = round2 net)
              balances.
Proof.
  destruct (report_returned group_id db)
    as (st & balances & Hrun & Hcalc & Hwf & Hroles & Hled & Hcond & Hids
        & Hall).
  exists st, balances.
  repeat (split; [assumption|]).
  assert (Haud : loop_audit D0 C0 st).
  { destruct (while_loop_invariant
                (fun st => loop_wf D0 C0 S0 st /\ loop_audit D0 C0 st))
      with (fuel := loop_fuel (loop_init us nets)) (st := loop_init us nets)
      as (st' & Hrun' & (_ & Haud) & _).
    - intros s (Hw & Ha) Hc.
      destruct (loop_wf_returns _ _ _
                  (run_ids_have_entry us _ _) _ Hw Hc) as [s' Hbody].
      exists s'. split; [exact Hbody|]. split.
      + exact (loop_wf_step _ _ _ _ _ Hw Hc Hbody).
      + exact (loop_audit_step _ _ _ (report_ids_NoDup group_id db)
                 _ _ Hw Ha Hc Hbody).
    - split; [apply loop_init_wf | apply loop_init_audit].
    - unfold loop_measure, loop_fuel. simpl. lia.
    - unfold settle in Hrun. rewrite Hrun in Hrun'. now injection Hrun' as <-. }
  split; [exact Haud|]. split; [exact Hcond|]. split; [exact Hids|].
  apply Forall_forall. intros b Hb. split.
  - rewrite <- Hids. now apply in_map.
  - exact (proj1 (Forall_forall _ _) Hall b Hb).
Qed.

End AuditRun.


(** The rounded net balance of a user listed as debtor or creditor. *)
Lemma debtor_net (group_id : Z) (db : DB) (u : Z) (net : Q) :
  dict_get (net_balances db group_id) u = Some net ->
  In u (map fst (debtors_of (net_balances db group_id))) ->
  round2 net < 0.
Proof.
  intros Hnet Hin. apply in_map_iff in Hin as ([u' a] & Hu & Hin).
  simpl in Hu. subst u'.
  apply In_debtors_of in Hin as (net' & Hin' & _ & Hlt).
  apply (In_dict_get _ _ _ (report_keys_NoDup group_id db)) in Hin'.
  congruence.
Qed.

Lemma creditor_net (group_id : Z) (db : DB) (u : Z) (net : Q) :
  dict_get (net_balances db group_id) u = Some net ->
  In u (map fst (creditors_of (net_balances db group_id))) ->
  0 < round2 net.
Proof.
  intros Hnet Hin. apply in_map_iff in Hin as ([u' a] & Hu & Hin).
  simpl in Hu. subst u'.
  apply In_creditors_of in Hin as (net' & Hin' & _ & Hlt).
  apply (In_dict_get _ _ _ (report_keys_NoDup group_id db)) in Hin'.
  congruence.
Qed.

(** X8: in every report a recorded transfer has a positive amount, goes
    from a member whose rounded net balance is negative to a member whose
    rounded net balance is positive, and both have an entry in the
    report. *)
Theorem transfers_go_from_debtors_to_creditors (group_id : Z) (db : DB) :
  exists balances,
    calculate_group_balances group_id db = Some (Return balances)
    /\ Forall (fun b =>
         Forall (fun p => 0 < snd p) (Balance_owes b)
         /\ Forall (fun p => 0 < snd p) (Balance_owed_by b)
         /\ (Balance_owes b <> [] -> Balance_net_balance b < 0)
         /\ (Balance_owed_by b <> [] -> 0 < Balance_net_balance b)
         /\ (forall c, In c (keys (Balance_owes b)) ->
               exists b', In b' balances /\ Balance_user_id b' = c
                          /\ 0 < Balance_net_balance b')
         /\ (forall d, In d (keys (Balance_owed_by b)) ->
               exists b', In b' balances /\ Balance_user_id b' = d
                          /\ Balance_net_balance b' < 0))
       balances.
Proof.
  destruct (report_audited group_id db)
    as (st & balances & _ & Hcalc & Hwf & Hroles & _ & Haud & _ & Hids & Hall).
  exists balances. split; [exact Hcalc|].
  assert (Hentry : forall u,
             In u (keys (net_balances db group_id)) ->
             exists b net, In b balances /\ Balance_user_id b = u
                           /\ dict_get (net_balances db group_id) u = Some net
                           /\ Balance_net_balance b = round2 net).
  { intros u Hu. apply In_keys_net_balances in Hu. rewrite <- Hids in Hu.
    apply in_map_iff in Hu as (b & Hb & Hin).
    destruct (proj1 (Forall_forall _ _) Hall b Hin)
      as (_ & net & e & Hnet & _ & _ & _ & Hn).
    exists b, net. rewrite <- Hb. auto. }
  apply Forall_forall. intros b Hb.
  destruct (proj1 (Forall_forall _ _) Hall b Hb)
    as (_ & net & e & Hnet & He & -> & -> & ->).
  destruct (audit_positive _ _ _ Haud _ _ He) as [Hpo Hpb].
  destruct (audit_keys _ _ _ Haud _ _ He) as [Hko Hkb].
  repeat split; auto.
  - intros Hne. apply (debtor_net group_id db _ _ Hnet).
    exact (roles_owes _ _ _ Hroles _ _ He Hne).
  - intros Hne. apply (creditor_net group_id db _ _ Hnet).
    exact (roles_owed_by _ _ _ Hroles _ _ He Hne).
  - intros c Hc. specialize (Hko c Hc).
    destruct (Hentry c (creditor_ids_keys _ _ Hko))
      as (b' & net' & Hin & Hid & Hnet' & Hn).
    exists b'. repeat split; auto. rewrite Hn.
    exact (creditor_net group_id db _ _ Hnet' Hko).
  - intros d Hd. specialize (Hkb d Hd).
    destruct (Hentry d (debtor_ids_keys _ _ Hkb))
      as (b' & net' & Hin & Hid & Hnet' & Hn).
    exists b'. repeat split; auto. rewrite Hn.
    exact (debtor_net group_id db _ _ Hnet' Hkb).
Qed.

(** X9: the two sides of a report agree: what the entry of one member
    says the member owes another is what the entry of the other says it
    is owed by the first, and nothing is recorded on one side only. *)
Theorem owes_mirrors_owed_by (group_id : Z) (db : DB) :
  exists balances,
    calculate_group_balances group_id db = Some (Return balances)
    /\ forall b1 b2,
         In b1 balances -> In b2 balances ->
         dict_get (Balance_owes b1) (Balance_user_id b2)
         = dict_get (Balance_owed_by b2) (Balance_user_id b1).
Proof.
  destruct (report_audited group_id db)
    as (st & balances & _ & Hcalc & _ & _ & _ & Haud & _ & _ & Hall).
  exists balances. split; [exact Hcalc|].
  intros b1 b2 H1 H2.
  destruct (proj1 (Forall_forall _ _) Hall b1 H1)
    as (_ & _ & e1 & _ & He1 & -> & _).
  destruct (proj1 (Forall_forall _ _) Hall b2 H2)
    as (_ & _ & e2 & _ & He2 & _ & -> & _).
  exact (audit_mirror _ _ _ Haud _ _ _ _ He1 He2).
Qed.

(** When the loop ends, no outstanding amount exceeds in absolute value
    the total the loop started with. *)
Lemma final_amounts_bounded (D0 C0 : list (Z * Q)) (S0 : dict Settlement)
    (st : loop_state) (eps : Q) :
  loop_wf D0 C0 S0 st -> loop_ledger D0 C0 st -> loop_cond st = false ->
  Qabs (Qsum (map snd D0) + Qsum (map snd C0)) <= eps ->
  forall p, In p (debtors st) \/ In p (creditors st) -> Qabs (snd p) <= eps.
Proof.
  intros Hwf Hled Hcond Htot p Hp.
  apply Qabs_Qle_condition in Htot as [Hlo Hhi].
  pose proof (ledger_total _ _ _ Hled) as Htotal.
  assert (Hd : Forall (fun q => snd q <= 0) (debtors st))
    by (eapply Forall_impl; [|apply (ledger_debtors _ _ _ Hled)];
        simpl; tauto).
  assert (Hc : Forall (fun q => 0 <= snd q) (creditors st))
    by (eapply Forall_impl; [|apply (ledger_creditors _ _ _ Hled)];
        simpl; tauto).
  destruct (Qsum_snd_nonpos _ Hd) as [Hd0 Hdp].
  destruct (Qsum_snd_nonneg _ Hc) as [Hc0 Hcp].
  assert (Hside : Qsum (map snd (debtors st)) == 0
                  \/ Qsum (map snd (creditors st)) == 0).
  { unfold loop_cond in Hcond. apply andb_false_iff in Hcond as [Hi|Hj].
    - left. apply Nat.ltb_ge in Hi.
      apply Qsum_snd_all_zero. intros [u a] Hin.
      apply In_nth_error in Hin as [k Hk]. simpl.
      apply (ledger_done_d _ _ _ Hled k u a); [|exact Hk].
      assert (k < List.length (debtors st))%nat
        by (apply nth_error_Some; congruence).
      lia.
    - right. apply Nat.ltb_ge in Hj.
      apply Qsum_snd_all_zero. intros [u a] Hin.
      apply In_nth_error in Hin as [k Hk]. simpl.
      apply (ledger_done_c _ _ _ Hled k u a); [|exact Hk].
      assert (k < List.length (creditors st))%nat
        by (apply nth_error_Some; congruence).
      lia. }
  apply Qabs_Qle_condition.
  destruct Hp as [Hp|Hp].
  - specialize (Hdp p Hp).
    pose proof (proj1 (Forall_forall _ _) Hd p Hp) as Hs. simpl in Hs.
    destruct Hside; split; lra.
  - specialize (Hcp p Hp).
    pose proof (proj1 (Forall_forall _ _) Hc p Hp) as Hs. simpl in Hs.
    destruct Hside; split; lra.
Qed.

(** What is left for the member of a report entry is the outstanding
    amount of the member in the final lists, or zero for a member in
    neither list. *)
Lemma remaining_is_outstanding (group_id : Z) (db : DB) (st : loop_state)
    (b : Balance) (net : Q) (e : Settlement) :
  let nets := net_balances db group_id in
  loop_wf (debtors_of nets) (creditors_of nets)
          (init_settlements (query_group_users db group_id)) st ->
  loop_roles (debtors_of nets) (creditors_of nets) st ->
  loop_ledger (debtors_of nets) (creditors_of nets) st ->
  dict_get nets (Balance_user_id b) = Some net ->
  dict_get (settlements st) (Balance_user_id b) = Some e ->
  Balance_owes b = owes e -> Balance_owed_by b = owed_by e ->
  Balance_net_balance b = round2 net ->
  (Balance_net_balance b < 0 /\ Balance_owed_by b = []
   /\ exists a, In (Balance_user_id b, a) (debtors st) /\ remaining b == a)
  \/ (0 < Balance_net_balance b /\ Balance_owes b = []
      /\ exists a, In (Balance_user_id b, a) (creditors st)
                   /\ remaining b == a)
  \/ (Balance_net_balance b == 0 /\ Balance_owes b = []
      /\ Balance_owed_by b = [] /\ remaining b == 0).
Proof.
  intros nets Hwf Hroles Hled Hnet He Ho Hb Hn.
  pose proof (report_ids_NoDup group_id db) as Hnd. fold nets in Hnd.
  unfold remaining. rewrite Ho, Hb, Hn.
  set (u := Balance_user_id b) in *.
  pose proof (dict_get_Some_In _ _ _ Hnet) as Hin_net.
  destruct (Qlt_le_dec (round2 net) 0) as [Hneg|Hge];
    [|destruct (Qlt_le_dec 0 (round2 net)) as [Hpos|Hle]].
  - left. split; [exact Hneg|].
    assert (Hin : In (u, round2 net) (debtors_of nets))
      by (apply In_debtors_of; eauto).
    apply In_nth_error in Hin as [k Hk0].
    destruct (same_ids_nth _ _ _ _ _ (eq_sym (wf_debtor_ids _ _ _ _ Hwf)) Hk0)
      as [a Hk].
    pose proof (ledger_owes _ _ _ Hled _ _ _ _ _ Hk0 Hk He) as Ha.
    assert (Hempty : owed_by e = []).
    { destruct (owed_by e) eqn:E; [reflexivity|]. exfalso.
      apply (NoDup_app_disjoint _ _ u Hnd).
      - exact (nth_error_fst _ _ _ _ Hk0).
      - apply (roles_owed_by _ _ _ Hroles _ _ He). congruence. }
    split; [exact Hempty|]. exists a. split; [exact (nth_error_In _ _ Hk)|].
    rewrite Hempty. simpl values. rewrite Qsum_nil. lra.
  - right. left. split; [exact Hpos|].
    assert (Hin : In (u, round2 net) (creditors_of nets))
      by (apply In_creditors_of; eauto).
    apply In_nth_error in Hin as [k Hk0].
    destruct (same_ids_nth _ _ _ _ _ (eq_sym (wf_creditor_ids _ _ _ _ Hwf)) Hk0)
      as [a Hk].
    pose proof (ledger_owed_by _ _ _ Hled _ _ _ _ _ Hk0 Hk He) as Ha.
    assert (Hempty : owes e = []).
    { destruct (owes e) eqn:E; [reflexivity|]. exfalso.
      apply (NoDup_app_disjoint _ _ u Hnd).
      - apply (roles_owes _ _ _ Hroles _ _ He). congruence.
      - exact (nth_error_fst _ _ _ _ Hk0). }
    split; [exact Hempty|]. exists a. split; [exact (nth_error_In _ _ Hk)|].
    rewrite Hempty. simpl values. rewrite Qsum_nil. lra.
  - right. right.
    assert (Ho' : owes e = []).
    { destruct (owes e) eqn:E; [reflexivity|]. exfalso.
      assert (Hin : In u (map fst (debtors_of nets)))
        by (apply (roles_owes _ _ _ Hroles _ _ He); congruence).
      pose proof (debtor_net group_id db _ _ Hnet Hin). lra. }
    assert (Hb' : owed_by e = []).
    { destruct (owed_by e) eqn:E; [reflexivity|]. exfalso.
      assert (Hin : In u (map fst (creditors_of nets)))
        by (apply (roles_owed_by _ _ _ Hroles _ _ He); congruence).
      pose proof (creditor_net group_id db _ _ Hnet Hin). lra. }
    rewrite Ho', Hb'. simpl values. rewrite Qsum_nil.
    repeat split; auto; lra.
Qed.



Lemma dd_get_fold_other {A : Type} (key : A -> Z) (val : A -> Q) (u : Z)
    (l : list A) :
  Forall (fun x => key x <> u) l ->
  forall d,
    dd_get (fold_left (fun d x => dd_add d (key x) (val x)) l d) u
    = dd_get d u.
Proof.
  induction 1 as [|x l Hx Hl IH]; intros d; simpl; [reflexivity|].
  rewrite IH, dd_get_dd_add.
  destruct (key x =? u)%Z eqn:E; [|reflexivity].
  apply Z.eqb_eq in E. contradiction.
Qed.

(** The entry of a member without activity in the group. *)
Lemma inactive_entry (group_id : Z) (db : DB) :
  exists balances,
    calculate_group_balances group_id db = Some (Return balances)
    /\ Forall (fun b =>
         Forall (fun e => Expense_paid_by e <> Balance_user_id b)
                (query_expenses db group_id) ->
         Forall (fun s => ExpenseSplit_user_id s <> Balance_user_id b)
                (query_splits db group_id) ->
         Balance_net_balance b == 0
         /\ Balance_owes b = [] /\ Balance_owed_by b = [])
       balances.
Proof.
  destruct (report_audited group_id db)
    as (st & balances & _ & Hcalc & Hwf & Hroles & Hled & _ & _ & _ & Hall).
  exists balances. split; [exact Hcalc|].
  eapply Forall_impl; [|exact Hall]. clear Hall.
  intros b (_ & net & e & Hnet & He & Ho & Hb & Hn) Hpaid Howes.
  assert (Hzero : Balance_net_balance b == 0).
  { rewrite Hn, (net_balances_value _ _ _ _ _ Hnet).
    unfold net_of, user_paid_of, user_owes_of.
    rewrite (dd_get_fold_other Expense_paid_by Expense_amount _ _ Hpaid),
      (dd_get_fold_other ExpenseSplit_user_id ExpenseSplit_amount _ _ Howes).
    reflexivity. }
  destruct (remaining_is_outstanding group_id db st b net e
              Hwf Hroles Hled Hnet He Ho Hb Hn)
    as [(Hneg & _)|[(Hpos & _)|(_ & Ho' & Hb' & _)]]; [lra | lra | auto].
Qed.

(** X12: a user of the group who paid no expense of the group and holds
    no share of one has an entry in the report, and every entry of the
    report for that user has net balance zero and no transfer. *)
Theorem inactive_member_has_empty_entry (group_id user_id : Z) (db : DB) :
  In user_id (map User_id (query_group_users db group_id)) ->
  Forall (fun e => Expense_paid_by e <> user_id)
         (query_expenses db group_id) ->
  Forall (fun s => ExpenseSplit_user_id s <> user_id)
         (query_splits db group_id) ->
  exists balances,
    calculate_group_balances group_id db = Some (Return balances)
    /\ (exists b, In b balances /\ Balance_user_id b = user_id)
    /\ (forall b, In b balances -> Balance_user_id b = user_id ->
                  Balance_net_balance b == 0
                  /\ Balance_owes b = [] /\ Balance_owed_by b = []).
Proof.
  intros Hmember Hpaid Howes.
  destruct (inactive_entry group_id db) as (balances & Hcalc & Hall).
  destruct (report_returned group_id db)
    as (st & balances' & _ & Hcalc' & _ & _ & _ & _ & Hids & _).
  rewrite Hcalc in Hcalc'. injection Hcalc' as <-.
  exists balances. split; [exact Hcalc|]. split.
  - rewrite <- Hids in Hmember.
    apply in_map_iff in Hmember as (b & Hb & Hin). eauto.
  - intros b Hin Hb.
    apply (proj1 (Forall_forall _ _) Hall b Hin); now rewrite Hb.
Qed.

Lemma inactive_member_has_empty_entry_witness :
  exists balances,
    calculate_group_balances 1 db_drift = Some (Return balances)
    /\ (exists b, In b balances /\ Balance_user_id b = 1003%Z)
    /\ (forall b, In b balances -> Balance_user_id b = 1003%Z ->
                  Balance_net_balance b == 0
                  /\ Balance_owes b = [] /\ Balance_owed_by b = []).
Proof.
  apply (inactive_member_has_empty_entry 1 1003 db_drift).
  - vm_compute. auto.
  - repeat constructor; discriminate.
  - repeat constructor; discriminate.
Defined.

(** * Reports per user, and the list of groups *)





Lemma details_of_groups_returns (db : DB) (gs : list Group) :
  incl gs (groups db) ->
  exists rs,
    details_of_groups gs db = Return rs
    /\ map GroupResponse_id rs = map Group_id gs
    /\ Forall (fun r =>
         GroupResponse_users r = query_group_users db (GroupResponse_id r)
         /\ total_expenses r
            == Qsum (map Expense_amount
                         (query_expenses db (GroupResponse_id r))))
       rs.
Proof.
  induction gs as [|g gs IH]; intros Hincl; simpl.
  - exists []. repeat split; constructor.
  - destruct IH as (rs & -> & Hids & Hall);
      [intros x Hx; apply Hincl; now right|].
    unfold get_group_details, query_group.
    destruct (find (fun g0 => (Group_id g0 =? Group_id g)%Z) (groups db))
      as [g'|] eqn:Hf.
    + apply find_some in Hf as [_ Hid]. apply Z.eqb_eq in Hid.
      eexists. split; [reflexivity|]. simpl.
      split; [now rewrite Hid, Hids|].
      constructor; [|exact Hall]. simpl. rewrite Hid.
      split; [reflexivity | apply or_0_sql_sum].
    + exfalso.
      assert (Hin : In g (groups db)) by (apply Hincl; now left).
      apply (find_none _ _ Hf) in Hin. now rewrite Z.eqb_refl in Hin.
Qed.

(** X14: [get_groups] never raises: it returns one entry per stored
    group, in order, each with the users of that group and the sum of the
    amounts of its expenses. *)
Theorem get_groups_lists_every_group (db : DB) :
  exists rs,
    get_groups db = Return rs
    /\ map GroupResponse_id rs = map Group_id (groups db)
    /\ Forall (fun r =>
         GroupResponse_users r = query_group_users db (GroupResponse_id r)
         /\ total_expenses r
            == Qsum (map Expense_amount
                         (query_expenses db (GroupResponse_id r))))
       rs.
Proof.
  apply details_of_groups_returns. apply incl_refl.
Qed.

(** * Creating users and groups *)

Lemma find_email (email : string) (l : list User) :
  find (fun u => String.eqb (User_email u) email) l = None
  <-> ~ In email (map User_email l).
Proof.
  induction l as [|u l IH]; simpl; [tauto|].
  destruct (String.eqb (User_email u) email) eqn:E.
  - apply String.eqb_eq in E. split; [discriminate | intros H; tauto].
  - apply String.eqb_neq in E. rewrite IH. tauto.
Qed.

(** X15: [create_user] refuses an email that is registered, with 400 and
    no change; otherwise it appends the user, under an id no user had, to
    what [get_users] returns.  Emails and ids that were unique stay
    unique. *)
Theorem create_user_keeps_users_unique (user : UserCreate) (db : DB) :
  let db' := fst (create_user user db) in
  (In (UserCreate_email user) (map User_email (users db)) ->
   create_user user db
   = (db, Raise (HTTPException 400 "Email already registered")))
  /\ (~ In (UserCreate_email user) (map User_email (users db)) ->
      exists u,
        snd (create_user user db) = Return u
        /\ get_users db' = get_users db ++ [u]
        /\ User_name u = UserCreate_name user
        /\ User_email u = UserCreate_email user
        /\ ~ In (User_id u) (map User_id (users db)))
  /\ (NoDup (map User_email (users db)) ->
      NoDup (map User_email (users db')))
  /\ (NoDup (map User_id (users db)) -> NoDup (map User_id (users db'))).
Proof.
  intros db'. subst db'. unfold create_user, get_users.
  destruct (find _ (users db)) as [u0|] eqn:Hf.
  - assert (Hin : In (UserCreate_email user) (map User_email (users db))).
    { destruct (in_dec string_dec (UserCreate_email user)
                       (map User_email (users db))) as [H|H]; [exact H|].
      apply find_email in H. congruence. }
    simpl. repeat split; auto. intros H. contradiction.
  - pose proof (proj1 (find_email _ _) Hf) as Hnot. simpl.
    split; [intros H; contradiction|]. split; [|split].
    + intros _. eexists. split; [reflexivity|]. simpl.
      repeat split. apply next_id_fresh.
    + intros Hnd. rewrite map_app. simpl.
      apply NoDup_app; [exact Hnd | repeat constructor; auto |].
      intros x Hx [<-|[]]. contradiction.
    + intros Hnd. rewrite map_app. simpl.
      apply NoDup_app; [exact Hnd | repeat constructor; auto |].
      intros x Hx [<-|[]]. exact (next_id_fresh _ Hx).
Qed.

Lemma create_user_keeps_users_unique_witness :
  create_user (mkUserCreate "Al" "alice@example.com") db_trio
  = (db_trio, Raise (HTTPException 400 "Email already registered"))
  /\ exists u,
       snd (create_user (mkUserCreate "Zed" "zed@example.com") db_trio)
       = Return u
       /\ User_email u = "zed@example.com"%string.
Proof.
  split.
  - apply (create_user_keeps_users_unique
             (mkUserCreate "Al" "alice@example.com") db_trio).
    simpl. auto.
  - destruct (proj1 (proj2 (create_user_keeps_users_unique
                              (mkUserCreate "Zed" "zed@example.com") db_trio)))
      as (u & Hu & _ & _ & He & _).
    + simpl. intuition discriminate.
    + exists u. split; [exact Hu | exact He].
Defined.

Lemma query_users_in_ids (db : DB) (ids : list Z) :
  NoDup (map User_id (users db)) ->
  NoDup (map User_id (query_users_in db ids))
  /\ (forall x, In x (map User_id (query_users_in db ids))
                <-> In x ids /\ In x (map User_id (users db))).
Proof.
  unfold query_users_in. intros Hnd. split.
  - induction (users db) as [|u l IH]; simpl; [constructor|].
    inversion Hnd as [|? ? Hnot Hnd']; subst.
    destruct (existsb _ ids); simpl; [|auto]. constructor; [|auto].
    intros Hin. apply Hnot. apply in_map_iff in Hin as (u' & Hu' & Hin).
    apply filter_In in Hin as [Hin _]. rewrite <- Hu'. now apply in_map.
  - intros x. rewrite !in_map_iff. split.
    + intros (u & <- & Hin). apply filter_In in Hin as [Hin Hex].
      apply existsb_exists in Hex as (y & Hy & Hxy).
      apply Z.eqb_eq in Hxy. rewrite Hxy. split; [exact Hy|]. eauto.
    + intros (Hx & u & <- & Hin). exists u. split; [reflexivity|].
      apply filter_In. split; [exact Hin|].
      apply existsb_exists. exists (User_id u).
      split; [exact Hx | apply Z.eqb_refl].
Qed.

(** The check of [create_group] passes exactly for distinct ids of
    stored users. *)
Lemma all_users_found (db : DB) (ids : list Z) :
  NoDup (map User_id (users db)) ->
  List.length (query_users_in db ids) = List.length ids
  <-> NoDup ids /\ incl ids (map User_id (users db)).
Proof.
  intros Hnd. destruct (query_users_in_ids db ids Hnd) as [HndL HinL].
  rewrite <- (length_map User_id (query_users_in db ids)).
  set (L := map User_id (query_users_in db ids)) in *.
  assert (HL : incl L ids) by (intros x Hx; now apply HinL in Hx).
  split.
  - intros Hlen.
    assert (Hle : (List.length ids <= List.length L)%nat) by lia.
    split.
    + exact (NoDup_incl_NoDup HndL Hle HL).
    + intros x Hx.
      apply (NoDup_length_incl HndL Hle HL) in Hx. now apply HinL in Hx.
  - intros [Hids Hincl].
    assert (Hback : incl ids L) by (intros x Hx; apply HinL; auto).
    apply Nat.le_antisymm.
    + exact (NoDup_incl_length HndL HL).
    + exact (NoDup_incl_length Hids Hback).
Qed.

Lemma flush_members_appends (group_id : Z) (ids : list Z) :
  forall rows, exists new,
    flush_members rows group_id ids = rows ++ new
    /\ map GroupMember_user_id new = ids
    /\ Forall (fun m => GroupMember_group_id m = group_id) new.
Proof.
  induction ids as [|x ids IH]; intros rows; simpl.
  - exists []. rewrite app_nil_r. repeat split. constructor.
  - destruct (IH (rows ++ [mkGroupMember (next_id (map GroupMember_id rows))
                                         group_id x]))
      as (new & Heq & Hmap & Hall).
    eexists (_ :: new). split; [rewrite Heq, <- app_assoc; reflexivity|].
    split; [simpl; now rewrite Hmap|]. constructor; [reflexivity | exact Hall].
Qed.

Lemma new_group_found (db : DB) (name : string) (db2 : DB) :
  groups db2 = groups db ++ [mkGroup (next_id (map Group_id (groups db))) name]
  ->
  query_group db2 (next_id (map Group_id (groups db)))
  = Some (mkGroup (next_id (map Group_id (groups db))) name).
Proof.
  intros Hg. unfold query_group. rewrite Hg.
  assert (H : forall l,
             (forall g, In g l -> Group_id g
                                  <> next_id (map Group_id (groups db))) ->
             find (fun g => (Group_id g
                             =? next_id (map Group_id (groups db)))%Z)
                  (l ++ [mkGroup (next_id (map Group_id (groups db))) name])
             = Some (mkGroup (next_id (map Group_id (groups db))) name)).
  { induction l as [|g l IH]; simpl; intros Hl.
    - now rewrite Z.eqb_refl.
    - destruct (Group_id g =? _)%Z eqn:E.
      + apply Z.eqb_eq in E. exfalso. apply (Hl g); auto.
      + apply IH. intros g' Hg'. apply Hl. now right. }
  apply H. intros g Hin Heq.
  apply (next_id_fresh (map Group_id (groups db))).
  rewrite <- Heq. now apply in_map.
Qed.

(** X16: with unique user ids, [create_group] succeeds exactly when the
    requested ids are distinct ids of stored users (the empty list
    included); otherwise it raises 404 and changes nothing. *)
Theorem create_group_needs_distinct_known_users (group : GroupCreate)
    (db : DB) :
  NoDup (map User_id (users db)) ->
  (NoDup (user_ids group)
   /\ incl (user_ids group) (map User_id (users db)) ->
   exists r, snd (create_group group db) = Return r)
  /\ (~ (NoDup (user_ids group)
         /\ incl (user_ids group) (map User_id (users db))) ->
      create_group group db
      = (db, Raise (HTTPException 404 "One or more users not found"))).
Proof.
  intros Hnd. pose proof (all_users_found db (user_ids group) Hnd) as Hcheck.
  unfold create_group. split.
  - intros Hok. apply Hcheck in Hok. apply Nat.eqb_eq in Hok.
    rewrite Hok. simpl. unfold get_group_details.
    rewrite (new_group_found db (GroupCreate_name group)); [eauto|].
    reflexivity.
  - intros Hbad.
    destruct (List.length (query_users_in db (user_ids group))
              =? List.length (user_ids group))%nat eqn:E; [|reflexivity].
    apply Nat.eqb_eq in E. apply Hcheck in E. contradiction.
Qed.

Lemma create_group_needs_distinct_known_users_witness :
  (exists r,
     snd (create_group (mkGroupCreate "pair" [1001%Z; 1003%Z]) db_trio)
     = Return r)
  /\ create_group (mkGroupCreate "twice" [1001%Z; 1001%Z]) db_trio
     = (db_trio, Raise (HTTPException 404 "One or more users not found")).
Proof.
  assert (Hnd : NoDup (map User_id (users db_trio)))
    by (simpl; repeat constructor; simpl; intuition discriminate).
  split.
  - apply (create_group_needs_distinct_known_users
             (mkGroupCreate "pair" [1001%Z; 1003%Z]) db_trio Hnd).
    split.
    + simpl; repeat constructor; simpl; intuition discriminate.
    + intros x Hx. simpl in *. intuition.
  - apply (create_group_needs_distinct_known_users
             (mkGroupCreate "twice" [1001%Z; 1001%Z]) db_trio Hnd).
    intros [H _]. inversion H as [|? ? Hnot _]. apply Hnot. now left.
Defined.

(** What [create_group] does to the database: nothing, or the new group
    row and one membership row per requested id. *)
Lemma create_group_shape (group : GroupCreate) (db : DB) :
  let new_id := next_id (map Group_id (groups db)) in
  let row := mkGroup new_id (GroupCreate_name group) in
  create_group group db
  = (db, Raise (HTTPException 404 "One or more users not found"))
  \/ exists new,
       List.length (query_users_in db (user_ids group))
       = List.length (user_ids group)
       /\ map GroupMember_user_id new = user_ids group
       /\ Forall (fun m => GroupMember_group_id m = new_id) new
       /\ flush_members (group_members db) new_id (user_ids group)
          = group_members db ++ new
       /\ create_group group db
          = (mkDB (users db) (groups db ++ [row]) (group_members db ++ new)
                  (expenses db) (expense_splits db),
             get_group_details new_id
               (mkDB (users db) (groups db ++ [row]) (group_members db ++ new)
                     (expenses db) (expense_splits db))).
Proof.
  intros new_id row. unfold create_group.
  destruct (List.length (query_users_in db (user_ids group))
            =? List.length (user_ids group))%nat eqn:E; [|now left].
  right. apply Nat.eqb_eq in E. simpl.
  destruct (flush_members_appends new_id (user_ids group) (group_members db))
    as (new & Hnew & Hmap & Hall).
  exists new. unfold commit_members. simpl. fold new_id.
  rewrite Hnew. repeat split; auto.
Qed.

Lemma in_group_after_create (db : DB) (new : list GroupMember)
    (new_id : Z) (gs : list Group) (g uid : Z) :
  Forall (fun m => GroupMember_group_id m = new_id) new ->
  in_group (mkDB (users db) gs (group_members db ++ new) (expenses db)
                 (expense_splits db)) g uid
  = in_group db g uid
    || ((new_id =? g)%Z
        && existsb (Z.eqb uid) (map GroupMember_user_id new)).
Proof.
  intros Hall. unfold in_group. simpl group_members. rewrite existsb_app.
  f_equal. induction Hall as [|m new Hm _ IH]; simpl.
  - now rewrite andb_false_r.
  - rewrite IH, Hm, (Z.eqb_sym (GroupMember_user_id m) uid).
    destruct (new_id =? g)%Z; simpl; reflexivity.
Qed.

Lemma in_group_unknown_group (db : DB) (g uid : Z) :
  refs_ok db -> ~ In g (map Group_id (groups db)) ->
  in_group db g uid = false.
Proof.
  intros [Hrefs _] Hnot. unfold in_group.
  destruct (existsb _ (group_members db)) eqn:E; [|reflexivity].
  apply existsb_exists in E as (m & Hin & Hm).
  apply andb_true_iff in Hm as [Hg _]. apply Z.eqb_eq in Hg.
  exfalso. apply Hnot. rewrite <- Hg.
  exact (proj1 (Forall_forall _ _) Hrefs m Hin).
Qed.

Lemma filter_none {A : Type} (p : A -> bool) (l : list A) :
  (forall x, In x l -> p x = false) -> filter p l = [].
Proof.
  induction l as [|x l IH]; simpl; intros H; [reflexivity|].
  rewrite (H x) by auto. apply IH. auto.
Qed.

Lemma unknown_group_has_no_rows (db : DB) (g : Z) :
  refs_ok db -> ~ In g (map Group_id (groups db)) ->
  query_expenses db g = [] /\ query_group_members db g = [].
Proof.
  intros [Hm He] Hnot. split; apply filter_none; intros x Hx;
    apply Z.eqb_neq; intros Heq; apply Hnot; rewrite <- Heq.
  - exact (proj1 (Forall_forall _ _) He x Hx).
  - exact (proj1 (Forall_forall _ _) Hm x Hx).
Qed.

(** The response and the database after a successful [create_group]. *)
Lemma create_group_effect (group : GroupCreate) (db db' : DB)
    (r : GroupResponse) :
  refs_ok db ->
  NoDup (map User_id (users db)) ->
  create_group group db = (db', Return r) ->
  ~ In (GroupResponse_id r) (map Group_id (groups db))
  /\ GroupResponse_name r = GroupCreate_name group
  /\ map User_id (GroupResponse_users r) = user_ids group
  /\ incl (GroupResponse_users r) (users db)
  /\ total_expenses r = 0
  /\ map GroupMember_user_id (query_group_members db' (GroupResponse_id r))
     = user_ids group
  /\ get_group (GroupResponse_id r) db' = Return r
  /\ users db' = users db
  /\ (forall g, g <> GroupResponse_id r ->
        calculate_group_balances g db' = calculate_group_balances g db).
Proof.
  intros Hrefs Hnd Hrun.
  destruct (create_group_shape group db)
    as [Hfail|(new & Hlen & Hmap & Hall & _ & Hok)]; [congruence|].
  apply (all_users_found db (user_ids group) Hnd) in Hlen
    as [Hdistinct Hknown].
  rewrite Hok in Hrun. injection Hrun as <- Hr.
  set (new_id := next_id (map Group_id (groups db))) in *.
  pose proof (next_id_fresh (map Group_id (groups db))) as Hfresh.
  fold new_id in Hfresh.
  set (db2 := mkDB _ _ _ _ _) in *.
  assert (Hrows : query_group_members db2 new_id = new).
  { unfold query_group_members. simpl group_members. rewrite filter_app.
    assert (Hold : filter (fun m => (GroupMember_group_id m =? new_id)%Z)
                          (group_members db) = []).
    { exact (proj2 (unknown_group_has_no_rows db new_id Hrefs Hfresh)). }
    rewrite Hold. simpl. now apply filter_all_members. }
  assert (Hus : query_group_users db2 new_id
                = flat_map (user_by_id (users db)) (user_ids group)).
  { unfold query_group_users, joined_users. rewrite Hrows, Hmap.
    rewrite (first_occurrences_distinct _ Hdistinct). reflexivity. }
  assert (Hex : query_expenses db2 new_id = []).
  { exact (proj1 (unknown_group_has_no_rows db new_id Hrefs Hfresh)). }
  assert (Hdet : get_group_details new_id db2
                 = Return (mkGroupResponse new_id (GroupCreate_name group)
                             (flat_map (user_by_id (users db))
                                       (user_ids group)) 0)).
  { unfold get_group_details.
    pose proof (new_group_found db (GroupCreate_name group) db2 eq_refl)
      as Hfound.
    change (next_id (map Group_id (groups db))) with new_id in Hfound.
    rewrite Hfound, Hus, Hex. reflexivity. }
  rewrite Hdet in Hr. injection Hr as <-. simpl.
  split; [exact Hfresh|]. split; [reflexivity|].
  split; [now apply flat_user_by_id_ids|].
  split.
  { intros u Hu. apply in_flat_map in Hu as (k & _ & Hu).
    now apply In_user_by_id in Hu. }
  split; [reflexivity|]. split; [now rewrite Hrows|].
  split; [exact Hdet|]. split; [reflexivity|].
  intros g Hg.
  assert (Hsame : query_group_users db2 g = query_group_users db g).
  { unfold query_group_users, joined_users, query_group_members.
    simpl group_members.
    rewrite filter_app, (filter_no_members new_id g new Hg Hall), app_nil_r.
    reflexivity. }
  unfold calculate_group_balances, settle, net_balances.
  rewrite Hsame. reflexivity.
Qed.

(** X17: on a database with unique user ids whose memberships and
    expenses refer to stored groups, a successful [create_group] returns
    the details of a group with an id no group had, the requested name,
    the stored users whose ids were requested, in the order of the
    request, and total 0; the new group has one membership row per
    requested id, in order; the reports of the other groups are
    unchanged; and [get_group] on the new id returns the same details. *)
Theorem create_group_result (group : GroupCreate) (db db' : DB)
    (r : GroupResponse) :
  refs_ok db ->
  NoDup (map User_id (users db)) ->
  create_group group db = (db', Return r) ->
  ~ In (GroupResponse_id r) (map Group_id (groups db))
  /\ GroupResponse_name r = GroupCreate_name group
  /\ map User_id (GroupResponse_users r) = user_ids group
  /\ incl (GroupResponse_users r) (users db)
  /\ total_expenses r = 0
  /\ map GroupMember_user_id (query_group_members db' (GroupResponse_id r))
     = user_ids group
  /\ get_group (GroupResponse_id r) db' = Return r
  /\ users db' = users db
  /\ (forall g, g <> GroupResponse_id r ->
        calculate_group_balances g db' = calculate_group_balances g db).
Proof. apply create_group_effect. Qed.

Lemma create_group_result_witness :
  exists r,
    snd (create_group (mkGroupCreate "pair" [1003%Z; 1001%Z]) db_example)
    = Return r
    /\ GroupResponse_users r
       = [mkUser 1003 "Bob Smith" "bob@example.com";
          mkUser 1001 "You" "you@example.com"]
    /\ map User_id (GroupResponse_users r) = [1003%Z; 1001%Z]
    /\ total_expenses r = 0.
Proof.
  assert (Hrefs : refs_ok db_example).
  { split; apply Forall_forall; intros x Hx; vm_compute in Hx;
      repeat (destruct Hx as [<-|Hx]; [vm_compute; auto|]); contradiction. }
  assert (Hnd : NoDup (map User_id (users db_example)))
    by (simpl; repeat constructor; simpl; intuition discriminate).
  destruct (create_group_result (mkGroupCreate "pair" [1003%Z; 1001%Z])
              db_example
              (fst (create_group (mkGroupCreate "pair" [1003%Z; 1001%Z])
                                 db_example))
              (mkGroupResponse 2 "pair"
                 [mkUser 1003 "Bob Smith" "bob@example.com";
                  mkUser 1001 "You" "you@example.com"] 0)
              Hrefs Hnd eq_refl) as (_ & _ & Hus & _ & Htot & _).
  eexists. split; [reflexivity|]. split; [reflexivity|].
  split; [exact Hus | exact Htot].
Defined.

(** * Integrity of the databases the endpoints build *)

Lemma flush_members_ids (group_id : Z) (ids : list Z) :
  forall rows,
    NoDup (map GroupMember_id rows) ->
    NoDup (map GroupMember_id (flush_members rows group_id ids)).
Proof.
  induction ids as [|x ids IH]; intros rows Hnd; simpl; [exact Hnd|].
  apply IH. rewrite map_app. simpl.
  apply NoDup_app; [exact Hnd | repeat constructor; auto |].
  intros y Hy [<-|[]]. exact (next_id_fresh _ Hy).
Qed.

Lemma NoDup_snoc_fresh (ids : list Z) :
  NoDup ids -> NoDup (ids ++ [next_id ids]).
Proof.
  intros Hnd. apply NoDup_app; [exact Hnd | repeat constructor; auto |].
  intros y Hy [<-|[]]. exact (next_id_fresh _ Hy).
Qed.

Lemma group_users_grow (db db' : DB) (g : Z) (extra : list User) :
  users db' = users db ++ extra ->
  (forall uid, in_group db g uid = true -> in_group db' g uid = true) ->
  incl (map User_id (query_group_users db g))
       (map User_id (query_group_users db' g)).
Proof.
  intros Hu Hg x Hx. apply query_group_users_ids in Hx as [Hin Hp].
  apply query_group_users_ids. split; [|now apply Hg].
  rewrite Hu, map_app. apply in_or_app. now left.
Qed.

Lemma integrity_create_user (user : UserCreate) (db : DB) :
  integrity db -> integrity (fst (create_user user db)).
Proof.
  intros H. unfold create_user.
  destruct (find _ (users db)) eqn:Hf; [exact H|].
  apply find_email in Hf. simpl.
  constructor; simpl;
    try (first [ apply (int_group_ids _ H) | apply (int_member_ids _ H)
               | apply (int_expense_ids _ H) | apply (int_split_ids _ H)
               | apply (int_refs _ H) | apply (int_memberships _ H)
               | apply (int_split_refs _ H) ]).
  - rewrite map_app. simpl. apply NoDup_snoc_fresh, (int_user_ids _ H).
  - rewrite map_app. simpl.
    apply NoDup_app; [apply (int_emails _ H) | repeat constructor; auto |].
    intros x Hx [<-|[]]. contradiction.
  - eapply Forall_impl; [|apply (int_member_users _ H)].
    intros m Hm. rewrite map_app. apply in_or_app. now left.
  - unfold payers_are_members. simpl expenses.
    eapply Forall_impl; [|apply (int_payers _ H)].
    intros e. eapply (group_users_grow db); [simpl; reflexivity | auto].
Qed.

Lemma integrity_create_group (group : GroupCreate) (db : DB) :
  integrity db -> integrity (fst (create_group group db)).
Proof.
  intros H.
  destruct (create_group_shape group db)
    as [->|(new & Hlen & Hmap & Hall & Hflush & ->)]; [exact H|].
  set (new_id := next_id (map Group_id (groups db))) in *.
  pose proof (next_id_fresh (map Group_id (groups db))) as Hfresh.
  fold new_id in Hfresh.
  apply (all_users_found db _ (int_user_ids _ H)) in Hlen as [Hids Hincl].
  destruct (int_refs _ H) as [Hrm Hre].
  simpl fst. constructor; simpl;
    try (first [ apply (int_user_ids _ H) | apply (int_emails _ H)
               | apply (int_expense_ids _ H) | apply (int_split_ids _ H)
               | apply (int_split_refs _ H) ]).
  - rewrite map_app. simpl. apply NoDup_snoc_fresh, (int_group_ids _ H).
  - rewrite <- Hflush. apply flush_members_ids, (int_member_ids _ H).
  - split; simpl.
    + apply Forall_app. split.
      * eapply Forall_impl; [|exact Hrm]. intros m Hm. rewrite map_app.
        apply in_or_app. now left.
      * eapply Forall_impl; [|exact Hall]. intros m ->. rewrite map_app.
        apply in_or_app. right. now left.
    + eapply Forall_impl; [|exact Hre]. intros e He. rewrite map_app.
      apply in_or_app. now left.
  - apply Forall_app. split; [apply (int_member_users _ H)|].
    apply Forall_forall. intros m Hm. apply Hincl. rewrite <- Hmap.
    now apply in_map.
  - rewrite map_app. apply NoDup_app; [apply (int_memberships _ H) | |].
    + clear -Hall Hids Hmap. rewrite <- Hmap in Hids. clear Hmap.
      induction Hall as [|m l Hm Hl IH]; simpl; [constructor|].
      simpl in Hids. inversion Hids as [|? ? Hnot Hnd]; subst.
      constructor; [|auto].
      intros Hin. apply Hnot. apply in_map_iff in Hin as (m' & Heq & Hin).
      injection Heq as _ <-. now apply in_map.
    + intros [g u] Hold Hnew.
      apply in_map_iff in Hold as (m & Hm & Hin).
      apply in_map_iff in Hnew as (m' & Hm' & Hin').
      injection Hm as <- _. injection Hm' as Hg _.
      rewrite (proj1 (Forall_forall _ _) Hall m' Hin') in Hg.
      apply Hfresh. rewrite Hg.
      exact (proj1 (Forall_forall _ _) Hrm m Hin).
  - unfold payers_are_members. simpl expenses.
    eapply Forall_impl; [|apply (int_payers _ H)].
    intros e. eapply (group_users_grow db _ _ []).
    + simpl. now rewrite app_nil_r.
    + intros uid Hu.
      rewrite (in_group_after_create db new new_id _ _ _ Hall), Hu.
      reflexivity.
Qed.

Lemma add_expense_row_known_group (group_id : Z) (expense : ExpenseCreate)
    (db : DB) :
  expenses (fst (add_expense group_id expense db)) <> expenses db ->
  In group_id (map Group_id (groups db)).
Proof.
  unfold add_expense, query_group.
  destruct (find _ (groups db)) as [g|] eqn:Hf; [|simpl; congruence].
  intros _. apply find_some in Hf as [Hin Hid]. apply Z.eqb_eq in Hid.
  rewrite <- Hid. now apply in_map.
Qed.

Lemma integrity_add_expense (group_id : Z) (expense : ExpenseCreate)
    (db : DB) :
  integrity db -> integrity (fst (add_expense group_id expense db)).
Proof.
  intros H.
  pose proof (add_expense_split_ids group_id expense db (int_split_ids _ H))
    as Hsplit_ids.
  pose proof (add_expense_payers group_id expense db (int_payers _ H))
    as Hpayers.
  pose proof (add_expense_row_known_group group_id expense db) as Hknown.
  destruct (add_expense_shape group_id expense db)
    as (es & ss & Hdb & Hes & Hss & _).
  rewrite Hdb in *. simpl in Hsplit_ids, Hknown.
  destruct (int_refs _ H) as [Hrm Hre].
  constructor; simpl;
    try (first [ apply (int_user_ids _ H) | apply (int_emails _ H)
               | apply (int_group_ids _ H) | apply (int_member_ids _ H)
               | apply (int_member_users _ H) | apply (int_memberships _ H)
               | exact Hsplit_ids | exact Hpayers ]).
  - destruct Hes as [[-> _]| ->].
    + rewrite app_nil_r. apply (int_expense_ids _ H).
    + rewrite map_app. simpl. apply NoDup_snoc_fresh, (int_expense_ids _ H).
  - split; simpl; [exact Hrm|]. apply Forall_app. split; [exact Hre|].
    destruct Hes as [[-> _]| ->]; constructor; [|constructor].
    simpl. apply Hknown. intros Heq.
    apply (f_equal (@List.length Expense)) in Heq.
    rewrite length_app in Heq. simpl in Heq. lia.
  - apply Forall_app. split.
    + eapply Forall_impl; [|apply (int_split_refs _ H)].
      intros s Hs. rewrite map_app. apply in_or_app. now left.
    + destruct Hes as [[-> ->]| ->]; [constructor|].
      eapply Forall_impl; [|exact Hss]. intros s ->.
      rewrite map_app. apply in_or_app. right. now left.
Qed.

Lemma reachable_integrity_aux (db : DB) : reachable db -> integrity db.
Proof.
  induction 1 as [db Hg Hm He Hs Hids Hemails| | |].
  - constructor; unfold refs_ok, payers_are_members;
      rewrite ?Hg, ?Hm, ?He, ?Hs; simpl; auto; repeat constructor.
  - now apply integrity_create_user.
  - now apply integrity_create_group.
  - now apply integrity_add_expense.
Qed.

(** X18: every database built by [create_user], [create_group] and
    [add_expense] from one that holds users only, with unique ids and
    emails, has unique ids in every table and unique emails, memberships
    and expenses that refer to stored groups, memberships that refer to
    stored users, no user twice in a group, expenses paid by a user of
    their group, and splits that refer to stored expenses. *)
Theorem reachable_integrity (db : DB) : reachable db -> integrity db.
Proof. apply reachable_integrity_aux. Qed.

Lemma reachable_integrity_witness : integrity db_example.
Proof.
  apply reachable_integrity. unfold db_example, run_add.
  do 2 apply reach_add_expense.
  change db_trio with
    (fst (create_group (mkGroupCreate "trip" [1001%Z; 1002%Z; 1003%Z])
                       (mkDB sample_users [] [] [] []))).
  apply reach_create_group.
  apply reach_start; try reflexivity; simpl;
    repeat constructor; simpl; intuition discriminate.
Defined.

(** * Equal splits keep every group balanced *)

Lemma equal_history_reachable (db : DB) : equal_history db -> reachable db.
Proof.
  induction 1; [apply reach_start; assumption | | |].
  - now apply reach_create_user.
  - now apply reach_create_group.
  - now apply reach_add_expense.
Qed.

(** What an equal-split request does to the database. *)
Lemma add_expense_equal_cases (group_id : Z) (expense : ExpenseCreate)
    (db : DB) :
  split_type expense = EQUAL ->
  let new_id := next_id (map Expense_id (expenses db)) in
  let row := mkExpense new_id (description expense) (amount expense)
                       group_id (paid_by expense) EQUAL in
  fst (add_expense group_id expense db) = db
  \/ exists ss,
       fst (add_expense group_id expense db)
       = mkDB (users db) (groups db) (group_members db)
              (expenses db ++ [row]) (expense_splits db ++ ss)
       /\ Forall (fun s => ExpenseSplit_expense_id s = new_id) ss
       /\ Qsum (map ExpenseSplit_amount ss) == amount expense
       /\ Forall (fun s =>
                    exists m, In m (group_members db)
                              /\ GroupMember_group_id m = group_id
                              /\ GroupMember_user_id m
                                 = ExpenseSplit_user_id s)
                 ss.
Proof.
  intros Hty new_id row. unfold add_expense.
  destruct (query_group db group_id); [|now left].
  destruct (query_group_user db group_id (paid_by expense)) as [u|] eqn:Hu;
    [|now left].
  rewrite Hty. simpl.
  change (query_group_members (mkDB _ _ _ _ _) group_id)
    with (query_group_members db group_id).
  pose proof (payer_found_members_nonempty _ _ _ _ Hu) as Hpos.
  destruct (List.length (query_group_members db group_id)) as [|n] eqn:Hlen;
    [lia|].
  right. unfold commit_splits. cbn [fst expense_splits users groups
                                      group_members expenses Expense_id].
  match goal with
  | |- context [flush_splits ?rows ?pending] =>
      destruct (flush_splits_appends pending rows) as (ss & Hss & Hmap)
  end.
  exists ss. rewrite Hss.
  split; [reflexivity|]. split; [|split].
  - refine (flush_splits_expense_id _ _ (expense_splits db) _ _ Hmap).
    unfold equal_splits. apply Forall_forall. intros p Hp.
    apply in_map_iff in Hp as (m & <- & _). reflexivity.
  - rewrite (Qsum_split_amounts _ _ Hmap). unfold equal_splits.
    rewrite map_map. simpl pending_amount. rewrite Qsum_constant, Hlen.
    apply Qmult_div_r. intros H.
    assert (Hz : inject_Z (Z.of_nat (S n)) == inject_Z 0) by exact H.
    apply inject_Z_injective in Hz. discriminate Hz.
  - assert (Hids : map ExpenseSplit_user_id ss
                   = map GroupMember_user_id
                         (query_group_members db group_id)).
    { apply (f_equal (map (fun t => snd (fst (fst t))))) in Hmap.
      unfold equal_splits in Hmap. rewrite !map_map in Hmap. exact Hmap. }
    apply Forall_forall. intros s Hs.
    assert (Hin : In (ExpenseSplit_user_id s)
                     (map ExpenseSplit_user_id ss)) by now apply in_map.
    rewrite Hids in Hin. apply in_map_iff in Hin as (m & Hm & Hin).
    apply filter_In in Hin as [Hin Hg]. apply Z.eqb_eq in Hg.
    exists m. auto.
Qed.

Lemma member_row_gives_group_user (db : DB) (m : GroupMember) :
  integrity db -> In m (group_members db) ->
  In (GroupMember_user_id m)
     (map User_id (query_group_users db (GroupMember_group_id m))).
Proof.
  intros H Hin.
  pose proof (proj1 (Forall_forall _ _) (int_member_users _ H) m Hin) as Hu.
  apply query_group_users_ids. split; [exact Hu|].
  unfold in_group. apply existsb_exists. exists m.
  split; [exact Hin|]. now rewrite !Z.eqb_refl.
Qed.

Lemma shares_of_app (db : DB) (e : Expense) (es : list Expense)
    (ss : list ExpenseSplit) :
  shares_of (mkDB (users db) (groups db) (group_members db)
                  (expenses db ++ es) (expense_splits db ++ ss)) e
  = shares_of db e
    ++ filter (fun s => (ExpenseSplit_expense_id s =? Expense_id e)%Z) ss.
Proof. unfold shares_of. simpl. apply filter_app. Qed.

Lemma filter_all {A : Type} (p : A -> bool) (l : list A) :
  (forall x, In x l -> p x = true) -> filter p l = l.
Proof.
  induction l as [|x l IH]; simpl; intros H; [reflexivity|].
  rewrite (H x) by auto. f_equal. apply IH. auto.
Qed.

(** Unchanged expenses and splits keep [shares_exact]. *)
Lemma shares_exact_same_rows (db db' : DB) :
  expenses db' = expenses db -> expense_splits db' = expense_splits db ->
  shares_exact db -> shares_exact db'.
Proof.
  intros He Hs H. unfold shares_exact, share_error, shares_of in *.
  now rewrite He, Hs.
Qed.

Lemma owners_grow (db db' : DB) :
  expenses db' = expenses db -> expense_splits db' = expense_splits db ->
  (forall g, incl (map User_id (query_group_users db g))
                  (map User_id (query_group_users db' g))) ->
  owners_are_members db -> owners_are_members db'.
Proof.
  intros He Hs Hincl H. unfold owners_are_members in *. rewrite He, Hs.
  eapply Forall_impl; [|exact H]. intros s Hold e Hin Hid.
  apply Hincl. now apply Hold.
Qed.

Lemma books_add_equal (group_id : Z) (expense : ExpenseCreate) (db : DB) :
  split_type expense = EQUAL -> integrity db ->
  shares_exact db /\ owners_are_members db ->
  shares_exact (fst (add_expense group_id expense db))
  /\ owners_are_members (fst (add_expense group_id expense db)).
Proof.
  intros Hty Hint [Hexact Hown].
  destruct (add_expense_equal_cases group_id expense db Hty)
    as [->|(ss & -> & Hss & Hsum & Hmem)]; [now split|].
  set (new_id := next_id (map Expense_id (expenses db))) in *.
  pose proof (next_id_fresh (map Expense_id (expenses db))) as Hfresh.
  fold new_id in Hfresh.
  assert (Hold_ids : forall e, In e (expenses db) -> Expense_id e <> new_id).
  { intros e He Heq. apply Hfresh. rewrite <- Heq. now apply in_map. }
  assert (Hold_refs : forall s, In s (expense_splits db) ->
                                ExpenseSplit_expense_id s <> new_id).
  { intros s Hs Heq. apply Hfresh. rewrite <- Heq.
    exact (proj1 (Forall_forall _ _) (int_split_refs _ Hint) s Hs). }
  split.
  - unfold shares_exact. simpl expenses. apply Forall_app. split.
    + apply Forall_forall. intros e He.
      pose proof (proj1 (Forall_forall _ _) Hexact e He) as Hz.
      unfold share_error in *. rewrite shares_of_app, filter_none.
      * now rewrite app_nil_r.
      * intros s Hs. apply Z.eqb_neq.
        rewrite (proj1 (Forall_forall _ _) Hss s Hs).
        intros Heq. exact (Hold_ids e He (eq_sym Heq)).
    + constructor; [|constructor].
      unfold share_error. rewrite shares_of_app. unfold shares_of.
      simpl Expense_id. simpl Expense_amount.
      rewrite filter_none, filter_all.
      * simpl. rewrite Hsum. lra.
      * intros s Hs. apply Z.eqb_eq.
        exact (proj1 (Forall_forall _ _) Hss s Hs).
      * intros s Hs. apply Z.eqb_neq. now apply Hold_refs.
  - unfold owners_are_members. simpl expenses. simpl expense_splits.
    apply Forall_app. split.
    + apply Forall_forall. intros s Hs e He Hid.
      apply in_app_or in He as [He|[<-|[]]].
      * exact (proj1 (Forall_forall _ _) Hown s Hs e He Hid).
      * simpl in Hid. exfalso. exact (Hold_refs s Hs (eq_sym Hid)).
    + apply Forall_forall. intros s Hs e He Hid.
      rewrite (proj1 (Forall_forall _ _) Hss s Hs) in Hid.
      apply in_app_or in He as [He|[<-|[]]].
      * exfalso. exact (Hold_ids e He Hid).
      * simpl Expense_group_id.
        destruct (proj1 (Forall_forall _ _) Hmem s Hs) as (m & Hm & Hg & Hu).
        rewrite <- Hu, <- Hg.
        exact (member_row_gives_group_user db m Hint Hm).
Qed.

Lemma equal_history_books (db : DB) :
  equal_history db -> shares_exact db /\ owners_are_members db.
Proof.
  induction 1 as [db Hg Hm He Hs _ _
                 | user db Hh IH | group db Hh IH | g e db Hty Hh IH].
  - unfold shares_exact, owners_are_members. rewrite He, Hs.
    split; constructor.
  - destruct IH as [Hex Hown]. unfold create_user.
    destruct (find _ (users db)); [now split|]. simpl. split.
    + now apply (shares_exact_same_rows db).
    + apply (owners_grow db); try reflexivity; [|exact Hown].
      intros g'. eapply (group_users_grow db); [simpl; reflexivity | auto].
  - destruct IH as [Hex Hown].
    destruct (create_group_shape group db)
      as [->|(new & _ & _ & Hall & _ & ->)]; [now split|].
    simpl fst. split.
    + now apply (shares_exact_same_rows db).
    + apply (owners_grow db); try reflexivity; [|exact Hown].
      intros g'. eapply (group_users_grow db _ _ []).
      * simpl. now rewrite app_nil_r.
      * intros uid Hu.
        rewrite (in_group_after_create db new _ _ _ _ Hall), Hu.
        reflexivity.
  - apply books_add_equal; [exact Hty | | exact IH].
    apply reachable_integrity_aux. now apply equal_history_reachable.
Qed.

Lemma Qsum_map_zero {A : Type} (f : A -> Q) (l : list A) :
  (forall x, In x l -> f x == 0) -> Qsum (map f l) == 0.
Proof.
  induction l as [|x l IH]; simpl; intros H.
  - reflexivity.
  - rewrite Qsum_cons, IH, (H x) by auto. lra.
Qed.

(** The net balances of a group sum to what its expenses exceed their
    shares by, when payers and share owners are users of the group. *)
Lemma net_sum_identity (group_id : Z) (db : DB) :
  NoDup (map Expense_id (expenses db)) ->
  Forall (fun e => In (Expense_paid_by e)
                      (map User_id (query_group_users db group_id)))
         (query_expenses db group_id) ->
  Forall (fun s => In (ExpenseSplit_user_id s)
                      (map User_id (query_group_users db group_id)))
         (query_splits db group_id) ->
  Qsum (values (net_balances db group_id))
  == - Qsum (map (share_error db) (query_expenses db group_id)).
Proof.
  intros Hnd Hpayers Howners.
  assert (Hkeys : forall k,
             In k (map User_id (query_group_users db group_id)) ->
             In k (keys (net_balances db group_id)))
    by (intros k; apply In_keys_net_balances).
  rewrite net_balances_sum.
  unfold user_paid_of, user_owes_of, dd_add.
  rewrite (total_on_fold Expense_paid_by Expense_amount),
    (total_on_fold ExpenseSplit_user_id ExpenseSplit_amount).
  - rewrite total_on_empty, (splits_regrouped group_id db Hnd).
    unfold share_error. rewrite Qsum_map_minus. lra.
  - apply report_keys_NoDup.
  - eapply Forall_impl; [|exact Howners]. intros s. apply Hkeys.
  - apply report_keys_NoDup.
  - eapply Forall_impl; [|exact Hpayers]. intros e. apply Hkeys.
Qed.

(** X19: in every database built from users only by [create_user],
    [create_group] and equal-split [add_expense] requests, the net
    balances of every group sum to exactly zero. *)
Theorem equal_history_zero_sum (group_id : Z) (db : DB) :
  equal_history db ->
  Qsum (values (net_balances db group_id)) == 0.
Proof.
  intros Hh.
  pose proof (reachable_integrity_aux db (equal_history_reachable db Hh))
    as Hint.
  destruct (equal_history_books db Hh) as [Hexact Hown].
  rewrite net_sum_identity.
  - rewrite Qsum_map_zero; [reflexivity|].
    intros e He. apply filter_In in He as [He _].
    exact (proj1 (Forall_forall _ _) Hexact e He).
  - apply (int_expense_ids _ Hint).
  - apply Forall_forall. intros e He.
    apply filter_In in He as [He Hg]. apply Z.eqb_eq in Hg.
    rewrite <- Hg.
    exact (proj1 (Forall_forall _ _) (int_payers _ Hint) e He).
  - apply Forall_forall. intros s Hs.
    apply filter_In in Hs as [Hs Hex].
    apply existsb_exists in Hex as (e & He & Hid).
    apply andb_true_iff in Hid as [Hid Hg].
    apply Z.eqb_eq in Hid, Hg. rewrite <- Hg.
    exact (proj1 (Forall_forall _ _) Hown s Hs e He Hid).
Qed.

Lemma equal_history_zero_sum_witness :
  Qsum (values (net_balances db_example 1)) == 0.
Proof.
  apply equal_history_zero_sum. unfold db_example, run_add.
  do 2 (apply equal_add_expense; [reflexivity|]).
  change db_trio with
    (fst (create_group (mkGroupCreate "trip" [1001%Z; 1002%Z; 1003%Z])
                       (mkDB sample_users [] [] [] []))).
  apply equal_create_group.
  apply equal_start; try reflexivity; simpl;
    repeat constructor; simpl; intuition discriminate.
Defined.

(** X20: the balances of a group just created, on a database with unique
    user ids whose memberships and expenses refer to stored groups:
    [get_group_balances] returns one entry per requested user, in the
    order of the request, each with net balance zero and no transfer. *)
Theorem new_group_has_empty_balances (group : GroupCreate) (db db' : DB)
    (r : GroupResponse) :
  refs_ok db ->
  NoDup (map User_id (users db)) ->
  create_group group db = (db', Return r) ->
  exists balances,
    get_group_balances (GroupResponse_id r) db' = Some (Return balances)
    /\ map Balance_user_id balances = user_ids group
    /\ Forall (fun b => Balance_net_balance b == 0
                        /\ Balance_owes b = [] /\ Balance_owed_by b = [])
              balances.
Proof.
  intros Hrefs Hnd Hrun.
  destruct (create_group_effect group db db' r Hrefs Hnd Hrun)
    as (Hfresh & _ & Hus & _ & _ & _ & Hget & _ & _).
  set (new_id := GroupResponse_id r) in *.
  unfold get_group, get_group_details in Hget. unfold get_group_balances.
  destruct (query_group db' new_id) as [g|]; [|discriminate].
  injection Hget as Hr.
  assert (Hgu : map User_id (query_group_users db' new_id)
                = user_ids group).
  { rewrite <- Hus, <- Hr. reflexivity. }
  assert (Hdb' : expenses db' = expenses db).
  { destruct (create_group_shape group db)
      as [Hfail|(new & _ & _ & _ & _ & Hok)]; [congruence|].
    rewrite Hok in Hrun. injection Hrun as <- _. reflexivity. }
  assert (Hno : forall x, expense_in_group db' new_id x = false).
  { intros x. unfold expense_in_group. rewrite Hdb'.
    destruct (existsb _ (expenses db)) eqn:E; [|reflexivity].
    apply existsb_exists in E as (e & He & Hx).
    apply andb_true_iff in Hx as [_ Hg]. apply Z.eqb_eq in Hg.
    exfalso. apply Hfresh. rewrite <- Hg.
    exact (proj1 (Forall_forall _ _) (proj2 Hrefs) e He). }
  assert (He : query_expenses db' new_id = []).
  { unfold query_expenses. rewrite Hdb'.
    exact (proj1 (unknown_group_has_no_rows db new_id Hrefs Hfresh)). }
  assert (Hs : query_splits db' new_id = []).
  { unfold query_splits. apply filter_none. intros s _. apply Hno. }
  destruct (inactive_entry new_id db') as (balances & Hcalc & Hall).
  destruct (report_returned new_id db')
    as (st & balances' & _ & Hcalc' & _ & _ & _ & _ & Hids & _).
  rewrite Hcalc in Hcalc'. injection Hcalc' as <-.
  exists balances. split; [exact Hcalc|]. split; [now rewrite Hids, Hgu|].
  eapply Forall_impl; [|exact Hall].
  intros b Hb. apply Hb; [rewrite He | rewrite Hs]; constructor.
Qed.

Lemma new_group_has_empty_balances_witness :
  exists balances,
    get_group_balances 2
      (fst (create_group (mkGroupCreate "pair" [1003%Z; 1001%Z]) db_example))
    = Some (Return balances)
    /\ map Balance_user_id balances = [1003%Z; 1001%Z].
Proof.
  assert (Hrefs : refs_ok db_example).
  { split; apply Forall_forall; intros x Hx; vm_compute in Hx;
      repeat (destruct Hx as [<-|Hx]; [vm_compute; auto|]); contradiction. }
  assert (Hnd : NoDup (map User_id (users db_example)))
    by (simpl; repeat constructor; simpl; intuition discriminate).
  destruct (new_group_has_empty_balances
              (mkGroupCreate "pair" [1003%Z; 1001%Z]) db_example
              (fst (create_group (mkGroupCreate "pair" [1003%Z; 1001%Z])
                                 db_example))
              (mkGroupResponse 2 "pair"
                 [mkUser 1003 "Bob Smith" "bob@example.com";
                  mkUser 1001 "You" "you@example.com"] 0)
              Hrefs Hnd eq_refl) as (balances & Hcalc & Hids & _).
  exists balances. split; [exact Hcalc | exact Hids].
Defined.

(** * Default users *)

Lemma In_insert_by_id (u x : User) (l : list User) :
  In x (insert_by_id u l) <-> x = u \/ In x l.
Proof.
  induction l as [|v l IH]; simpl; [intuition|].
  destruct (User_id u <? User_id v)%Z; simpl; [intuition|].
  rewrite IH. intuition.
Qed.

Lemma In_fold_insert (added : list User) :
  forall l x,
    In x (fold_left (fun l d => insert_by_id d l) added l)
    <-> In x added \/ In x l.
Proof.
  induction added as [|d added IH]; intros l x; simpl; [intuition|].
  rewrite IH, In_insert_by_id. intuition.
Qed.

Lemma NoDup_map_insert_by_id {B : Type} (f : User -> B) (u : User)
    (l : list User) :
  ~ In (f u) (map f l) -> NoDup (map f l) ->
  NoDup (map f (insert_by_id u l)).
Proof.
  induction l as [|v l IH]; simpl; intros Hnot Hnd.
  - repeat constructor. auto.
  - destruct (User_id u <? User_id v)%Z; simpl.
    + constructor; [exact Hnot | exact Hnd].
    + inversion Hnd as [|? ? Hv Hl]; subst. constructor.
      * intros Hin. apply in_map_iff in Hin as (y & Hy & Hin).
        apply In_insert_by_id in Hin as [->|Hin].
        -- apply Hnot. left. now symmetry.
        -- apply Hv. rewrite <- Hy. now apply in_map.
      * apply IH; [|exact Hl]. intros Hin. apply Hnot. now right.
Qed.

Lemma NoDup_map_fold_insert {B : Type} (f : User -> B) (added : list User) :
  forall l,
    NoDup (map f added) ->
    (forall d, In d added -> ~ In (f d) (map f l)) ->
    NoDup (map f l) ->
    NoDup (map f (fold_left (fun l d => insert_by_id d l) added l)).
Proof.
  induction added as [|d added IH]; intros l Hadded Hfresh Hl; simpl;
    [exact Hl|].
  inversion Hadded as [|? ? Hd Hrest]; subst.
  apply IH; [exact Hrest | |].
  - intros d' Hd' Hin. apply in_map_iff in Hin as (y & Hy & Hin).
    apply In_insert_by_id in Hin as [->|Hin].
    + apply Hd. rewrite Hy. now apply in_map.
    + apply (Hfresh d'); [now right|]. rewrite <- Hy. now apply in_map.
  - apply NoDup_map_insert_by_id; [|exact Hl]. apply Hfresh. now left.
Qed.

Lemma missing_defaults_sub (db : DB) (d : User) :
  In d (missing_defaults db) ->
  In d default_users /\ ~ In (User_id d) (map User_id (users db)).
Proof.
  unfold missing_defaults. intros Hin. apply filter_In in Hin as [Hd Hno].
  split; [exact Hd|]. intros Hin. apply in_map_iff in Hin as (u & Hu & Hin).
  apply negb_true_iff in Hno.
  assert (Hex : existsb (fun u0 => (User_id u0 =? User_id d)%Z) (users db)
                = true).
  { apply existsb_exists. exists u. split; [exact Hin|]. now apply Z.eqb_eq. }
  congruence.
Qed.

Lemma NoDup_map_filter_defaults {B : Type} (f : User -> B)
    (p : User -> bool) :
  NoDup (map f default_users) -> NoDup (map f (filter p default_users)).
Proof.
  induction default_users as [|d l IH]; simpl; intros Hnd; [constructor|].
  inversion Hnd as [|? ? Hnot Hl]; subst.
  destruct (p d); simpl; [|auto]. constructor; [|auto].
  intros Hin. apply Hnot. apply in_map_iff in Hin as (y & Hy & Hin).
  apply filter_In in Hin as [Hin _]. rewrite <- Hy. now apply in_map.
Qed.

Lemma default_ids_distinct : NoDup (map User_id default_users).
Proof. simpl. repeat constructor; simpl; intuition discriminate. Qed.

Lemma default_emails_distinct : NoDup (map User_email default_users).
Proof. simpl. repeat constructor; simpl; intuition discriminate. Qed.

Lemma email_taken_false (db : DB) (d : User) :
  email_taken db d = false -> ~ In (User_email d) (map User_email (users db)).
Proof.
  unfold email_taken. intros Hno Hin.
  apply in_map_iff in Hin as (u & Hu & Hin).
  assert (Hex : existsb (fun u0 => String.eqb (User_email u0) (User_email d))
                        (users db) = true).
  { apply existsb_exists. exists u. split; [exact Hin|].
    now apply String.eqb_eq. }
  congruence.
Qed.

Lemma existsb_false_forall {A : Type} (p : A -> bool) (l : list A) :
  existsb p l = false -> forall x, In x l -> p x = false.
Proof.
  intros H x Hx. destruct (p x) eqn:E; [|reflexivity].
  assert (existsb p l = true) by (apply existsb_exists; eauto). congruence.
Qed.

(** X21: [ensure_default_users] only adds default users, under ids no
    stored user has: every stored user stays, the other tables are
    untouched, and unique ids and emails stay unique.  When no missing
    default's email is registered, every default id is registered
    afterwards.  Running it again changes nothing. *)
Theorem ensure_default_users_idempotent (db : DB) :
  let db' := ensure_default_users db in
  ensure_default_users db' = db'
  /\ incl (users db) (users db')
  /\ (forall u, In u (users db') ->
                In u (users db) \/ In u (missing_defaults db))
  /\ groups db' = groups db /\ group_members db' = group_members db
  /\ expenses db' = expenses db /\ expense_splits db' = expense_splits db
  /\ (existsb (email_taken db) (missing_defaults db) = false ->
      incl (map User_id default_users) (map User_id (users db')))
  /\ (NoDup (map User_id (users db)) -> NoDup (map User_id (users db')))
  /\ (NoDup (map User_email (users db)) ->
      NoDup (map User_email (users db'))).
Proof.
  intros db'. subst db'.
  destruct (existsb (email_taken db) (missing_defaults db)) eqn:Htaken.
  - (* rolled back *)
    assert (Heq : ensure_default_users db = db)
      by (unfold ensure_default_users; now rewrite Htaken).
    rewrite Heq. split; [exact Heq|]. split; [apply incl_refl|].
    split; [intros u H; now left|].
    repeat (split; [reflexivity|]). split; [discriminate|]. auto.
  - assert (Heq : ensure_default_users db
                  = mkDB (fold_left (fun l d => insert_by_id d l)
                                    (missing_defaults db) (users db))
                         (groups db) (group_members db) (expenses db)
                         (expense_splits db))
      by (unfold ensure_default_users; now rewrite Htaken).
    rewrite Heq. set (db' := mkDB _ _ _ _ _).
    assert (Hall : incl (map User_id default_users) (map User_id (users db'))).
    { intros x Hx. apply in_map_iff in Hx as (d & <- & Hd).
      destruct (in_dec Z.eq_dec (User_id d) (map User_id (users db)))
        as [Hin|Hnot].
      - apply in_map_iff in Hin as (u & Hu & Hin). rewrite <- Hu.
        apply in_map. unfold db'. simpl. apply In_fold_insert. now right.
      - apply in_map. unfold db'. simpl. apply In_fold_insert. left.
        unfold missing_defaults. apply filter_In. split; [exact Hd|].
        apply negb_true_iff.
        destruct (existsb _ (users db)) eqn:E; [|reflexivity].
        apply existsb_exists in E as (u & Hin & Hu). apply Z.eqb_eq in Hu.
        exfalso. apply Hnot. rewrite <- Hu. now apply in_map. }
    assert (Hnone : missing_defaults db' = []).
    { unfold missing_defaults. apply filter_none. intros d Hd.
      apply negb_false_iff. apply existsb_exists.
      assert (Hin : In (User_id d) (map User_id (users db')))
        by (apply Hall; now apply in_map).
      apply in_map_iff in Hin as (u & Hu & Hin).
      exists u. split; [exact Hin | now apply Z.eqb_eq]. }
    split; [unfold ensure_default_users; rewrite Hnone; reflexivity|].
    split.
    { intros u Hu. unfold db'. simpl. apply In_fold_insert. now right. }
    split.
    { intros u. unfold db'. simpl. rewrite In_fold_insert. tauto. }
    repeat (split; [reflexivity|]).
    split; [intros _; exact Hall|]. split.
    + intros Hnd. unfold db'. simpl. apply NoDup_map_fold_insert.
      * apply NoDup_map_filter_defaults, default_ids_distinct.
      * intros d Hd. now apply missing_defaults_sub in Hd.
      * exact Hnd.
    + intros Hnd. unfold db'. simpl. apply NoDup_map_fold_insert.
      * apply NoDup_map_filter_defaults, default_emails_distinct.
      * intros d Hd. apply email_taken_false.
        exact (existsb_false_forall _ _ Htaken d Hd).
      * exact Hnd.
Qed.

Lemma ensure_default_users_idempotent_witness :
  ensure_default_users db_empty = mkDB default_users [] [] [] []
  /\ incl (map User_id default_users)
          (map User_id (users (ensure_default_users db_empty))).
Proof.
  split; [reflexivity|].
  destruct (ensure_default_users_idempotent db_empty)
    as (_ & _ & _ & _ & _ & _ & _ & Hall & _).
  apply Hall. reflexivity.
Defined.
(** * Facts about doubles

    The operations on primitive floats are specified by their effect on
    [Prim2SF], the sign, mantissa and exponent of a double. *)

Section FloatFacts.

Import PrimFloat SpecFloat FloatOps FloatAxioms.

Local Open Scope Z_scope.

Lemma digits2_pos_bounds (m : positive) :
  2 ^ (Zpos (digits2_pos m) - 1) <= Zpos m < 2 ^ Zpos (digits2_pos m).
Proof.
  induction m as [m IH|m IH|]; simpl digits2_pos.
  - rewrite Pos2Z.inj_succ.
    replace (Z.succ (Zpos (digits2_pos m)) - 1)
      with (Z.succ (Zpos (digits2_pos m) - 1)) by lia.
    rewrite !Z.pow_succ_r by lia. lia.
  - rewrite Pos2Z.inj_succ.
    replace (Z.succ (Zpos (digits2_pos m)) - 1)
      with (Z.succ (Zpos (digits2_pos m) - 1)) by lia.
    rewrite !Z.pow_succ_r by lia. lia.
  - simpl. lia.
Qed.

(** The mantissa of a double has at most 53 bits, and exactly 53 above
    the least exponent. *)
Lemma bounded_mantissa (m : positive) (e : Z) :
  bounded prec emax m e = true ->
  Zpos m < 2 ^ 53 /\ SpecFloat.emin prec emax <= e
  /\ (SpecFloat.emin prec emax < e -> 2 ^ 52 <= Zpos m).
Proof.
  unfold bounded, canonical_mantissa, fexp. intros H.
  apply andb_true_iff in H as [H _]. apply Z.eqb_eq in H.
  pose proof (digits2_pos_bounds m) as [Hlo Hhi].
  set (d := Zpos (digits2_pos m)) in *.
  assert (Hd : 0 < d) by (unfold d; lia).
  change prec with 53 in *.
  split; [|split].
  - assert (d <= 53) by lia.
    apply Z.lt_le_trans with (2 ^ d); [exact Hhi|].
    apply Z.pow_le_mono_r; lia.
  - lia.
  - intros He. assert (d = 53) by lia.
    replace 52 with (d - 1) by lia. exact Hlo.
Qed.

Lemma iter_xO_value (d m : positive) :
  Zpos (Pos.iter xO m d) = Zpos m * 2 ^ Zpos d.
Proof.
  induction d as [|d IH] using Pos.peano_ind.
  - simpl. lia.
  - rewrite Pos.iter_succ, Pos2Z.inj_succ, Z.pow_succ_r by lia.
    rewrite Pos2Z.inj_xO, IH. lia.
Qed.

(** Aligning a mantissa to a smaller exponent multiplies it by the
    power of two between them. *)
Lemma shl_align_value (m : positive) (e e' : Z) :
  e' <= e -> Zpos (fst (shl_align m e e')) = Zpos m * 2 ^ (e - e').
Proof.
  intros Hle. unfold shl_align.
  destruct (e' - e) as [|d|d] eqn:E.
  - replace (e - e') with 0 by lia. simpl. lia.
  - lia.
  - simpl fst. rewrite iter_xO_value. f_equal. f_equal. lia.
Qed.

(** The comparison of two positive doubles is the comparison of their
    mantissas once aligned. *)
Lemma compare_aligned (m1 m2 : positive) (e1 e2 : Z) :
  bounded prec emax m1 e1 = true -> bounded prec emax m2 e2 = true ->
  (Zpos (fst (shl_align m1 e1 (Z.min e1 e2)))
   ?= Zpos (fst (shl_align m2 e2 (Z.min e1 e2))))
  = match e1 ?= e2 with
    | Lt => Lt
    | Gt => Gt
    | Eq => Pos.compare_cont Eq m1 m2
    end.
Proof.
  intros H1 H2.
  apply bounded_mantissa in H1 as (Hm1 & He1 & Hn1).
  apply bounded_mantissa in H2 as (Hm2 & He2 & Hn2).
  rewrite !shl_align_value by lia.
  destruct (Z.compare_spec e1 e2) as [->|Hlt|Hgt].
  - rewrite Z.min_id, Z.sub_diag, !Z.mul_1_r. reflexivity.
  - rewrite Z.min_l by lia. rewrite Z.sub_diag, Z.mul_1_r.
    apply Z.compare_lt_iff.
    assert (Hp : 2 ^ 1 <= 2 ^ (e2 - e1)) by (apply Z.pow_le_mono_r; lia).
    specialize (Hn2 ltac:(lia)). change (2 ^ 1) with 2 in Hp. nia.
  - rewrite Z.min_r by lia. rewrite Z.sub_diag, Z.mul_1_r.
    apply Z.compare_gt_iff.
    assert (Hp : 2 ^ 1 <= 2 ^ (e1 - e2)) by (apply Z.pow_le_mono_r; lia).
    specialize (Hn1 ltac:(lia)). change (2 ^ 1) with 2 in Hp. nia.
Qed.

(** Shifting a mantissa to the right keeps it non-negative. *)
Lemma shr_1_nonneg (mrs : shr_record) :
  0 <= shr_m mrs -> 0 <= shr_m (shr_1 mrs).
Proof.
  destruct mrs as [m r s]. simpl.
  destruct m as [|[p|p|]|p]; simpl; lia.
Qed.

Lemma iter_shr_1_nonneg (p : positive) :
  forall mrs, 0 <= shr_m mrs -> 0 <= shr_m (iter_pos shr_1 p mrs).
Proof.
  induction p as [p IH|p IH|]; intros mrs H; simpl.
  - apply IH, IH, shr_1_nonneg, H.
  - apply IH, IH, H.
  - apply shr_1_nonneg, H.
Qed.

Lemma shr_fexp_nonneg (m e : Z) (l : location) :
  0 <= m -> 0 <= shr_m (fst (shr_fexp prec emax m e l)).
Proof.
  intros Hm. unfold shr_fexp, shr.
  assert (H0 : 0 <= shr_m (shr_record_of_loc m l))
    by (destruct l as [|[]]; simpl; exact Hm).
  destruct (fexp prec emax (Zdigits2 m + e) - e); simpl; auto.
  now apply iter_shr_1_nonneg.
Qed.

Lemma binary_round_aux_signed (s : bool) (m e : Z) (l : location) :
  0 <= m -> Double.signed s (binary_round_aux prec emax s m e l).
Proof.
  intros Hm. unfold binary_round_aux.
  pose proof (shr_fexp_nonneg m e l Hm) as H1.
  destruct (shr_fexp prec emax m e l) as [mrs' e']. simpl in H1.
  assert (H2 : 0 <= round_nearest_even (shr_m mrs') (loc_of_shr_record mrs')).
  { unfold round_nearest_even.
    destruct (loc_of_shr_record mrs') as [|[]]; try lia.
    destruct (Z.even (shr_m mrs')); lia. }
  pose proof (shr_fexp_nonneg _ e' loc_Exact H2) as H3.
  destruct (shr_fexp prec emax _ e' loc_Exact) as [mrs'' e'']. simpl in H3.
  destruct (shr_m mrs'') as [|p|p]; [reflexivity| |simpl in H3; lia].
  destruct (e'' <=? emax - prec); reflexivity.
Qed.

(** The sum of two aligned mantissas, rounded: zero for zero, else of
    the sign of the sum. *)
Lemma binary_normalize_signed (m e : Z) :
  match m with
  | Z0 => binary_normalize prec emax m e false = S754_zero false
  | Zpos _ => Double.signed false (binary_normalize prec emax m e false)
  | Zneg _ => Double.signed true (binary_normalize prec emax m e false)
  end.
Proof.
  destruct m as [|p|p]; simpl; [reflexivity| |];
    unfold binary_round;
    destruct (shl_align p e _) as [mz ez];
    apply binary_round_aux_signed; lia.
Qed.

End FloatFacts.
(** * What one settlement does to two amounts *)

Section Amounts.

Import PrimFloat SpecFloat FloatOps FloatAxioms.

Local Open Scope float_scope.

Lemma finite_bounded (x : float) (s : bool) (m : positive) (e : Z) :
  Prim2SF x = S754_finite s m e -> bounded prec emax m e = true.
Proof.
  intros H. pose proof (Prim2SF_valid x) as Hv. now rewrite H in Hv.
Qed.

(** A zero passes the epsilon test. *)
Lemma zero_small (x : float) (s : bool) :
  Prim2SF x = S754_zero s -> (abs x <? 0.01) = true.
Proof.
  intros H. rewrite ltb_spec, abs_spec, H. reflexivity.
Qed.

(** An infinity does not. *)
Lemma infinity_not_small (x : float) (s : bool) :
  Prim2SF x = S754_infinity s -> (abs x <? 0.01) = false.
Proof.
  intros H. rewrite ltb_spec, abs_spec, H. reflexivity.
Qed.

(** [x - x] is zero for a finite [x]. *)
Lemma sub_self (x : float) : Double.finite x = true -> x - x = zero.
Proof.
  unfold Double.finite. intros H. apply Prim2SF_inj. rewrite sub_spec.
  destruct (Prim2SF x) as [s|s| |s m e]; try discriminate.
  - destruct s; reflexivity.
  - unfold SF64sub, SFsub. rewrite Z.sub_diag. reflexivity.
Qed.

(** [x + -x] is zero for a finite [x]. *)
Lemma add_opp_self (x : float) : Double.finite x = true -> x + - x = zero.
Proof.
  unfold Double.finite. intros H. apply Prim2SF_inj.
  rewrite add_spec, opp_spec.
  destruct (Prim2SF x) as [s|s| |s m e]; try discriminate.
  - destruct s; reflexivity.
  - unfold SF64add, SFadd, SFopp. rewrite Z.min_id.
    destruct s; simpl negb; unfold cond_Zopp;
      [rewrite Z.add_opp_diag_l | rewrite Z.add_opp_diag_r]; reflexivity.
Qed.

Lemma debt_finite (x : float) : Double.debt x = true -> Double.finite x = true.
Proof.
  unfold Double.debt, Double.finite.
  destruct (Prim2SF x) as [s|s| |[] m e]; congruence.
Qed.

Lemma credit_finite (x : float) :
  Double.credit x = true -> Double.finite x = true.
Proof.
  unfold Double.credit, Double.finite.
  destruct (Prim2SF x) as [s|s| |[] m e]; congruence.
Qed.

Lemma open_debt_cases (x : float) :
  Double.open_debt x = true ->
  Double.debt x = true \/ Prim2SF x = S754_infinity true.
Proof.
  unfold Double.open_debt, Double.debt.
  destruct (Prim2SF x) as [s|[]| |[] m e]; auto; discriminate.
Qed.

Lemma open_credit_cases (x : float) :
  Double.open_credit x = true ->
  Double.credit x = true \/ Prim2SF x = S754_infinity false.
Proof.
  unfold Double.open_credit, Double.credit.
  destruct (Prim2SF x) as [s|[]| |[] m e]; auto; discriminate.
Qed.

(** A finite balance below zero is a debt, and one above zero a
    credit. *)
Lemma negative_debt (x : float) :
  Double.finite x = true -> (x <? 0) = true -> Double.debt x = true.
Proof.
  unfold Double.finite, Double.debt. rewrite ltb_spec.
  destruct (Prim2SF x) as [s|s| |[] m e]; try discriminate; auto.
Qed.

Lemma positive_credit (x : float) :
  Double.finite x = true -> (0 <? x) = true -> Double.credit x = true.
Proof.
  unfold Double.finite, Double.credit. rewrite ltb_spec.
  destruct (Prim2SF x) as [s|s| |[] m e]; try discriminate; auto.
Qed.

(** What is left of the sign [s] and fails the epsilon test is no
    zero. *)
Lemma signed_not_small (s : bool) (x : float) :
  Double.signed s (Prim2SF x) -> (abs x <? 0.01) = false ->
  match Prim2SF x with
  | S754_finite s' _ _ | S754_infinity s' => s' = s
  | _ => False
  end.
Proof.
  intros Hs Hbig.
  destruct (Prim2SF x) as [s'|s'| |s' m e] eqn:E; simpl in Hs; auto.
  rewrite (zero_small x s' E) in Hbig. discriminate.
Qed.

Section Finite.

Variables (d c : float).
Hypothesis Hd : Double.debt d = true.
Hypothesis Hc : Double.credit c = true.

(** The creditor's amount is the smaller one: the debtor keeps a
    remainder of the debtor's sign. *)
Lemma debt_reduced :
  (c <? - d) = true -> Double.signed true (Prim2SF (d + c)).
Proof.
  unfold Double.debt, Double.credit in *.
  rewrite ltb_spec, opp_spec, add_spec.
  destruct (Prim2SF d) as [s|s| |[] md ed] eqn:Ed; try discriminate.
  destruct (Prim2SF c) as [s|s| |[] mc ec] eqn:Ec; try discriminate.
  pose proof (compare_aligned mc md ec ed (finite_bounded c _ _ _ Ec)
                (finite_bounded d _ _ _ Ed)) as Hcmp.
  unfold SFltb, SFcompare, SFopp. simpl negb. intros Hlt.
  unfold SF64add, SFadd. rewrite (Z.min_comm ed ec). unfold cond_Zopp.
  set (Mc := Zpos (fst (shl_align mc ec (Z.min ec ed)))) in *.
  set (Md := Zpos (fst (shl_align md ed (Z.min ec ed)))) in *.
  clearbody Mc Md.
  assert (Hneg : (- Md + Mc < 0)%Z).
  { revert Hlt Hcmp. destruct (ec ?= ed)%Z; [| |discriminate].
    - destruct (Pos.compare_cont Eq mc md); try discriminate.
      intros _ Hcmp. change (Mc < Md)%Z in Hcmp. lia.
    - intros _ Hcmp. change (Mc < Md)%Z in Hcmp. lia. }
  pose proof (binary_normalize_signed (- Md + Mc) (Z.min ec ed)) as Hn.
  destruct (- Md + Mc)%Z; [lia | lia | exact Hn].
Qed.

(** The debtor's amount is the smaller one: the creditor keeps a
    remainder of the creditor's sign. *)
Lemma credit_reduced :
  (c <? - d) = false -> Double.signed false (Prim2SF (c - - d)).
Proof.
  unfold Double.debt, Double.credit in *.
  rewrite ltb_spec, sub_spec, opp_spec.
  destruct (Prim2SF d) as [s|s| |[] md ed] eqn:Ed; try discriminate.
  destruct (Prim2SF c) as [s|s| |[] mc ec] eqn:Ec; try discriminate.
  pose proof (compare_aligned mc md ec ed (finite_bounded c _ _ _ Ec)
                (finite_bounded d _ _ _ Ed)) as Hcmp.
  unfold SFltb, SFcompare, SFopp. simpl negb. intros Hge.
  unfold SF64sub, SFsub. unfold cond_Zopp.
  set (Mc := Zpos (fst (shl_align mc ec (Z.min ec ed)))) in *.
  set (Md := Zpos (fst (shl_align md ed (Z.min ec ed)))) in *.
  clearbody Mc Md.
  assert (Hpos : (0 <= Mc - Md)%Z).
  { revert Hge Hcmp. destruct (ec ?= ed)%Z.
    - destruct (Pos.compare_cont Eq mc md); try discriminate.
      + intros _ Hcmp. apply Z.compare_eq_iff in Hcmp. lia.
      + intros _ Hcmp. apply Z.compare_gt_iff in Hcmp. lia.
    - discriminate.
    - intros _ Hcmp. apply Z.compare_gt_iff in Hcmp. lia. }
  pose proof (binary_normalize_signed (Mc - Md) (Z.min ec ed)) as Hn.
  destruct (Mc - Md)%Z; [rewrite Hn; reflexivity | exact Hn | lia].
Qed.

End Finite.

(** Against an infinite debt every finite credit is the smaller amount,
    and the debt stays infinite. *)
Lemma infinite_debt (d c : float) :
  Prim2SF d = S754_infinity true -> Double.credit c = true ->
  (c <? - d) = true /\ Prim2SF (d + c) = S754_infinity true.
Proof.
  unfold Double.credit. intros Hd Hc.
  rewrite ltb_spec, opp_spec, add_spec, Hd.
  destruct (Prim2SF c) as [s|s| |[] mc ec]; try discriminate.
  split; reflexivity.
Qed.

(** Against an infinite credit every finite debt is the smaller amount,
    and the credit stays infinite. *)
Lemma infinite_credit (d c : float) :
  Prim2SF c = S754_infinity false -> Double.debt d = true ->
  (c <? - d) = false /\ Prim2SF (c - - d) = S754_infinity false.
Proof.
  unfold Double.debt. intros Hc Hd.
  rewrite ltb_spec, sub_spec, opp_spec, Hc.
  destruct (Prim2SF d) as [s|s| |[] md ed]; try discriminate.
  split; reflexivity.
Qed.

(** One settlement between a debt and a credit that are not both
    infinite: one of the two is settled, and whichever is not stays a
    debt or a credit. *)
Lemma settlement_settles (d c : float) :
  Double.open_debt d = true -> Double.open_credit c = true ->
  Double.debt d = true \/ Double.credit c = true ->
  let settle_amt := Double.py_min (- d) c in
  ((abs (d + settle_amt) <? 0.01) = true
   \/ (abs (c - settle_amt) <? 0.01) = true)
  /\ ((abs (d + settle_amt) <? 0.01) = false ->
      Double.open_debt (d + settle_amt) = true)
  /\ ((abs (c - settle_amt) <? 0.01) = false ->
      Double.open_credit (c - settle_amt) = true).
Proof.
  intros Hod Hoc Hone. cbv zeta. unfold Double.py_min.
  destruct (open_debt_cases d Hod) as [Hd|Hdinf];
    destruct (open_credit_cases c Hoc) as [Hc|Hcinf].
  - destruct (c <? - d) eqn:Hlt.
    + rewrite (sub_self c (credit_finite c Hc)).
      split; [right; reflexivity|]. split; [|discriminate].
      intros Hbig.
      pose proof (signed_not_small true _ (debt_reduced d c Hd Hc Hlt) Hbig)
        as Hs.
      unfold Double.open_debt.
      destruct (Prim2SF (d + c)) as [s|s| |s m e]; try contradiction;
        now subst.
    + rewrite (add_opp_self d (debt_finite d Hd)).
      split; [left; reflexivity|]. split; [discriminate|].
      intros Hbig.
      pose proof (signed_not_small false _ (credit_reduced d c Hd Hc Hlt) Hbig)
        as Hs.
      unfold Double.open_credit.
      destruct (Prim2SF (c - - d)) as [s|s| |s m e]; try contradiction;
        now subst.
  - destruct (infinite_credit d c Hcinf Hd) as [Hlt Hinf]. rewrite Hlt.
    rewrite (add_opp_self d (debt_finite d Hd)).
    split; [left; reflexivity|]. split; [discriminate|].
    intros _. unfold Double.open_credit. now rewrite Hinf.
  - destruct (infinite_debt d c Hdinf Hc) as [Hlt Hinf]. rewrite Hlt.
    rewrite (sub_self c (credit_finite c Hc)).
    split; [right; reflexivity|]. split; [|discriminate].
    intros _. unfold Double.open_debt. now rewrite Hinf.
  - exfalso. destruct Hone as [H|H].
    + unfold Double.debt in H. rewrite Hdinf in H. discriminate.
    + unfold Double.credit in H. rewrite Hcinf in H. discriminate.
Qed.

End Amounts.
(** * The settlement loop on doubles *)

Section DoubleLoop.

Import PrimFloat.

Local Open Scope nat_scope.

(** What one iteration does, read off [Double.loop_body]. *)
Lemma double_body_inv (st st' : Double.loop_state) :
  Double.loop_body st = Return st' ->
  exists debtor_id debtor_amt creditor_id creditor_amt sd sc,
    let settle_amt := Double.py_min (- debtor_amt)%float creditor_amt in
    let s1 :=
      dict_set (Double.settlements st) debtor_id
        (Double.mkSettlement
           (dict_set (Double.owes sd) creditor_id settle_amt)
           (Double.owed_by sd)) in
    nth_error (Double.debtors st) (Double.i st)
    = Some (debtor_id, debtor_amt)
    /\ nth_error (Double.creditors st) (Double.j st)
       = Some (creditor_id, creditor_amt)
    /\ dict_get (Double.settlements st) debtor_id = Some sd
    /\ dict_get s1 creditor_id = Some sc
    /\ Double.debtors st'
       = list_set (Double.debtors st) (Double.i st)
                  (debtor_id, (debtor_amt + settle_amt)%float)
    /\ Double.creditors st'
       = list_set (Double.creditors st) (Double.j st)
                  (creditor_id, (creditor_amt - settle_amt)%float)
    /\ Double.i st'
       = (if (abs (debtor_amt + settle_amt) <? 0.01)%float
          then S (Double.i st) else Double.i st)
    /\ Double.j st'
       = (if (abs (creditor_amt - settle_amt) <? 0.01)%float
          then S (Double.j st) else Double.j st)
    /\ Double.settlements st'
       = dict_set s1 creditor_id
           (Double.mkSettlement (Double.owes sc)
              (dict_set (Double.owed_by sc) debtor_id settle_amt))
    /\ Double.log st'
       = Double.log st ++ [(debtor_id, creditor_id, settle_amt)].
Proof.
  unfold Double.loop_body.
  destruct (nth_error (Double.debtors st) (Double.i st))
    as [[debtor_id debtor_amt]|]; [|discriminate].
  destruct (nth_error (Double.creditors st) (Double.j st))
    as [[creditor_id creditor_amt]|]; [|discriminate].
  destruct (dict_get (Double.settlements st) debtor_id) as [sd|] eqn:Hsd;
    [|discriminate].
  destruct (dict_get _ creditor_id) as [sc|] eqn:Hsc; [|discriminate].
  intros [= <-].
  exists debtor_id, debtor_amt, creditor_id, creditor_amt, sd, sc.
  cbv zeta. cbn [Double.debtors Double.creditors Double.i Double.j
                 Double.settlements Double.log].
  repeat split; auto.
Qed.

(** An iteration raises nothing when both cursors are in range and the
    two users have an entry in [settlements]. *)
Lemma double_body_returns (st : Double.loop_state) :
  Double.loop_cond st = true ->
  (forall k, In k (map fst (Double.debtors st)) ->
             In k (keys (Double.settlements st))) ->
  (forall k, In k (map fst (Double.creditors st)) ->
             In k (keys (Double.settlements st))) ->
  exists st', Double.loop_body st = Return st'.
Proof.
  unfold Double.loop_cond, Double.loop_body. intros Hcond Hd Hc.
  apply andb_true_iff in Hcond as [Hi Hj].
  apply Nat.ltb_lt in Hi, Hj.
  destruct (nth_error (Double.debtors st) (Double.i st))
    as [[debtor_id debtor_amt]|] eqn:Ed.
  2:{ apply nth_error_None in Ed. lia. }
  destruct (nth_error (Double.creditors st) (Double.j st))
    as [[creditor_id creditor_amt]|] eqn:Ec.
  2:{ apply nth_error_None in Ec. lia. }
  assert (Hdk : In debtor_id (keys (Double.settlements st)))
    by (apply Hd; exact (nth_error_fst _ _ _ _ Ed)).
  assert (Hck : In creditor_id (keys (Double.settlements st)))
    by (apply Hc; exact (nth_error_fst _ _ _ _ Ec)).
  apply dict_get_In in Hdk.
  destruct (dict_get (Double.settlements st) debtor_id) as [sd|];
    [|congruence].
  destruct (dict_get _ creditor_id) as [sc|] eqn:Hsc; [eauto|].
  exfalso.
  assert (Hin : In creditor_id
                   (keys (dict_set (Double.settlements st) debtor_id
                            (Double.mkSettlement
                               (dict_set (Double.owes sd) creditor_id
                                  (Double.py_min (- debtor_amt)%float
                                                 creditor_amt))
                               (Double.owed_by sd)))))
    by (apply In_keys_dict_set; now right).
  apply dict_get_In in Hin. congruence.
Qed.

Lemma double_count_set (s : dict Double.Settlement) (k : Z)
    (old v : Double.Settlement) :
  dict_get s k = Some old ->
  Double.settlement_count (dict_set s k v) + List.length (Double.owes old)
  = Double.settlement_count s + List.length (Double.owes v).
Proof.
  unfold Double.settlement_count.
  induction s as [|[k' v'] s IH]; simpl; [discriminate|].
  destruct (k' =? k)%Z; simpl.
  - intros [= ->]. lia.
  - intros H. specialize (IH H). lia.
Qed.

(** Assigning to a key the dictionary has keeps its length. *)
Lemma length_dict_set_present {V : Type} (d : dict V) (k : Z) (v : V) :
  In k (keys d) -> List.length (dict_set d k v) = List.length d.
Proof.
  intros Hin. rewrite <- (length_map fst (dict_set d k v)).
  change (map fst (dict_set d k v)) with (keys (dict_set d k v)).
  rewrite (keys_dict_set_present d k v Hin). apply length_map.
Qed.

Section Invariants.

Variables (D0 C0 : list (Z * float)) (S0 : dict Double.Settlement).

Hypothesis ids_have_entry :
  forall k, In k (map fst D0 ++ map fst C0) -> In k (keys S0).

Lemma double_cond_in_range (st : Double.loop_state) :
  Double.loop_wf D0 C0 S0 st -> Double.loop_cond st = true ->
  Double.i st < List.length D0 /\ Double.j st < List.length C0.
Proof.
  intros Hwf Hcond. unfold Double.loop_cond in Hcond.
  apply andb_true_iff in Hcond as [Hi Hj]. apply Nat.ltb_lt in Hi, Hj.
  rewrite <- (length_map fst D0), <- (length_map fst C0),
    <- (Double.wf_debtor_ids _ _ _ _ Hwf),
    <- (Double.wf_creditor_ids _ _ _ _ Hwf), !length_map.
  split; assumption.
Qed.

Lemma double_wf_returns (st : Double.loop_state) :
  Double.loop_wf D0 C0 S0 st -> Double.loop_cond st = true ->
  exists st', Double.loop_body st = Return st'.
Proof.
  intros Hwf Hcond. apply double_body_returns; [exact Hcond| |];
    intros k Hk; rewrite (Double.wf_keys _ _ _ _ Hwf);
    apply ids_have_entry, in_or_app.
  - left. now rewrite <- (Double.wf_debtor_ids _ _ _ _ Hwf).
  - right. now rewrite <- (Double.wf_creditor_ids _ _ _ _ Hwf).
Qed.

(** An iteration records at most one transfer, and none when the pair
    at the cursors is recorded already. *)
Lemma double_wf_step (st st' : Double.loop_state) :
  Double.loop_wf D0 C0 S0 st -> Double.loop_cond st = true ->
  Double.loop_body st = Return st' -> Double.loop_wf D0 C0 S0 st'.
Proof.
  intros Hwf Hcond Hbody.
  destruct (double_body_inv _ _ Hbody)
    as (did & damt & cid & camt & sd & sc & Hdn & Hcn & Hsd & Hsc
        & Hd' & Hc' & Hi' & Hj' & Hs' & _).
  cbv zeta in *.
  destruct (double_cond_in_range _ Hwf Hcond) as [Hri Hrj].
  set (amt := Double.py_min (- damt)%float camt) in *.
  set (s1 := dict_set (Double.settlements st) did _) in *.
  assert (Hi : Double.i st <= Double.i st' <= S (Double.i st))
    by (rewrite Hi'; destruct (abs (damt + amt) <? 0.01)%float; lia).
  assert (Hj : Double.j st <= Double.j st' <= S (Double.j st))
    by (rewrite Hj'; destruct (abs (camt - amt) <? 0.01)%float; lia).
  assert (Hsd1 : dict_get s1 did
                 = Some (Double.mkSettlement
                           (dict_set (Double.owes sd) cid amt)
                           (Double.owed_by sd)))
    by (unfold s1; apply dict_get_set_eq).
  assert (Hcount : Double.settlement_count (Double.settlements st')
                   + List.length (Double.owes sd)
                   = Double.settlement_count (Double.settlements st)
                     + List.length (dict_set (Double.owes sd) cid amt)).
  { rewrite Hs'.
    pose proof (double_count_set _ _ _
                  (Double.mkSettlement (Double.owes sc)
                     (dict_set (Double.owed_by sc) did amt)) Hsc) as H2.
    pose proof (double_count_set _ _ _
                  (Double.mkSettlement (dict_set (Double.owes sd) cid amt)
                                       (Double.owed_by sd)) Hsd) as H1.
    fold s1 in H1. simpl in H1, H2. lia. }
  assert (Hle : Double.settlement_count (Double.settlements st')
                <= S (Double.i st + Double.j st)).
  { destruct (Double.wf_count _ _ _ _ Hwf) as [Hc0|[Hc0 Hrec]].
    - pose proof (length_dict_set (Double.owes sd) cid amt). lia.
    - destruct Hrec as (d & x & c & y & sd0 & Hd0 & Hc1 & Hsd0 & Hin).
      rewrite Hdn in Hd0. injection Hd0 as <- <-.
      rewrite Hcn in Hc1. injection Hc1 as <- <-.
      rewrite Hsd in Hsd0. injection Hsd0 as <-.
      rewrite (length_dict_set_present _ _ amt Hin) in Hcount. lia. }
  constructor.
  - rewrite Hd', (map_fst_list_set _ _ _ _ _ Hdn).
    apply (Double.wf_debtor_ids _ _ _ _ Hwf).
  - rewrite Hc', (map_fst_list_set _ _ _ _ _ Hcn).
    apply (Double.wf_creditor_ids _ _ _ _ Hwf).
  - rewrite Hs'.
    rewrite keys_dict_set_present by (apply dict_get_In; congruence).
    unfold s1.
    rewrite keys_dict_set_present by (apply dict_get_In; congruence).
    apply (Double.wf_keys _ _ _ _ Hwf).
  - lia.
  - lia.
  - unfold settlement_bound.
    destruct (List.length D0), (List.length C0); lia.
  - destruct (Nat.eq_dec (Double.i st' + Double.j st')
                         (Double.i st + Double.j st)) as [Hsame|Hmoved];
      [right | left; lia].
    assert (Hi0 : Double.i st' = Double.i st) by lia.
    assert (Hj0 : Double.j st' = Double.j st) by lia.
    split; [lia|].
    assert (Hid : Double.i st < List.length (Double.debtors st))
      by (apply nth_error_Some; congruence).
    assert (Hjc : Double.j st < List.length (Double.creditors st))
      by (apply nth_error_Some; congruence).
    unfold Double.recorded. rewrite Hi0, Hj0, Hd', Hc', Hs'.
    rewrite (nth_error_list_set_eq _ _ _ Hid),
      (nth_error_list_set_eq _ _ _ Hjc).
    destruct (Z.eq_dec cid did) as [Heq|Hne].
    + do 4 eexists.
      exists (Double.mkSettlement (Double.owes sc)
                (dict_set (Double.owed_by sc) did amt)).
      split; [reflexivity|]. split; [reflexivity|].
      split; [rewrite Heq; apply dict_get_set_eq|]. simpl.
      rewrite Heq, Hsd1 in Hsc. injection Hsc as <-. simpl.
      apply In_keys_dict_set. now left.
    + do 4 eexists.
      exists (Double.mkSettlement (dict_set (Double.owes sd) cid amt)
                                  (Double.owed_by sd)).
      split; [reflexivity|]. split; [reflexivity|].
      split; [rewrite dict_get_set_neq by exact Hne; exact Hsd1|]. simpl.
      apply In_keys_dict_set. now left.
Qed.

End Invariants.

(** With amounts that are not both infinite at the cursors, an
    iteration moves a cursor and keeps the amounts so. *)
Lemma double_finite_step (st st' : Double.loop_state) :
  Double.loop_finite st -> Double.loop_cond st = true ->
  Double.loop_body st = Return st' ->
  Double.loop_finite st'
  /\ S (Double.i st + Double.j st) <= Double.i st' + Double.j st'.
Proof.
  intros Hfin Hcond Hbody.
  destruct (double_body_inv _ _ Hbody)
    as (did & damt & cid & camt & sd & sc & Hdn & Hcn & _ & _
        & Hd' & Hc' & Hi' & Hj' & _).
  cbv zeta in *.
  set (amt := Double.py_min (- damt)%float camt) in *.
  assert (Hid : Double.i st < List.length (Double.debtors st))
    by (apply nth_error_Some; congruence).
  assert (Hjc : Double.j st < List.length (Double.creditors st))
    by (apply nth_error_Some; congruence).
  destruct (settlement_settles damt camt
              (Double.fin_debtor _ Hfin _ Hdn)
              (Double.fin_creditor _ Hfin _ Hcn)
              (Double.fin_one _ Hfin _ _ Hdn Hcn))
    as (Hone & Hopen_d & Hopen_c).
  cbv zeta in Hone, Hopen_d, Hopen_c. fold amt in Hone, Hopen_d, Hopen_c.
  assert (Hmove : S (Double.i st + Double.j st)
                  <= Double.i st' + Double.j st').
  { rewrite Hi', Hj'.
    destruct (abs (damt + amt) <? 0.01)%float,
             (abs (camt - amt) <? 0.01)%float;
      try lia; destruct Hone; discriminate. }
  split; [|exact Hmove].
  assert (Hahead_d : forall k p,
             Double.i st' < k -> nth_error (Double.debtors st') k = Some p ->
             Double.debt (snd p) = true).
  { intros k p Hk Hp. rewrite Hd' in Hp.
    assert (Double.i st <= Double.i st')
      by (rewrite Hi'; destruct (abs (damt + amt) <? 0.01)%float; lia).
    rewrite nth_error_list_set_neq in Hp by lia.
    apply (Double.fin_debtors _ Hfin k p); [lia | exact Hp]. }
  assert (Hahead_c : forall k p,
             Double.j st' < k -> nth_error (Double.creditors st') k = Some p ->
             Double.credit (snd p) = true).
  { intros k p Hk Hp. rewrite Hc' in Hp.
    assert (Double.j st <= Double.j st')
      by (rewrite Hj'; destruct (abs (camt - amt) <? 0.01)%float; lia).
    rewrite nth_error_list_set_neq in Hp by lia.
    apply (Double.fin_creditors _ Hfin k p); [lia | exact Hp]. }
  assert (Hcur_d : forall p,
             nth_error (Double.debtors st') (Double.i st') = Some p ->
             (Double.i st' = S (Double.i st) /\ Double.debt (snd p) = true)
             \/ (Double.i st' = Double.i st
                 /\ Double.open_debt (snd p) = true)).
  { intros p Hp. rewrite Hd', Hi' in Hp. rewrite Hi'.
    destruct (abs (damt + amt) <? 0.01)%float eqn:E.
    - left. split; [reflexivity|].
      rewrite nth_error_list_set_neq in Hp by lia.
      apply (Double.fin_debtors _ Hfin (S (Double.i st)) p); [lia|exact Hp].
    - right. split; [reflexivity|].
      rewrite (nth_error_list_set_eq _ _ _ Hid) in Hp. injection Hp as <-.
      simpl. now apply Hopen_d. }
  assert (Hcur_c : forall q,
             nth_error (Double.creditors st') (Double.j st') = Some q ->
             (Double.j st' = S (Double.j st) /\ Double.credit (snd q) = true)
             \/ (Double.j st' = Double.j st
                 /\ Double.open_credit (snd q) = true)).
  { intros q Hq. rewrite Hc', Hj' in Hq. rewrite Hj'.
    destruct (abs (camt - amt) <? 0.01)%float eqn:E.
    - left. split; [reflexivity|].
      rewrite nth_error_list_set_neq in Hq by lia.
      apply (Double.fin_creditors _ Hfin (S (Double.j st)) q); [lia|exact Hq].
    - right. split; [reflexivity|].
      rewrite (nth_error_list_set_eq _ _ _ Hjc) in Hq. injection Hq as <-.
      simpl. now apply Hopen_c. }
  constructor.
  - exact Hahead_d.
  - exact Hahead_c.
  - intros p Hp. destruct (Hcur_d p Hp) as [[_ H]|[_ H]]; [|exact H].
    unfold Double.debt in H. unfold Double.open_debt.
    destruct (FloatOps.Prim2SF (snd p)) as [s|s| |[] m e];
      congruence.
  - intros q Hq. destruct (Hcur_c q Hq) as [[_ H]|[_ H]]; [|exact H].
    unfold Double.credit in H. unfold Double.open_credit.
    destruct (FloatOps.Prim2SF (snd q)) as [s|s| |[] m e];
      congruence.
  - intros p q Hp Hq.
    destruct (Hcur_d p Hp) as [[_ H]|[Hi0 _]]; [now left|].
    destruct (Hcur_c q Hq) as [[_ H]|[Hj0 _]]; [now right|].
    lia.
Qed.

End DoubleLoop.
(** * Running the loop on doubles *)

Section DoubleRun.

Import PrimFloat.

Local Open Scope nat_scope.

(** An invariant kept by every iteration holds after any number of
    iterations, none of which raises. *)
Lemma double_iterate_invariant (P : Double.loop_state -> Prop) :
  (forall st, P st -> Double.loop_cond st = true ->
              exists st', Double.loop_body st = Return st' /\ P st') ->
  forall n st, P st -> exists st', Double.iterate n st = Return st' /\ P st'.
Proof.
  intros Hstep n. induction n as [|n IH]; intros st HP; simpl; [eauto|].
  destruct (Double.loop_cond st) eqn:Hcond; [|eauto].
  destruct (Hstep st HP Hcond) as (st' & -> & HP'). now apply IH.
Qed.

(** Such an invariant holds when the loop ends, and the loop raises
    nothing; it need not end. *)
Lemma double_while_invariant (P : Double.loop_state -> Prop) :
  (forall st, P st -> Double.loop_cond st = true ->
              exists st', Double.loop_body st = Return st' /\ P st') ->
  forall fuel st,
    P st ->
    Double.while_loop fuel st = None
    \/ exists st', Double.while_loop fuel st = Some (Return st')
                   /\ P st' /\ Double.loop_cond st' = false.
Proof.
  intros Hstep fuel. induction fuel as [|fuel IH]; intros st HP; simpl;
    destruct (Double.loop_cond st) eqn:Hcond; eauto.
  destruct (Hstep st HP Hcond) as (st' & -> & HP'). now apply IH.
Qed.

(** When every iteration moves a cursor as well, the loop ends within
    [Double.loop_measure] iterations. *)
Lemma double_while_ends (P : Double.loop_state -> Prop) :
  (forall st, P st -> Double.loop_cond st = true ->
              exists st', Double.loop_body st = Return st' /\ P st'
                          /\ S (Double.i st + Double.j st)
                             <= Double.i st' + Double.j st') ->
  forall fuel st,
    P st -> Double.loop_measure st <= fuel ->
    exists st', Double.while_loop fuel st = Some (Return st')
                /\ P st' /\ Double.loop_cond st' = false.
Proof.
  intros Hstep fuel. induction fuel as [|fuel IH]; intros st HP Hfuel; simpl;
    destruct (Double.loop_cond st) eqn:Hcond; eauto;
    unfold Double.loop_measure in Hfuel; rewrite Hcond in Hfuel;
    pose proof Hcond as Hrange; unfold Double.loop_cond in Hrange;
    apply andb_true_iff in Hrange as [Hi Hj]; apply Nat.ltb_lt in Hi, Hj.
  - exfalso. lia.
  - destruct (Hstep st HP Hcond) as (st' & Hbody & HP' & Hmove).
    rewrite Hbody. apply IH; [exact HP'|].
    destruct (double_body_inv _ _ Hbody)
      as (did & damt & cid & camt & sd & sc & _ & _ & _ & _
          & Hd' & Hc' & Hi' & Hj' & _).
    cbv zeta in *. unfold Double.loop_measure.
    destruct (Double.loop_cond st'); [|lia].
    rewrite Hd', Hc', !length_list_set.
    assert (Double.i st' <= S (Double.i st))
      by (rewrite Hi'; destruct (abs (damt + _) <? _)%float; lia).
    assert (Double.j st' <= S (Double.j st))
      by (rewrite Hj'; destruct (abs (camt - _) <? _)%float; lia).
    lia.
Qed.

(** The loop announces one settlement per iteration. *)
Lemma double_while_log (fuel : nat) :
  forall st st',
    Double.while_loop fuel st = Some (Return st') ->
    List.length (Double.log st') <= List.length (Double.log st) + fuel.
Proof.
  induction fuel as [|fuel IH]; intros st st'; simpl;
    destruct (Double.loop_cond st); try discriminate;
    try (intros [= <-]; lia).
  destruct (Double.loop_body st) as [st1|e] eqn:Hbody; [|discriminate].
  intros Hrun. apply IH in Hrun.
  destruct (double_body_inv _ _ Hbody)
    as (did & damt & cid & camt & sd & sc & _ & _ & _ & _
        & _ & _ & _ & _ & _ & Hlog').
  rewrite Hlog', length_app in Hrun. simpl in Hrun. lia.
Qed.

(** ** Debtors and creditors *)

Lemma In_double_debtors (items : list (Z * float)) (k : Z) (a : float) :
  In (k, a) (Double.debtors_of items) ->
  exists net, In (k, net) items /\ a = Double.round2 net
              /\ (Double.round2 net <? 0)%float = true.
Proof.
  induction items as [|[k' net'] items IH]; simpl; [contradiction|].
  destruct (0 <? Double.round2 net')%float;
    [|destruct (Double.round2 net' <? 0)%float eqn:Hneg]; simpl.
  - intros H. destruct (IH H) as (net & Hin & Ha & Hlt). eauto 6.
  - intros [[= <- <-]|H]; [eauto 6|].
    destruct (IH H) as (net & Hin & Ha & Hlt). eauto 6.
  - intros H. destruct (IH H) as (net & Hin & Ha & Hlt). eauto 6.
Qed.

Lemma In_double_creditors (items : list (Z * float)) (k : Z) (a : float) :
  In (k, a) (Double.creditors_of items) ->
  exists net, In (k, net) items /\ a = Double.round2 net
              /\ (0 <? Double.round2 net)%float = true.
Proof.
  induction items as [|[k' net'] items IH]; simpl; [contradiction|].
  destruct (0 <? Double.round2 net')%float eqn:Hpos; simpl.
  - intros [[= <- <-]|H]; [eauto 6|].
    destruct (IH H) as (net & Hin & Ha & Hlt). eauto 6.
  - intros H. destruct (IH H) as (net & Hin & Ha & Hlt). eauto 6.
Qed.

Lemma double_ids_keys (items : list (Z * float)) (k : Z) :
  In k (map fst (Double.debtors_of items)
        ++ map fst (Double.creditors_of items)) ->
  In k (keys items).
Proof.
  intros Hin.
  apply in_app_or in Hin as [Hin|Hin];
    apply in_map_iff in Hin as ([k' a] & <- & Hin);
    [apply In_double_debtors in Hin as (net & Hin & _)
    |apply In_double_creditors in Hin as (net & Hin & _)];
    change (fst (k', a)) with (fst (k', net)); now apply in_map.
Qed.

(** ** The dictionaries built from the users *)

Lemma double_count_empty (d : dict Double.Settlement) :
  (forall k s, In (k, s) d -> Double.owes s = []) ->
  Double.settlement_count d = 0.
Proof.
  unfold Double.settlement_count.
  induction d as [|[k s] d IH]; simpl; intros H; [reflexivity|].
  rewrite (H k s) by auto. simpl. apply IH. eauto.
Qed.

Section Run.

Variables (us : list User) (user_paid user_owes : dict float).

Local Abbreviation nets :=
  (Double.user_net_balances_of us user_paid user_owes).
Local Abbreviation D0 := (Double.debtors_of nets).
Local Abbreviation C0 := (Double.creditors_of nets).
Local Abbreviation S0 := (Double.init_settlements us).

Lemma double_keys_nets : keys nets = keys S0.
Proof. apply keys_per_user_congr. reflexivity. Qed.


Lemma double_net_value (k : Z) (v : float) :
  dict_get nets k = Some v ->
  v = (Double.dd_get user_paid k - Double.dd_get user_owes k)%float.
Proof.
  unfold Double.user_net_balances_of.
  change (fold_left _ us []) with
    (per_user (fun u => (Double.dd_get user_paid (User_id u)
                         - Double.dd_get user_owes (User_id u))%float)
              us []).
  apply (per_user_values _
           (fun k => (Double.dd_get user_paid k
                      - Double.dd_get user_owes k)%float));
    [reflexivity | discriminate].
Qed.

Lemma double_init_entry (k : Z) (s : Double.Settlement) :
  In (k, s) S0 -> s = Double.mkSettlement [] [].
Proof.
  unfold Double.init_settlements.
  change (fold_left _ us []) with
    (per_user (fun _ : User => Double.mkSettlement [] []) us []).
  intros Hin. apply In_dict_get in Hin.
  - revert Hin.
    apply (per_user_values _ (fun _ => Double.mkSettlement [] []));
      [reflexivity | discriminate].
  - apply NoDup_keys_per_user. constructor.
Qed.

Lemma double_ids_have_entry :
  forall k, In k (map fst D0 ++ map fst C0) -> In k (keys S0).
Proof.
  intros k Hin. rewrite <- double_keys_nets. now apply double_ids_keys.
Qed.

Lemma double_init_wf :
  Double.loop_wf D0 C0 S0 (Double.loop_init us nets).
Proof.
  assert (Hzero : Double.settlement_count S0 = 0).
  { apply double_count_empty. intros k s Hin.
    now rewrite (double_init_entry k s Hin). }
  constructor; simpl; try reflexivity; lia.
Qed.

(** With finite rounded balances the loop starts from finite debts and
    credits. *)
Lemma double_init_finite :
  Forall (fun p => Double.finite (Double.round2 (snd p)) = true) nets ->
  Double.loop_finite (Double.loop_init us nets).
Proof.
  intros Hfin.
  assert (Hd : forall k p, nth_error D0 k = Some p ->
                           Double.debt (snd p) = true).
  { intros k [u a] Hp. apply nth_error_In in Hp.
    apply In_double_debtors in Hp as (net & Hin & -> & Hneg).
    apply negative_debt; [|exact Hneg].
    exact (proj1 (Forall_forall _ _) Hfin _ Hin). }
  assert (Hc : forall k p, nth_error C0 k = Some p ->
                           Double.credit (snd p) = true).
  { intros k [u a] Hp. apply nth_error_In in Hp.
    apply In_double_creditors in Hp as (net & Hin & -> & Hpos).
    apply positive_credit; [|exact Hpos].
    exact (proj1 (Forall_forall _ _) Hfin _ Hin). }
  constructor; simpl.
  - intros k p _. apply Hd.
  - intros k p _. apply Hc.
  - intros p Hp. apply (Hd 0) in Hp. unfold Double.debt in Hp.
    unfold Double.open_debt.
    destruct (FloatOps.Prim2SF (snd p)) as [s|s| |[] m e]; congruence.
  - intros p Hp. apply (Hc 0) in Hp. unfold Double.credit in Hp.
    unfold Double.open_credit.
    destruct (FloatOps.Prim2SF (snd p)) as [s|s| |[] m e]; congruence.
  - intros p q Hp _. left. now apply (Hd 0).
Qed.

(** The loop raises nothing, and whenever it ends the shape invariant
    holds of its final state. *)
Lemma double_run_safe (fuel : nat) :
  Double.while_loop fuel (Double.loop_init us nets) = None
  \/ exists st,
       Double.while_loop fuel (Double.loop_init us nets) = Some (Return st)
       /\ Double.loop_wf D0 C0 S0 st /\ Double.loop_cond st = false.
Proof.
  apply (double_while_invariant (Double.loop_wf D0 C0 S0));
    [|apply double_init_wf].
  intros st Hwf Hcond.
  destruct (double_wf_returns _ _ _ double_ids_have_entry _ Hwf Hcond)
    as [st' Hbody].
  exists st'. split; [exact Hbody|].
  exact (double_wf_step _ _ _ _ _ Hwf Hcond Hbody).
Qed.

(** The shape invariant holds after any number of iterations. *)
Lemma double_run_iterate (n : nat) :
  exists st,
    Double.iterate n (Double.loop_init us nets) = Return st
    /\ Double.loop_wf D0 C0 S0 st.
Proof.
  apply (double_iterate_invariant (Double.loop_wf D0 C0 S0));
    [|apply double_init_wf].
  intros st Hwf Hcond.
  destruct (double_wf_returns _ _ _ double_ids_have_entry _ Hwf Hcond)
    as [st' Hbody].
  exists st'. split; [exact Hbody|].
  exact (double_wf_step _ _ _ _ _ Hwf Hcond Hbody).
Qed.

(** With finite rounded balances the loop ends within
    [len(debtors) + len(creditors) - 1] iterations, and at once when one
    of the lists is empty. *)
Lemma double_run_ends :
  Forall (fun p => Double.finite (Double.round2 (snd p)) = true) nets ->
  exists st,
    Double.while_loop
      (settlement_bound (List.length D0) (List.length C0))
      (Double.loop_init us nets)
    = Some (Return st)
    /\ Double.loop_wf D0 C0 S0 st /\ Double.loop_finite st
    /\ Double.loop_cond st = false.
Proof.
  intros Hfin.
  destruct (double_while_ends
              (fun st => Double.loop_wf D0 C0 S0 st /\ Double.loop_finite st))
    with (fuel := settlement_bound (List.length D0) (List.length C0))
         (st := Double.loop_init us nets)
    as (st & Hrun & (Hwf & Hf) & Hcond).
  - intros st (Hwf & Hf) Hcond.
    destruct (double_wf_returns _ _ _ double_ids_have_entry _ Hwf Hcond)
      as [st' Hbody].
    destruct (double_finite_step _ _ Hf Hcond Hbody) as [Hf' Hmove].
    exists st'. split; [exact Hbody|]. split; [|exact Hmove].
    split; [|exact Hf'].
    exact (double_wf_step _ _ _ _ _ Hwf Hcond Hbody).
  - split; [apply double_init_wf | now apply double_init_finite].
  - unfold Double.loop_measure, Double.loop_cond, settlement_bound. simpl.
    destruct (List.length D0), (List.length C0); simpl; lia.
  - exists st. auto.
Qed.

End Run.

(** ** The report *)


End DoubleRun.
(** * The percentage check on doubles *)

Section PercentageCheck.

Import PrimFloat.




End PercentageCheck.

(** * The report on doubles *)

Section DoubleReport.

Import PrimFloat.

Local Open Scope nat_scope.

Variables (group_id : Z) (db : Double.DB) (nets : dict float).

Hypothesis amounts_read : Double.net_balances db group_id = Return nets.

Local Abbreviation us := (Double.query_group_users db group_id).
Local Abbreviation D0 := (Double.debtors_of nets).
Local Abbreviation C0 := (Double.creditors_of nets).
Local Abbreviation S0 := (Double.init_settlements us).

Lemma double_nets_built :
  exists user_paid user_owes,
    nets = Double.user_net_balances_of us user_paid user_owes.
Proof.
  revert amounts_read. unfold Double.net_balances.
  destruct (Double.user_paid_of _ []) as [user_paid|]; [|discriminate].
  destruct (Double.user_owes_of _ []) as [user_owes|]; [|discriminate].
  intros [= <-]. eauto.
Qed.


End DoubleReport.
(** * Settlements on doubles *)

Section DoubleClaims.

Import PrimFloat.

Local Open Scope nat_scope.

(** X22: however far the greedy matching has run, and so in every state
    it ends in, the transfers recorded in the ["owes"] dictionaries
    number at most [len(debtors) + len(creditors) - 1] when there are
    both debtors and creditors, and none otherwise.  When every rounded
    balance is finite the loop ends within that many iterations, each of
    which announces one settlement. *)
Theorem settlement_count_bound (group_id : Z) (db : Double.DB)
    (nets : dict float) :
  Double.net_balances db group_id = Return nets ->
  let st0 := Double.loop_init (Double.query_group_users db group_id) nets in
  let bound := settlement_bound (List.length (Double.debtors_of nets))
                                (List.length (Double.creditors_of nets)) in
  (forall n, exists st,
     Double.iterate n st0 = Return st
     /\ Double.settlement_count (Double.settlements st) <= bound)
  /\ (forall fuel st,
        Double.while_loop fuel st0 = Some (Return st) ->
        Double.settlement_count (Double.settlements st) <= bound)
  /\ (Forall (fun p => Double.finite (Double.round2 (snd p)) = true) nets ->
      exists st,
        Double.while_loop bound st0 = Some (Return st)
        /\ List.length (Double.log st) <= bound
        /\ Double.settlement_count (Double.settlements st) <= bound).
Proof.
  intros Hnets st0 bound.
  destruct (double_nets_built group_id db nets Hnets)
    as (user_paid & user_owes & ->).
  split; [|split].
  - intros n.
    destruct (double_run_iterate (Double.query_group_users db group_id)
                user_paid user_owes n) as (st & Hst & Hwf).
    exists st. split; [exact Hst|].
    apply (Double.wf_count_bound _ _ _ _ Hwf).
  - intros fuel st Hrun.
    destruct (double_run_safe (Double.query_group_users db group_id)
                user_paid user_owes fuel) as [Hnone|(st' & Hst' & Hwf & _)].
    + unfold st0 in Hrun. congruence.
    + unfold st0 in Hrun. rewrite Hst' in Hrun. injection Hrun as <-.
      apply (Double.wf_count_bound _ _ _ _ Hwf).
  - intros Hfin.
    destruct (double_run_ends (Double.query_group_users db group_id)
                user_paid user_owes Hfin) as (st & Hst & Hwf & _).
    exists st. split; [exact Hst|]. split.
    + apply double_while_log in Hst. simpl in Hst. exact Hst.
    + apply (Double.wf_count_bound _ _ _ _ Hwf).
Qed.

Lemma settlement_count_bound_witness :
  exists st,
    Double.while_loop 4
      (Double.loop_init (Double.query_group_users Double.db_cents 1)
         [(1001%Z, (-0.03)%float); (1002%Z, (-0.03)%float);
          (1003%Z, 0.02%float); (1004%Z, 0.02%float); (1005%Z, 0.02%float)])
    = Some (Return st)
    /\ List.length (Double.log st) <= 4
    /\ Double.settlement_count (Double.settlements st) <= 4.
Proof.
  destruct (settlement_count_bound 1 Double.db_cents
              [(1001%Z, (-0.03)%float); (1002%Z, (-0.03)%float);
               (1003%Z, 0.02%float); (1004%Z, 0.02%float);
               (1005%Z, 0.02%float)])
    as (_ & _ & Hends); [vm_compute; reflexivity|].
  apply Hends. repeat constructor.
Defined.

(** The state in which the loop is caught on [Double.db_huge], with the
    settlements it has announced. *)
Lemma caught_in_loop (l : list (Z * Z * float)) :
  let st :=
    Double.mkLoop [(1002%Z, nan)] [(1001%Z, nan)] 0 0
      [(1001%Z, Double.mkSettlement [] [(1002%Z, nan)]);
       (1002%Z, Double.mkSettlement [(1001%Z, nan)] [])] l in
  forall fuel, Double.while_loop fuel st = None.
Proof.
  intros st fuel. subst st. revert l.
  induction fuel as [|fuel IH]; intros l; [reflexivity|].
  exact (IH (l ++ [(1002%Z, 1001%Z, nan)])).
Qed.

(** C5: on [Double.db_huge] the bound is not kept.  After two accepted
    requests of 1e308 the one member paid infinity and the other owes
    it: one debtor and one creditor, for whom the bound is 1.  The first
    settlement leaves NaN on both sides, neither exit test holds of NaN,
    no cursor moves any more, and the loop goes on announcing settlements
    between the two without end, so that no report is returned. *)
Theorem settlements_announced_without_end :
  Double.net_balances Double.db_huge 1
  = Return [(1001%Z, infinity); (1002%Z, neg_infinity)]
  /\ settlement_bound
       (List.length
          (Double.debtors_of [(1001%Z, infinity); (1002%Z, neg_infinity)]))
       (List.length
          (Double.creditors_of [(1001%Z, infinity); (1002%Z, neg_infinity)]))
     = 1
  /\ (exists st,
        Double.iterate 3
          (Double.loop_init (Double.query_group_users Double.db_huge 1)
             [(1001%Z, infinity); (1002%Z, neg_infinity)])
        = Return st
        /\ List.length (Double.log st) = 3)
  /\ forall fuel,
       Double.calculate_group_balances fuel 1 Double.db_huge = None.
Proof.
  split; [vm_compute; reflexivity|].
  split; [vm_compute; reflexivity|].
  split; [eexists; split; vm_compute; reflexivity|].
  intros fuel. destruct fuel as [|[|fuel]]; try reflexivity.
  unfold Double.calculate_group_balances.
  change (Double.net_balances Double.db_huge 1)
    with (Return [(1001%Z, infinity); (1002%Z, neg_infinity)]).
  cbv iota beta zeta.
  change (Double.while_loop (S (S fuel)) _)
    with (Double.while_loop fuel
            (Double.mkLoop [(1002%Z, nan)] [(1001%Z, nan)] 0 0
               [(1001%Z, Double.mkSettlement [] [(1002%Z, nan)]);
                (1002%Z, Double.mkSettlement [(1001%Z, nan)] [])]
               ([(1002%Z, 1001%Z, infinity)] ++ [(1002%Z, 1001%Z, nan)]))).
  now rewrite caught_in_loop.
Qed.

(** C6: on [Double.db_cents] the rounded balances -0.03, -0.03, 0.02,
    0.02 and 0.02 cancel, the loop ends after two settlements of 0.02,
    and user 1005 is left with 0.02 and no transfer: what remains of each
    debtor, -0.03 + 0.02, is a double just below one hundredth in size,
    which the epsilon test takes for settled. *)
Theorem settled_early_by_epsilon (fuel : nat) :
  Double.calculate_group_balances (2 + fuel) 1 Double.db_cents
  = Some (Return
            [Double.mkBalance 1001 "You" [(1003%Z, 0.02%float)] []
                              (-0.03)%float;
             Double.mkBalance 1002 "Alice Johnson" [(1004%Z, 0.02%float)] []
                              (-0.03)%float;
             Double.mkBalance 1003 "Bob Smith" [] [(1001%Z, 0.02%float)]
                              0.02%float;
             Double.mkBalance 1004 "Charlie Brown" [] [(1002%Z, 0.02%float)]
                              0.02%float;
             Double.mkBalance 1005 "David Wilson" [] [] 0.02%float])
  /\ (abs (Double.py_sum [-0.03; -0.03; 0.02; 0.02; 0.02]) <? 0.01)%float
     = true
  /\ (-0.03 + 0.02 = -0.009999999999999998)%float
  /\ (abs (-0.03 + 0.02) <? 0.01)%float = true
  /\ Double.remaining (Double.mkBalance 1005 "David Wilson" [] [] 0.02%float)
     = 0.02%float
  /\ (0.01 <? 0.02)%float = true.
Proof.
  split; [destruct fuel; vm_compute; reflexivity|].
  repeat split; vm_compute; reflexivity.
Qed.




End DoubleClaims.
